(** * Bearer authentication middleware (src/middleware/bearerAuth.ts)

    A shallow embedding of the Bearer-token middleware and of the parts of
    the JavaScript runtime it calls, followed by the properties stated for
    it.  Strings are sequences of UTF-16 code units, as in ECMAScript,
    and are lower-cased by the Unicode default case conversion; buffers
    are sequences of bytes.

    The embedding then goes on to the service layer around the
    middleware: the error mapping of handleServiceError, the handlers of
    the user routes, the e-mail service with its retry loop, and the
    queries of the order service. *)

From Stdlib Require Import String Ascii List PeanoNat NArith ZArith Bool Lia.
From Stdlib Require Import DecimalString.
Import ListNotations.
Local Open Scope N_scope.
Local Open Scope list_scope.

(** ** Unicode case data *)

(** The case data that [String.prototype.toLowerCase] uses, from the
    Unicode Character Database, version 14.0: the simple lower-case
    mappings, the general category Lu, and the Cased and Case_Ignorable
    properties that decide the form of a capital sigma.  A row
    [(lo, hi, stride, ...)] stands for the code points [lo],
    [lo + stride], ... up to [hi]. *)
Module Unicode.

(** [cp] is one of the code points of the row [(lo, hi, stride)]. *)
Definition inRow (cp lo hi stride : N) : bool :=
  (lo <=? cp) && (cp <=? hi) && ((cp - lo) mod stride =? 0).

(** The simple lower-case mappings: the code points of the row map to
    [target], [target + stride], ... *)
Definition lowerTable : list (N * N * N * N) :=
  [
    (0x41, 0x5a, 0x1, 0x61); (0xc0, 0xd6, 0x1, 0xe0); (0xd8, 0xde, 0x1, 0xf8);
    (0x100, 0x12e, 0x2, 0x101); (0x132, 0x136, 0x2, 0x133); (0x139, 0x147, 0x2, 0x13a);
    (0x14a, 0x176, 0x2, 0x14b); (0x178, 0x178, 0x1, 0xff); (0x179, 0x17d, 0x2, 0x17a);
    (0x181, 0x181, 0x1, 0x253); (0x182, 0x184, 0x2, 0x183); (0x186, 0x186, 0x1, 0x254);
    (0x187, 0x187, 0x1, 0x188); (0x189, 0x18a, 0x1, 0x256); (0x18b, 0x18b, 0x1, 0x18c);
    (0x18e, 0x18e, 0x1, 0x1dd); (0x18f, 0x18f, 0x1, 0x259); (0x190, 0x190, 0x1, 0x25b);
    (0x191, 0x191, 0x1, 0x192); (0x193, 0x193, 0x1, 0x260); (0x194, 0x194, 0x1, 0x263);
    (0x196, 0x196, 0x1, 0x269); (0x197, 0x197, 0x1, 0x268); (0x198, 0x198, 0x1, 0x199);
    (0x19c, 0x19c, 0x1, 0x26f); (0x19d, 0x19d, 0x1, 0x272); (0x19f, 0x19f, 0x1, 0x275);
    (0x1a0, 0x1a4, 0x2, 0x1a1); (0x1a6, 0x1a6, 0x1, 0x280); (0x1a7, 0x1a7, 0x1, 0x1a8);
    (0x1a9, 0x1a9, 0x1, 0x283); (0x1ac, 0x1ac, 0x1, 0x1ad); (0x1ae, 0x1ae, 0x1, 0x288);
    (0x1af, 0x1af, 0x1, 0x1b0); (0x1b1, 0x1b2, 0x1, 0x28a); (0x1b3, 0x1b5, 0x2, 0x1b4);
    (0x1b7, 0x1b7, 0x1, 0x292); (0x1b8, 0x1b8, 0x1, 0x1b9); (0x1bc, 0x1bc, 0x1, 0x1bd);
    (0x1c4, 0x1c4, 0x1, 0x1c6); (0x1c5, 0x1c5, 0x1, 0x1c6); (0x1c7, 0x1c7, 0x1, 0x1c9);
    (0x1c8, 0x1c8, 0x1, 0x1c9); (0x1ca, 0x1ca, 0x1, 0x1cc); (0x1cb, 0x1db, 0x2, 0x1cc);
    (0x1de, 0x1ee, 0x2, 0x1df); (0x1f1, 0x1f1, 0x1, 0x1f3); (0x1f2, 0x1f4, 0x2, 0x1f3);
    (0x1f6, 0x1f6, 0x1, 0x195); (0x1f7, 0x1f7, 0x1, 0x1bf); (0x1f8, 0x21e, 0x2, 0x1f9);
    (0x220, 0x220, 0x1, 0x19e); (0x222, 0x232, 0x2, 0x223);
    (0x23a, 0x23a, 0x1, 0x2c65); (0x23b, 0x23b, 0x1, 0x23c);
    (0x23d, 0x23d, 0x1, 0x19a); (0x23e, 0x23e, 0x1, 0x2c66);
    (0x241, 0x241, 0x1, 0x242); (0x243, 0x243, 0x1, 0x180); (0x244, 0x244, 0x1, 0x289);
    (0x245, 0x245, 0x1, 0x28c); (0x246, 0x24e, 0x2, 0x247); (0x370, 0x372, 0x2, 0x371);
    (0x376, 0x376, 0x1, 0x377); (0x37f, 0x37f, 0x1, 0x3f3); (0x386, 0x386, 0x1, 0x3ac);
    (0x388, 0x38a, 0x1, 0x3ad); (0x38c, 0x38c, 0x1, 0x3cc); (0x38e, 0x38f, 0x1, 0x3cd);
    (0x391, 0x3a1, 0x1, 0x3b1); (0x3a3, 0x3ab, 0x1, 0x3c3); (0x3cf, 0x3cf, 0x1, 0x3d7);
    (0x3d8, 0x3ee, 0x2, 0x3d9); (0x3f4, 0x3f4, 0x1, 0x3b8); (0x3f7, 0x3f7, 0x1, 0x3f8);
    (0x3f9, 0x3f9, 0x1, 0x3f2); (0x3fa, 0x3fa, 0x1, 0x3fb); (0x3fd, 0x3ff, 0x1, 0x37b);
    (0x400, 0x40f, 0x1, 0x450); (0x410, 0x42f, 0x1, 0x430); (0x460, 0x480, 0x2, 0x461);
    (0x48a, 0x4be, 0x2, 0x48b); (0x4c0, 0x4c0, 0x1, 0x4cf); (0x4c1, 0x4cd, 0x2, 0x4c2);
    (0x4d0, 0x52e, 0x2, 0x4d1); (0x531, 0x556, 0x1, 0x561);
    (0x10a0, 0x10c5, 0x1, 0x2d00); (0x10c7, 0x10c7, 0x1, 0x2d27);
    (0x10cd, 0x10cd, 0x1, 0x2d2d); (0x13a0, 0x13ef, 0x1, 0xab70);
    (0x13f0, 0x13f5, 0x1, 0x13f8); (0x1c90, 0x1cba, 0x1, 0x10d0);
    (0x1cbd, 0x1cbf, 0x1, 0x10fd); (0x1e00, 0x1e94, 0x2, 0x1e01);
    (0x1e9e, 0x1e9e, 0x1, 0xdf); (0x1ea0, 0x1efe, 0x2, 0x1ea1);
    (0x1f08, 0x1f0f, 0x1, 0x1f00); (0x1f18, 0x1f1d, 0x1, 0x1f10);
    (0x1f28, 0x1f2f, 0x1, 0x1f20); (0x1f38, 0x1f3f, 0x1, 0x1f30);
    (0x1f48, 0x1f4d, 0x1, 0x1f40); (0x1f59, 0x1f5f, 0x2, 0x1f51);
    (0x1f68, 0x1f6f, 0x1, 0x1f60); (0x1f88, 0x1f8f, 0x1, 0x1f80);
    (0x1f98, 0x1f9f, 0x1, 0x1f90); (0x1fa8, 0x1faf, 0x1, 0x1fa0);
    (0x1fb8, 0x1fb9, 0x1, 0x1fb0); (0x1fba, 0x1fbb, 0x1, 0x1f70);
    (0x1fbc, 0x1fbc, 0x1, 0x1fb3); (0x1fc8, 0x1fcb, 0x1, 0x1f72);
    (0x1fcc, 0x1fcc, 0x1, 0x1fc3); (0x1fd8, 0x1fd9, 0x1, 0x1fd0);
    (0x1fda, 0x1fdb, 0x1, 0x1f76); (0x1fe8, 0x1fe9, 0x1, 0x1fe0);
    (0x1fea, 0x1feb, 0x1, 0x1f7a); (0x1fec, 0x1fec, 0x1, 0x1fe5);
    (0x1ff8, 0x1ff9, 0x1, 0x1f78); (0x1ffa, 0x1ffb, 0x1, 0x1f7c);
    (0x1ffc, 0x1ffc, 0x1, 0x1ff3); (0x2126, 0x2126, 0x1, 0x3c9);
    (0x212a, 0x212a, 0x1, 0x6b); (0x212b, 0x212b, 0x1, 0xe5);
    (0x2132, 0x2132, 0x1, 0x214e); (0x2160, 0x216f, 0x1, 0x2170);
    (0x2183, 0x2183, 0x1, 0x2184); (0x24b6, 0x24cf, 0x1, 0x24d0);
    (0x2c00, 0x2c2f, 0x1, 0x2c30); (0x2c60, 0x2c60, 0x1, 0x2c61);
    (0x2c62, 0x2c62, 0x1, 0x26b); (0x2c63, 0x2c63, 0x1, 0x1d7d);
    (0x2c64, 0x2c64, 0x1, 0x27d); (0x2c67, 0x2c6b, 0x2, 0x2c68);
    (0x2c6d, 0x2c6d, 0x1, 0x251); (0x2c6e, 0x2c6e, 0x1, 0x271);
    (0x2c6f, 0x2c6f, 0x1, 0x250); (0x2c70, 0x2c70, 0x1, 0x252);
    (0x2c72, 0x2c72, 0x1, 0x2c73); (0x2c75, 0x2c75, 0x1, 0x2c76);
    (0x2c7e, 0x2c7f, 0x1, 0x23f); (0x2c80, 0x2ce2, 0x2, 0x2c81);
    (0x2ceb, 0x2ced, 0x2, 0x2cec); (0x2cf2, 0x2cf2, 0x1, 0x2cf3);
    (0xa640, 0xa66c, 0x2, 0xa641); (0xa680, 0xa69a, 0x2, 0xa681);
    (0xa722, 0xa72e, 0x2, 0xa723); (0xa732, 0xa76e, 0x2, 0xa733);
    (0xa779, 0xa77b, 0x2, 0xa77a); (0xa77d, 0xa77d, 0x1, 0x1d79);
    (0xa77e, 0xa786, 0x2, 0xa77f); (0xa78b, 0xa78b, 0x1, 0xa78c);
    (0xa78d, 0xa78d, 0x1, 0x265); (0xa790, 0xa792, 0x2, 0xa791);
    (0xa796, 0xa7a8, 0x2, 0xa797); (0xa7aa, 0xa7aa, 0x1, 0x266);
    (0xa7ab, 0xa7ab, 0x1, 0x25c); (0xa7ac, 0xa7ac, 0x1, 0x261);
    (0xa7ad, 0xa7ad, 0x1, 0x26c); (0xa7ae, 0xa7ae, 0x1, 0x26a);
    (0xa7b0, 0xa7b0, 0x1, 0x29e); (0xa7b1, 0xa7b1, 0x1, 0x287);
    (0xa7b2, 0xa7b2, 0x1, 0x29d); (0xa7b3, 0xa7b3, 0x1, 0xab53);
    (0xa7b4, 0xa7c2, 0x2, 0xa7b5); (0xa7c4, 0xa7c4, 0x1, 0xa794);
    (0xa7c5, 0xa7c5, 0x1, 0x282); (0xa7c6, 0xa7c6, 0x1, 0x1d8e);
    (0xa7c7, 0xa7c9, 0x2, 0xa7c8); (0xa7d0, 0xa7d0, 0x1, 0xa7d1);
    (0xa7d6, 0xa7d8, 0x2, 0xa7d7); (0xa7f5, 0xa7f5, 0x1, 0xa7f6);
    (0xff21, 0xff3a, 0x1, 0xff41); (0x10400, 0x10427, 0x1, 0x10428);
    (0x104b0, 0x104d3, 0x1, 0x104d8); (0x10570, 0x1057a, 0x1, 0x10597);
    (0x1057c, 0x1058a, 0x1, 0x105a3); (0x1058c, 0x10592, 0x1, 0x105b3);
    (0x10594, 0x10595, 0x1, 0x105bb); (0x10c80, 0x10cb2, 0x1, 0x10cc0);
    (0x118a0, 0x118bf, 0x1, 0x118c0); (0x16e40, 0x16e5f, 0x1, 0x16e60);
    (0x1e900, 0x1e921, 0x1, 0x1e922)
  ].

Fixpoint lookup (table : list (N * N * N * N)) (cp : N) : option N :=
  match table with
  | [] => None
  | (lo, hi, stride, target) :: rows =>
      if inRow cp lo hi stride then Some (target + (cp - lo)) else lookup rows cp
  end.

Fixpoint member (table : list (N * N * N)) (cp : N) : bool :=
  match table with
  | [] => false
  | (lo, hi, stride) :: rows => inRow cp lo hi stride || member rows cp
  end.

(** Simple_Lowercase_Mapping: the code point itself when it has none. *)
Definition simpleLower (cp : N) : N :=
  match lookup lowerTable cp with
  | Some lower => lower
  | None => cp
  end.

(** General category Lu, "Letter, uppercase". *)
Definition uppercaseLetters : list (N * N * N) :=
  [
    (0x41, 0x5a, 0x1); (0xc0, 0xd6, 0x1); (0xd8, 0xde, 0x1); (0x100, 0x136, 0x2);
    (0x139, 0x147, 0x2); (0x14a, 0x178, 0x2); (0x179, 0x17d, 0x2); (0x181, 0x182, 0x1);
    (0x184, 0x186, 0x2); (0x187, 0x189, 0x2); (0x18a, 0x18b, 0x1); (0x18e, 0x191, 0x1);
    (0x193, 0x194, 0x1); (0x196, 0x198, 0x1); (0x19c, 0x19d, 0x1); (0x19f, 0x1a0, 0x1);
    (0x1a2, 0x1a6, 0x2); (0x1a7, 0x1a9, 0x2); (0x1ac, 0x1ae, 0x2); (0x1af, 0x1b1, 0x2);
    (0x1b2, 0x1b3, 0x1); (0x1b5, 0x1b7, 0x2); (0x1b8, 0x1b8, 0x1); (0x1bc, 0x1bc, 0x1);
    (0x1c4, 0x1c4, 0x1); (0x1c7, 0x1c7, 0x1); (0x1ca, 0x1ca, 0x1); (0x1cd, 0x1db, 0x2);
    (0x1de, 0x1ee, 0x2); (0x1f1, 0x1f1, 0x1); (0x1f4, 0x1f6, 0x2); (0x1f7, 0x1f8, 0x1);
    (0x1fa, 0x232, 0x2); (0x23a, 0x23b, 0x1); (0x23d, 0x23e, 0x1); (0x241, 0x243, 0x2);
    (0x244, 0x246, 0x1); (0x248, 0x24e, 0x2); (0x370, 0x372, 0x2); (0x376, 0x376, 0x1);
    (0x37f, 0x37f, 0x1); (0x386, 0x388, 0x2); (0x389, 0x38a, 0x1); (0x38c, 0x38e, 0x2);
    (0x38f, 0x391, 0x2); (0x392, 0x3a1, 0x1); (0x3a3, 0x3ab, 0x1); (0x3cf, 0x3cf, 0x1);
    (0x3d2, 0x3d4, 0x1); (0x3d8, 0x3ee, 0x2); (0x3f4, 0x3f4, 0x1); (0x3f7, 0x3f9, 0x2);
    (0x3fa, 0x3fa, 0x1); (0x3fd, 0x42f, 0x1); (0x460, 0x480, 0x2); (0x48a, 0x4c0, 0x2);
    (0x4c1, 0x4cd, 0x2); (0x4d0, 0x52e, 0x2); (0x531, 0x556, 0x1);
    (0x10a0, 0x10c5, 0x1); (0x10c7, 0x10c7, 0x1); (0x10cd, 0x10cd, 0x1);
    (0x13a0, 0x13f5, 0x1); (0x1c90, 0x1cba, 0x1); (0x1cbd, 0x1cbf, 0x1);
    (0x1e00, 0x1e94, 0x2); (0x1e9e, 0x1efe, 0x2); (0x1f08, 0x1f0f, 0x1);
    (0x1f18, 0x1f1d, 0x1); (0x1f28, 0x1f2f, 0x1); (0x1f38, 0x1f3f, 0x1);
    (0x1f48, 0x1f4d, 0x1); (0x1f59, 0x1f5f, 0x2); (0x1f68, 0x1f6f, 0x1);
    (0x1fb8, 0x1fbb, 0x1); (0x1fc8, 0x1fcb, 0x1); (0x1fd8, 0x1fdb, 0x1);
    (0x1fe8, 0x1fec, 0x1); (0x1ff8, 0x1ffb, 0x1); (0x2102, 0x2102, 0x1);
    (0x2107, 0x2107, 0x1); (0x210b, 0x210d, 0x1); (0x2110, 0x2112, 0x1);
    (0x2115, 0x2115, 0x1); (0x2119, 0x211d, 0x1); (0x2124, 0x212a, 0x2);
    (0x212b, 0x212d, 0x1); (0x2130, 0x2133, 0x1); (0x213e, 0x213f, 0x1);
    (0x2145, 0x2145, 0x1); (0x2183, 0x2183, 0x1); (0x2c00, 0x2c2f, 0x1);
    (0x2c60, 0x2c62, 0x2); (0x2c63, 0x2c64, 0x1); (0x2c67, 0x2c6d, 0x2);
    (0x2c6e, 0x2c70, 0x1); (0x2c72, 0x2c72, 0x1); (0x2c75, 0x2c75, 0x1);
    (0x2c7e, 0x2c80, 0x1); (0x2c82, 0x2ce2, 0x2); (0x2ceb, 0x2ced, 0x2);
    (0x2cf2, 0x2cf2, 0x1); (0xa640, 0xa66c, 0x2); (0xa680, 0xa69a, 0x2);
    (0xa722, 0xa72e, 0x2); (0xa732, 0xa76e, 0x2); (0xa779, 0xa77d, 0x2);
    (0xa77e, 0xa786, 0x2); (0xa78b, 0xa78d, 0x2); (0xa790, 0xa792, 0x2);
    (0xa796, 0xa7aa, 0x2); (0xa7ab, 0xa7ae, 0x1); (0xa7b0, 0xa7b4, 0x1);
    (0xa7b6, 0xa7c4, 0x2); (0xa7c5, 0xa7c7, 0x1); (0xa7c9, 0xa7c9, 0x1);
    (0xa7d0, 0xa7d0, 0x1); (0xa7d6, 0xa7d8, 0x2); (0xa7f5, 0xa7f5, 0x1);
    (0xff21, 0xff3a, 0x1); (0x10400, 0x10427, 0x1); (0x104b0, 0x104d3, 0x1);
    (0x10570, 0x1057a, 0x1); (0x1057c, 0x1058a, 0x1); (0x1058c, 0x10592, 0x1);
    (0x10594, 0x10595, 0x1); (0x10c80, 0x10cb2, 0x1); (0x118a0, 0x118bf, 0x1);
    (0x16e40, 0x16e5f, 0x1); (0x1d400, 0x1d419, 0x1); (0x1d434, 0x1d44d, 0x1);
    (0x1d468, 0x1d481, 0x1); (0x1d49c, 0x1d49e, 0x2); (0x1d49f, 0x1d49f, 0x1);
    (0x1d4a2, 0x1d4a2, 0x1); (0x1d4a5, 0x1d4a6, 0x1); (0x1d4a9, 0x1d4ac, 0x1);
    (0x1d4ae, 0x1d4b5, 0x1); (0x1d4d0, 0x1d4e9, 0x1); (0x1d504, 0x1d505, 0x1);
    (0x1d507, 0x1d50a, 0x1); (0x1d50d, 0x1d514, 0x1); (0x1d516, 0x1d51c, 0x1);
    (0x1d538, 0x1d539, 0x1); (0x1d53b, 0x1d53e, 0x1); (0x1d540, 0x1d544, 0x1);
    (0x1d546, 0x1d546, 0x1); (0x1d54a, 0x1d550, 0x1); (0x1d56c, 0x1d585, 0x1);
    (0x1d5a0, 0x1d5b9, 0x1); (0x1d5d4, 0x1d5ed, 0x1); (0x1d608, 0x1d621, 0x1);
    (0x1d63c, 0x1d655, 0x1); (0x1d670, 0x1d689, 0x1); (0x1d6a8, 0x1d6c0, 0x1);
    (0x1d6e2, 0x1d6fa, 0x1); (0x1d71c, 0x1d734, 0x1); (0x1d756, 0x1d76e, 0x1);
    (0x1d790, 0x1d7a8, 0x1); (0x1d7ca, 0x1d7ca, 0x1); (0x1e900, 0x1e921, 0x1)
  ].

Definition isUppercaseLetter (cp : N) : bool := member uppercaseLetters cp.

(** The code points that are Cased and not Case_Ignorable. *)
Definition casedLetters : list (N * N * N) :=
  [
    (0x41, 0x5a, 0x1); (0x61, 0x7a, 0x1); (0xaa, 0xaa, 0x1); (0xb5, 0xb5, 0x1);
    (0xba, 0xba, 0x1); (0xc0, 0xd6, 0x1); (0xd8, 0xf6, 0x1); (0xf8, 0x1ba, 0x1);
    (0x1bc, 0x1bf, 0x1); (0x1c4, 0x293, 0x1); (0x295, 0x2af, 0x1); (0x370, 0x373, 0x1);
    (0x376, 0x377, 0x1); (0x37b, 0x37d, 0x1); (0x37f, 0x37f, 0x1); (0x386, 0x388, 0x2);
    (0x389, 0x38a, 0x1); (0x38c, 0x38e, 0x2); (0x38f, 0x3a1, 0x1); (0x3a3, 0x3f5, 0x1);
    (0x3f7, 0x481, 0x1); (0x48a, 0x52f, 0x1); (0x531, 0x556, 0x1); (0x560, 0x588, 0x1);
    (0x10a0, 0x10c5, 0x1); (0x10c7, 0x10c7, 0x1); (0x10cd, 0x10cd, 0x1);
    (0x10d0, 0x10fa, 0x1); (0x10fd, 0x10ff, 0x1); (0x13a0, 0x13f5, 0x1);
    (0x13f8, 0x13fd, 0x1); (0x1c80, 0x1c88, 0x1); (0x1c90, 0x1cba, 0x1);
    (0x1cbd, 0x1cbf, 0x1); (0x1d00, 0x1d2b, 0x1); (0x1d6b, 0x1d77, 0x1);
    (0x1d79, 0x1d9a, 0x1); (0x1e00, 0x1f15, 0x1); (0x1f18, 0x1f1d, 0x1);
    (0x1f20, 0x1f45, 0x1); (0x1f48, 0x1f4d, 0x1); (0x1f50, 0x1f57, 0x1);
    (0x1f59, 0x1f5f, 0x2); (0x1f60, 0x1f7d, 0x1); (0x1f80, 0x1fb4, 0x1);
    (0x1fb6, 0x1fbc, 0x1); (0x1fbe, 0x1fbe, 0x1); (0x1fc2, 0x1fc4, 0x1);
    (0x1fc6, 0x1fcc, 0x1); (0x1fd0, 0x1fd3, 0x1); (0x1fd6, 0x1fdb, 0x1);
    (0x1fe0, 0x1fec, 0x1); (0x1ff2, 0x1ff4, 0x1); (0x1ff6, 0x1ffc, 0x1);
    (0x2102, 0x2102, 0x1); (0x2107, 0x2107, 0x1); (0x210a, 0x2113, 0x1);
    (0x2115, 0x2115, 0x1); (0x2119, 0x211d, 0x1); (0x2124, 0x212a, 0x2);
    (0x212b, 0x212d, 0x1); (0x212f, 0x2134, 0x1); (0x2139, 0x2139, 0x1);
    (0x213c, 0x213f, 0x1); (0x2145, 0x2149, 0x1); (0x214e, 0x214e, 0x1);
    (0x2160, 0x217f, 0x1); (0x2183, 0x2184, 0x1); (0x24b6, 0x24e9, 0x1);
    (0x2c00, 0x2c7b, 0x1); (0x2c7e, 0x2ce4, 0x1); (0x2ceb, 0x2cee, 0x1);
    (0x2cf2, 0x2cf3, 0x1); (0x2d00, 0x2d25, 0x1); (0x2d27, 0x2d27, 0x1);
    (0x2d2d, 0x2d2d, 0x1); (0xa640, 0xa66d, 0x1); (0xa680, 0xa69b, 0x1);
    (0xa722, 0xa76f, 0x1); (0xa771, 0xa787, 0x1); (0xa78b, 0xa78e, 0x1);
    (0xa790, 0xa7ca, 0x1); (0xa7d0, 0xa7d1, 0x1); (0xa7d3, 0xa7d5, 0x2);
    (0xa7d6, 0xa7d9, 0x1); (0xa7f5, 0xa7f6, 0x1); (0xa7fa, 0xa7fa, 0x1);
    (0xab30, 0xab5a, 0x1); (0xab60, 0xab68, 0x1); (0xab70, 0xabbf, 0x1);
    (0xfb00, 0xfb06, 0x1); (0xfb13, 0xfb17, 0x1); (0xff21, 0xff3a, 0x1);
    (0xff41, 0xff5a, 0x1); (0x10400, 0x1044f, 0x1); (0x104b0, 0x104d3, 0x1);
    (0x104d8, 0x104fb, 0x1); (0x10570, 0x1057a, 0x1); (0x1057c, 0x1058a, 0x1);
    (0x1058c, 0x10592, 0x1); (0x10594, 0x10595, 0x1); (0x10597, 0x105a1, 0x1);
    (0x105a3, 0x105b1, 0x1); (0x105b3, 0x105b9, 0x1); (0x105bb, 0x105bc, 0x1);
    (0x10c80, 0x10cb2, 0x1); (0x10cc0, 0x10cf2, 0x1); (0x118a0, 0x118df, 0x1);
    (0x16e40, 0x16e7f, 0x1); (0x1d400, 0x1d454, 0x1); (0x1d456, 0x1d49c, 0x1);
    (0x1d49e, 0x1d49f, 0x1); (0x1d4a2, 0x1d4a2, 0x1); (0x1d4a5, 0x1d4a6, 0x1);
    (0x1d4a9, 0x1d4ac, 0x1); (0x1d4ae, 0x1d4b9, 0x1); (0x1d4bb, 0x1d4bd, 0x2);
    (0x1d4be, 0x1d4c3, 0x1); (0x1d4c5, 0x1d505, 0x1); (0x1d507, 0x1d50a, 0x1);
    (0x1d50d, 0x1d514, 0x1); (0x1d516, 0x1d51c, 0x1); (0x1d51e, 0x1d539, 0x1);
    (0x1d53b, 0x1d53e, 0x1); (0x1d540, 0x1d544, 0x1); (0x1d546, 0x1d546, 0x1);
    (0x1d54a, 0x1d550, 0x1); (0x1d552, 0x1d6a5, 0x1); (0x1d6a8, 0x1d6c0, 0x1);
    (0x1d6c2, 0x1d6da, 0x1); (0x1d6dc, 0x1d6fa, 0x1); (0x1d6fc, 0x1d714, 0x1);
    (0x1d716, 0x1d734, 0x1); (0x1d736, 0x1d74e, 0x1); (0x1d750, 0x1d76e, 0x1);
    (0x1d770, 0x1d788, 0x1); (0x1d78a, 0x1d7a8, 0x1); (0x1d7aa, 0x1d7c2, 0x1);
    (0x1d7c4, 0x1d7cb, 0x1); (0x1df00, 0x1df09, 0x1); (0x1df0b, 0x1df1e, 0x1);
    (0x1e900, 0x1e943, 0x1); (0x1f130, 0x1f149, 0x1); (0x1f150, 0x1f169, 0x1);
    (0x1f170, 0x1f189, 0x1)
  ].

(** The code points that are Case_Ignorable. *)
Definition caseIgnorables : list (N * N * N) :=
  [
    (0x27, 0x27, 0x1); (0x2e, 0x2e, 0x1); (0x3a, 0x3a, 0x1); (0x5e, 0x60, 0x2);
    (0xa8, 0xa8, 0x1); (0xad, 0xaf, 0x2); (0xb4, 0xb4, 0x1); (0xb7, 0xb8, 0x1);
    (0x2b0, 0x36f, 0x1); (0x374, 0x375, 0x1); (0x37a, 0x37a, 0x1); (0x384, 0x385, 0x1);
    (0x387, 0x387, 0x1); (0x483, 0x489, 0x1); (0x559, 0x559, 0x1); (0x55f, 0x55f, 0x1);
    (0x591, 0x5bd, 0x1); (0x5bf, 0x5c1, 0x2); (0x5c2, 0x5c4, 0x2); (0x5c5, 0x5c7, 0x2);
    (0x5f4, 0x5f4, 0x1); (0x600, 0x605, 0x1); (0x610, 0x61a, 0x1); (0x61c, 0x61c, 0x1);
    (0x640, 0x640, 0x1); (0x64b, 0x65f, 0x1); (0x670, 0x670, 0x1); (0x6d6, 0x6dd, 0x1);
    (0x6df, 0x6e8, 0x1); (0x6ea, 0x6ed, 0x1); (0x70f, 0x711, 0x2); (0x730, 0x74a, 0x1);
    (0x7a6, 0x7b0, 0x1); (0x7eb, 0x7f5, 0x1); (0x7fa, 0x7fa, 0x1); (0x7fd, 0x7fd, 0x1);
    (0x816, 0x82d, 0x1); (0x859, 0x85b, 0x1); (0x888, 0x888, 0x1); (0x890, 0x891, 0x1);
    (0x898, 0x89f, 0x1); (0x8c9, 0x902, 0x1); (0x93a, 0x93c, 0x2); (0x941, 0x948, 0x1);
    (0x94d, 0x94d, 0x1); (0x951, 0x957, 0x1); (0x962, 0x963, 0x1); (0x971, 0x971, 0x1);
    (0x981, 0x981, 0x1); (0x9bc, 0x9bc, 0x1); (0x9c1, 0x9c4, 0x1); (0x9cd, 0x9cd, 0x1);
    (0x9e2, 0x9e3, 0x1); (0x9fe, 0x9fe, 0x1); (0xa01, 0xa02, 0x1); (0xa3c, 0xa3c, 0x1);
    (0xa41, 0xa42, 0x1); (0xa47, 0xa48, 0x1); (0xa4b, 0xa4d, 0x1); (0xa51, 0xa51, 0x1);
    (0xa70, 0xa71, 0x1); (0xa75, 0xa75, 0x1); (0xa81, 0xa82, 0x1); (0xabc, 0xabc, 0x1);
    (0xac1, 0xac5, 0x1); (0xac7, 0xac8, 0x1); (0xacd, 0xacd, 0x1); (0xae2, 0xae3, 0x1);
    (0xafa, 0xaff, 0x1); (0xb01, 0xb01, 0x1); (0xb3c, 0xb3c, 0x1); (0xb3f, 0xb41, 0x2);
    (0xb42, 0xb44, 0x1); (0xb4d, 0xb4d, 0x1); (0xb55, 0xb56, 0x1); (0xb62, 0xb63, 0x1);
    (0xb82, 0xb82, 0x1); (0xbc0, 0xbc0, 0x1); (0xbcd, 0xbcd, 0x1); (0xc00, 0xc00, 0x1);
    (0xc04, 0xc04, 0x1); (0xc3c, 0xc3e, 0x2); (0xc3f, 0xc40, 0x1); (0xc46, 0xc48, 0x1);
    (0xc4a, 0xc4d, 0x1); (0xc55, 0xc56, 0x1); (0xc62, 0xc63, 0x1); (0xc81, 0xc81, 0x1);
    (0xcbc, 0xcbc, 0x1); (0xcbf, 0xcbf, 0x1); (0xcc6, 0xcc6, 0x1); (0xccc, 0xccd, 0x1);
    (0xce2, 0xce3, 0x1); (0xd00, 0xd01, 0x1); (0xd3b, 0xd3c, 0x1); (0xd41, 0xd44, 0x1);
    (0xd4d, 0xd4d, 0x1); (0xd62, 0xd63, 0x1); (0xd81, 0xd81, 0x1); (0xdca, 0xdca, 0x1);
    (0xdd2, 0xdd4, 0x1); (0xdd6, 0xdd6, 0x1); (0xe31, 0xe31, 0x1); (0xe34, 0xe3a, 0x1);
    (0xe46, 0xe4e, 0x1); (0xeb1, 0xeb1, 0x1); (0xeb4, 0xebc, 0x1); (0xec6, 0xec8, 0x2);
    (0xec9, 0xecd, 0x1); (0xf18, 0xf19, 0x1); (0xf35, 0xf39, 0x2); (0xf71, 0xf7e, 0x1);
    (0xf80, 0xf84, 0x1); (0xf86, 0xf87, 0x1); (0xf8d, 0xf97, 0x1); (0xf99, 0xfbc, 0x1);
    (0xfc6, 0xfc6, 0x1); (0x102d, 0x1030, 0x1); (0x1032, 0x1037, 0x1);
    (0x1039, 0x103a, 0x1); (0x103d, 0x103e, 0x1); (0x1058, 0x1059, 0x1);
    (0x105e, 0x1060, 0x1); (0x1071, 0x1074, 0x1); (0x1082, 0x1082, 0x1);
    (0x1085, 0x1086, 0x1); (0x108d, 0x108d, 0x1); (0x109d, 0x109d, 0x1);
    (0x10fc, 0x10fc, 0x1); (0x135d, 0x135f, 0x1); (0x1712, 0x1714, 0x1);
    (0x1732, 0x1733, 0x1); (0x1752, 0x1753, 0x1); (0x1772, 0x1773, 0x1);
    (0x17b4, 0x17b5, 0x1); (0x17b7, 0x17bd, 0x1); (0x17c6, 0x17c6, 0x1);
    (0x17c9, 0x17d3, 0x1); (0x17d7, 0x17d7, 0x1); (0x17dd, 0x17dd, 0x1);
    (0x180b, 0x180f, 0x1); (0x1843, 0x1843, 0x1); (0x1885, 0x1886, 0x1);
    (0x18a9, 0x18a9, 0x1); (0x1920, 0x1922, 0x1); (0x1927, 0x1928, 0x1);
    (0x1932, 0x1932, 0x1); (0x1939, 0x193b, 0x1); (0x1a17, 0x1a18, 0x1);
    (0x1a1b, 0x1a1b, 0x1); (0x1a56, 0x1a58, 0x2); (0x1a59, 0x1a5e, 0x1);
    (0x1a60, 0x1a62, 0x2); (0x1a65, 0x1a6c, 0x1); (0x1a73, 0x1a7c, 0x1);
    (0x1a7f, 0x1a7f, 0x1); (0x1aa7, 0x1aa7, 0x1); (0x1ab0, 0x1ace, 0x1);
    (0x1b00, 0x1b03, 0x1); (0x1b34, 0x1b36, 0x2); (0x1b37, 0x1b3a, 0x1);
    (0x1b3c, 0x1b3c, 0x1); (0x1b42, 0x1b42, 0x1); (0x1b6b, 0x1b73, 0x1);
    (0x1b80, 0x1b81, 0x1); (0x1ba2, 0x1ba5, 0x1); (0x1ba8, 0x1ba9, 0x1);
    (0x1bab, 0x1bad, 0x1); (0x1be6, 0x1be8, 0x2); (0x1be9, 0x1be9, 0x1);
    (0x1bed, 0x1bef, 0x2); (0x1bf0, 0x1bf1, 0x1); (0x1c2c, 0x1c33, 0x1);
    (0x1c36, 0x1c37, 0x1); (0x1c78, 0x1c7d, 0x1); (0x1cd0, 0x1cd2, 0x1);
    (0x1cd4, 0x1ce0, 0x1); (0x1ce2, 0x1ce8, 0x1); (0x1ced, 0x1ced, 0x1);
    (0x1cf4, 0x1cf4, 0x1); (0x1cf8, 0x1cf9, 0x1); (0x1d2c, 0x1d6a, 0x1);
    (0x1d78, 0x1d78, 0x1); (0x1d9b, 0x1dff, 0x1); (0x1fbd, 0x1fbf, 0x2);
    (0x1fc0, 0x1fc1, 0x1); (0x1fcd, 0x1fcf, 0x1); (0x1fdd, 0x1fdf, 0x1);
    (0x1fed, 0x1fef, 0x1); (0x1ffd, 0x1ffe, 0x1); (0x200b, 0x200f, 0x1);
    (0x2018, 0x2019, 0x1); (0x2024, 0x2024, 0x1); (0x2027, 0x2027, 0x1);
    (0x202a, 0x202e, 0x1); (0x2060, 0x2064, 0x1); (0x2066, 0x206f, 0x1);
    (0x2071, 0x2071, 0x1); (0x207f, 0x207f, 0x1); (0x2090, 0x209c, 0x1);
    (0x20d0, 0x20f0, 0x1); (0x2c7c, 0x2c7d, 0x1); (0x2cef, 0x2cf1, 0x1);
    (0x2d6f, 0x2d6f, 0x1); (0x2d7f, 0x2d7f, 0x1); (0x2de0, 0x2dff, 0x1);
    (0x2e2f, 0x2e2f, 0x1); (0x3005, 0x3005, 0x1); (0x302a, 0x302d, 0x1);
    (0x3031, 0x3035, 0x1); (0x303b, 0x303b, 0x1); (0x3099, 0x309e, 0x1);
    (0x30fc, 0x30fe, 0x1); (0xa015, 0xa015, 0x1); (0xa4f8, 0xa4fd, 0x1);
    (0xa60c, 0xa60c, 0x1); (0xa66f, 0xa672, 0x1); (0xa674, 0xa67d, 0x1);
    (0xa67f, 0xa67f, 0x1); (0xa69c, 0xa69f, 0x1); (0xa6f0, 0xa6f1, 0x1);
    (0xa700, 0xa721, 0x1); (0xa770, 0xa770, 0x1); (0xa788, 0xa78a, 0x1);
    (0xa7f2, 0xa7f4, 0x1); (0xa7f8, 0xa7f9, 0x1); (0xa802, 0xa802, 0x1);
    (0xa806, 0xa806, 0x1); (0xa80b, 0xa80b, 0x1); (0xa825, 0xa826, 0x1);
    (0xa82c, 0xa82c, 0x1); (0xa8c4, 0xa8c5, 0x1); (0xa8e0, 0xa8f1, 0x1);
    (0xa8ff, 0xa8ff, 0x1); (0xa926, 0xa92d, 0x1); (0xa947, 0xa951, 0x1);
    (0xa980, 0xa982, 0x1); (0xa9b3, 0xa9b3, 0x1); (0xa9b6, 0xa9b9, 0x1);
    (0xa9bc, 0xa9bd, 0x1); (0xa9cf, 0xa9cf, 0x1); (0xa9e5, 0xa9e6, 0x1);
    (0xaa29, 0xaa2e, 0x1); (0xaa31, 0xaa32, 0x1); (0xaa35, 0xaa36, 0x1);
    (0xaa43, 0xaa43, 0x1); (0xaa4c, 0xaa4c, 0x1); (0xaa70, 0xaa70, 0x1);
    (0xaa7c, 0xaa7c, 0x1); (0xaab0, 0xaab2, 0x2); (0xaab3, 0xaab4, 0x1);
    (0xaab7, 0xaab8, 0x1); (0xaabe, 0xaabf, 0x1); (0xaac1, 0xaac1, 0x1);
    (0xaadd, 0xaadd, 0x1); (0xaaec, 0xaaed, 0x1); (0xaaf3, 0xaaf4, 0x1);
    (0xaaf6, 0xaaf6, 0x1); (0xab5b, 0xab5f, 0x1); (0xab69, 0xab6b, 0x1);
    (0xabe5, 0xabe5, 0x1); (0xabe8, 0xabe8, 0x1); (0xabed, 0xabed, 0x1);
    (0xfb1e, 0xfb1e, 0x1); (0xfbb2, 0xfbc2, 0x1); (0xfe00, 0xfe0f, 0x1);
    (0xfe13, 0xfe13, 0x1); (0xfe20, 0xfe2f, 0x1); (0xfe52, 0xfe52, 0x1);
    (0xfe55, 0xfe55, 0x1); (0xfeff, 0xfeff, 0x1); (0xff07, 0xff07, 0x1);
    (0xff0e, 0xff0e, 0x1); (0xff1a, 0xff1a, 0x1); (0xff3e, 0xff40, 0x2);
    (0xff70, 0xff70, 0x1); (0xff9e, 0xff9f, 0x1); (0xffe3, 0xffe3, 0x1);
    (0xfff9, 0xfffb, 0x1); (0x101fd, 0x101fd, 0x1); (0x102e0, 0x102e0, 0x1);
    (0x10376, 0x1037a, 0x1); (0x10780, 0x10785, 0x1); (0x10787, 0x107b0, 0x1);
    (0x107b2, 0x107ba, 0x1); (0x10a01, 0x10a03, 0x1); (0x10a05, 0x10a06, 0x1);
    (0x10a0c, 0x10a0f, 0x1); (0x10a38, 0x10a3a, 0x1); (0x10a3f, 0x10a3f, 0x1);
    (0x10ae5, 0x10ae6, 0x1); (0x10d24, 0x10d27, 0x1); (0x10eab, 0x10eac, 0x1);
    (0x10f46, 0x10f50, 0x1); (0x10f82, 0x10f85, 0x1); (0x11001, 0x11001, 0x1);
    (0x11038, 0x11046, 0x1); (0x11070, 0x11070, 0x1); (0x11073, 0x11074, 0x1);
    (0x1107f, 0x11081, 0x1); (0x110b3, 0x110b6, 0x1); (0x110b9, 0x110ba, 0x1);
    (0x110bd, 0x110bd, 0x1); (0x110c2, 0x110c2, 0x1); (0x110cd, 0x110cd, 0x1);
    (0x11100, 0x11102, 0x1); (0x11127, 0x1112b, 0x1); (0x1112d, 0x11134, 0x1);
    (0x11173, 0x11173, 0x1); (0x11180, 0x11181, 0x1); (0x111b6, 0x111be, 0x1);
    (0x111c9, 0x111cc, 0x1); (0x111cf, 0x111cf, 0x1); (0x1122f, 0x11231, 0x1);
    (0x11234, 0x11236, 0x2); (0x11237, 0x11237, 0x1); (0x1123e, 0x1123e, 0x1);
    (0x112df, 0x112df, 0x1); (0x112e3, 0x112ea, 0x1); (0x11300, 0x11301, 0x1);
    (0x1133b, 0x1133c, 0x1); (0x11340, 0x11340, 0x1); (0x11366, 0x1136c, 0x1);
    (0x11370, 0x11374, 0x1); (0x11438, 0x1143f, 0x1); (0x11442, 0x11444, 0x1);
    (0x11446, 0x11446, 0x1); (0x1145e, 0x1145e, 0x1); (0x114b3, 0x114b8, 0x1);
    (0x114ba, 0x114ba, 0x1); (0x114bf, 0x114c0, 0x1); (0x114c2, 0x114c3, 0x1);
    (0x115b2, 0x115b5, 0x1); (0x115bc, 0x115bd, 0x1); (0x115bf, 0x115c0, 0x1);
    (0x115dc, 0x115dd, 0x1); (0x11633, 0x1163a, 0x1); (0x1163d, 0x1163f, 0x2);
    (0x11640, 0x11640, 0x1); (0x116ab, 0x116ad, 0x2); (0x116b0, 0x116b5, 0x1);
    (0x116b7, 0x116b7, 0x1); (0x1171d, 0x1171f, 0x1); (0x11722, 0x11725, 0x1);
    (0x11727, 0x1172b, 0x1); (0x1182f, 0x11837, 0x1); (0x11839, 0x1183a, 0x1);
    (0x1193b, 0x1193c, 0x1); (0x1193e, 0x1193e, 0x1); (0x11943, 0x11943, 0x1);
    (0x119d4, 0x119d7, 0x1); (0x119da, 0x119db, 0x1); (0x119e0, 0x119e0, 0x1);
    (0x11a01, 0x11a0a, 0x1); (0x11a33, 0x11a38, 0x1); (0x11a3b, 0x11a3e, 0x1);
    (0x11a47, 0x11a47, 0x1); (0x11a51, 0x11a56, 0x1); (0x11a59, 0x11a5b, 0x1);
    (0x11a8a, 0x11a96, 0x1); (0x11a98, 0x11a99, 0x1); (0x11c30, 0x11c36, 0x1);
    (0x11c38, 0x11c3d, 0x1); (0x11c3f, 0x11c3f, 0x1); (0x11c92, 0x11ca7, 0x1);
    (0x11caa, 0x11cb0, 0x1); (0x11cb2, 0x11cb3, 0x1); (0x11cb5, 0x11cb6, 0x1);
    (0x11d31, 0x11d36, 0x1); (0x11d3a, 0x11d3c, 0x2); (0x11d3d, 0x11d3f, 0x2);
    (0x11d40, 0x11d45, 0x1); (0x11d47, 0x11d47, 0x1); (0x11d90, 0x11d91, 0x1);
    (0x11d95, 0x11d97, 0x2); (0x11ef3, 0x11ef4, 0x1); (0x13430, 0x13438, 0x1);
    (0x16af0, 0x16af4, 0x1); (0x16b30, 0x16b36, 0x1); (0x16b40, 0x16b43, 0x1);
    (0x16f4f, 0x16f4f, 0x1); (0x16f8f, 0x16f9f, 0x1); (0x16fe0, 0x16fe1, 0x1);
    (0x16fe3, 0x16fe4, 0x1); (0x1aff0, 0x1aff3, 0x1); (0x1aff5, 0x1affb, 0x1);
    (0x1affd, 0x1affe, 0x1); (0x1bc9d, 0x1bc9e, 0x1); (0x1bca0, 0x1bca3, 0x1);
    (0x1cf00, 0x1cf2d, 0x1); (0x1cf30, 0x1cf46, 0x1); (0x1d167, 0x1d169, 0x1);
    (0x1d173, 0x1d182, 0x1); (0x1d185, 0x1d18b, 0x1); (0x1d1aa, 0x1d1ad, 0x1);
    (0x1d242, 0x1d244, 0x1); (0x1da00, 0x1da36, 0x1); (0x1da3b, 0x1da6c, 0x1);
    (0x1da75, 0x1da75, 0x1); (0x1da84, 0x1da84, 0x1); (0x1da9b, 0x1da9f, 0x1);
    (0x1daa1, 0x1daaf, 0x1); (0x1e000, 0x1e006, 0x1); (0x1e008, 0x1e018, 0x1);
    (0x1e01b, 0x1e021, 0x1); (0x1e023, 0x1e024, 0x1); (0x1e026, 0x1e02a, 0x1);
    (0x1e130, 0x1e13d, 0x1); (0x1e2ae, 0x1e2ae, 0x1); (0x1e2ec, 0x1e2ef, 0x1);
    (0x1e8d0, 0x1e8d6, 0x1); (0x1e944, 0x1e94b, 0x1); (0x1f3fb, 0x1f3ff, 0x1);
    (0xe0001, 0xe0001, 0x1); (0xe0020, 0xe007f, 0x1); (0xe0100, 0xe01ef, 0x1)
  ].

Definition casedLetter (cp : N) : bool := member casedLetters cp.
Definition caseIgnorable (cp : N) : bool := member caseIgnorables cp.

(** The code points of a row, one by one. *)
Fixpoint rowPoints (n : nat) (lo stride : N) : list N :=
  match n with
  | O => []
  | S n' => lo :: rowPoints n' (lo + stride) stride
  end.

Definition points (lo hi stride : N) : list N :=
  rowPoints (N.to_nat ((hi - lo) / stride + 1)) lo stride.

(** The mappings of a table, one by one. *)
Definition mappings (table : list (N * N * N * N)) : list (N * N) :=
  flat_map (fun '(lo, hi, stride, target) =>
              map (fun cp => (cp, target + (cp - lo))) (points lo hi stride))
           table.

End Unicode.

(** ** ECMAScript strings *)

Module JS.

(** A string value is a finite sequence of 16-bit code units. *)
Definition jsstring := list N.

(** A string literal of the source; every literal of the module is ASCII,
    so each character is one code unit. *)
Definition lit (s : string) : jsstring :=
  map N_of_ascii (list_ascii_of_string s).

(** [a === b] on strings. *)
Fixpoint str_eqb (a b : jsstring) : bool :=
  match a, b with
  | [], [] => true
  | x :: a', y :: b' => (x =? y) && str_eqb a' b'
  | _, _ => false
  end.

(** [!s] for a string: only the empty string is falsy. *)
Definition falsy (s : jsstring) : bool :=
  match s with [] => true | _ :: _ => false end.

(** WhiteSpace and LineTerminator code points of ECMAScript: the set that
    both [String.prototype.trim] and the regular expression class [\s]
    use (TAB, LF, VT, FF, CR, SP, NBSP, U+1680, U+2000..U+200A, LS, PS,
    U+202F, U+205F, U+3000, BOM). *)
Definition isWhiteSpace (c : N) : bool :=
  ((9 <=? c) && (c <=? 13)) || (c =? 32) || (c =? 160) || (c =? 5760)
  || ((8192 <=? c) && (c <=? 8202)) || (c =? 8232) || (c =? 8233)
  || (c =? 8239) || (c =? 8287) || (c =? 12288) || (c =? 65279).

(** [s.trimStart()]. *)
Fixpoint trimStart (s : jsstring) : jsstring :=
  match s with
  | [] => []
  | c :: rest => if isWhiteSpace c then trimStart rest else s
  end.

(** [s.trimEnd()]: a code unit is kept unless it and everything after it
    is white space. *)
Fixpoint trimEnd (s : jsstring) : jsstring :=
  match s with
  | [] => []
  | c :: rest =>
      match trimEnd rest with
      | [] => if isWhiteSpace c then [] else [c]
      | kept => c :: kept
      end
  end.

(** [s.trim()]. *)
Definition trim (s : jsstring) : jsstring := trimEnd (trimStart s).

(** [s.split(/\s+/)].  The separator matches a maximal run of white space;
    the piece before each run is emitted (empty when the run is at the very
    start), and the piece after the last run is emitted at the end (empty
    when the string ends with a run, and the only piece when the string is
    empty).  [inSep] records that the previous code unit belonged to the
    run being skipped. *)
Fixpoint split_from (inSep : bool) (s : jsstring) : list jsstring :=
  match s with
  | [] => [[]]
  | c :: rest =>
      if isWhiteSpace c then
        if inSep then split_from true rest else [] :: split_from true rest
      else
        match split_from false rest with
        | piece :: pieces => (c :: piece) :: pieces
        | [] => [[c]]
        end
  end.

Definition split_ws (s : jsstring) : list jsstring := split_from false s.

(** [s.startsWith(p)]. *)
Fixpoint startsWith (s p : jsstring) : bool :=
  match p, s with
  | [], _ => true
  | y :: p', x :: s' => (x =? y) && startsWith s' p'
  | _ :: _, [] => false
  end.

(** The white-space separated tokens of a string, in the words of the
    specification: the maximal runs of code units that are not white
    space.  A string that is empty or all white space has none. *)
Fixpoint tokens (s : jsstring) : list jsstring :=
  match s with
  | [] => []
  | c :: rest =>
      if isWhiteSpace c then tokens rest
      else
        match rest with
        | [] => [[c]]
        | d :: _ =>
            if isWhiteSpace d then [c] :: tokens rest
            else
              match tokens rest with
              | t :: ts => (c :: t) :: ts
              | [] => [[c]]
              end
        end
  end.

(** Surrogate code units: U+D800..U+DBFF lead, U+DC00..U+DFFF trail. *)
Definition isHighSurrogate (c : N) : bool := (55296 <=? c) && (c <=? 56319).
Definition isLowSurrogate (c : N) : bool := (56320 <=? c) && (c <=? 57343).

(** The UTF-16 code units of a code point. *)
Definition utf16_of_code_point (cp : N) : jsstring :=
  if cp <? 65536 then [cp]
  else [55296 + (cp - 65536) / 1024; 56320 + (cp - 65536) mod 1024].

(** A well-formed string: 16-bit code units, every surrogate in a pair. *)
Fixpoint wellFormed (s : jsstring) : bool :=
  match s with
  | [] => true
  | c :: rest =>
      if isHighSurrogate c then
        match rest with
        | d :: rest' => isLowSurrogate d && wellFormed rest'
        | [] => false
        end
      else (c <? 65536) && negb (isLowSurrogate c) && wellFormed rest
  end.

(** No code unit of [s] is white space. *)
Definition wsfree (s : jsstring) : Prop := Forall (fun c => isWhiteSpace c = false) s.

(** The last code unit of [s] is white space. *)
Fixpoint endsWithWS (s : jsstring) : bool :=
  match s with
  | [] => false
  | c :: rest =>
      match rest with
      | [] => isWhiteSpace c
      | _ :: _ => endsWithWS rest
      end
  end.

(** The first code unit of [s], if any, is not white space. *)
Definition startsClean (s : jsstring) : Prop :=
  match s with
  | [] => True
  | c :: _ => isWhiteSpace c = false
  end.

(** [StringToCodePoints(s)]: a lead surrogate followed by a trail
    surrogate is one code point, any other code unit is one by itself. *)
Fixpoint StringToCodePoints (s : jsstring) : list N :=
  match s with
  | [] => []
  | c :: rest =>
      match rest with
      | d :: rest' =>
          if isHighSurrogate c && isLowSurrogate d
          then (65536 + (c - 55296) * 1024 + (d - 56320)) :: StringToCodePoints rest'
          else c :: StringToCodePoints rest
      | [] => [c]
      end
  end.

(** [CodePointsToString(cps)]. *)
Definition CodePointsToString (cps : list N) : jsstring :=
  flat_map utf16_of_code_point cps.

(** The condition Final_Sigma of SpecialCasing.txt, after the capital
    sigma: case-ignorable code points skipped, a cased letter comes
    next. *)
Fixpoint followedByCased (cps : list N) : bool :=
  match cps with
  | [] => false
  | cp :: rest =>
      if Unicode.caseIgnorable cp then followedByCased rest
      else Unicode.casedLetter cp
  end.

(** The condition Final_Sigma before the capital sigma, carried along
    the string: [before] says that a cased letter and then
    case-ignorable code points only come before [cp]; the result says
    the same of the code point after [cp]. *)
Definition precededByCased (before : bool) (cp : N) : bool :=
  if Unicode.caseIgnorable cp then before else Unicode.casedLetter cp.

(** The lower-case form of one code point.  SpecialCasing.txt has two
    entries that do not depend on the language: the capital sigma
    U+03A3 becomes the final sigma U+03C2 at the end of a word and the
    sigma U+03C3 elsewhere, and U+0130, the capital I with a dot above,
    becomes an i and a combining dot.  Any other code point has its
    simple mapping. *)
Definition lowerPoint (finalSigma : bool) (cp : N) : list N :=
  if cp =? 0x3A3 then [if finalSigma then 0x3C2 else 0x3C3]
  else if cp =? 0x130 then [0x69; 0x307]
  else [Unicode.simpleLower cp].

(** [toLowercase] of the Unicode Default Case Conversion algorithm. *)
Fixpoint toLowercase (before : bool) (cps : list N) : list N :=
  match cps with
  | [] => []
  | cp :: rest =>
      lowerPoint (before && negb (followedByCased rest)) cp
      ++ toLowercase (precededByCased before cp) rest
  end.

(** The first code point is not a trail surrogate. *)
Definition headNotLow (cps : list N) : Prop :=
  match cps with
  | [] => True
  | cp :: _ => isLowSurrogate cp = false
  end.

(** Code points as [StringToCodePoints] yields them: below U+110000, and
    no lead surrogate right before a trail surrogate. *)
Fixpoint paired (cps : list N) : Prop :=
  match cps with
  | [] => True
  | cp :: rest =>
      cp < 0x110000 /\ (isHighSurrogate cp = true -> headNotLow rest) /\ paired rest
  end.

(** A code point that lower-casing changes. *)
Definition hasLowerCase (cp : N) : bool :=
  negb (Unicode.simpleLower cp =? cp) || (cp =? 0x130).

End JS.
Import JS.

(** ** Exceptions *)

(** A JavaScript computation either completes with a value or throws. *)
Inductive Exn : Type := RangeError | TypeError | OtherError.

Inductive Result (A : Type) : Type :=
| Ok (a : A)
| Throw (e : Exn).
Arguments Ok {A} a.
Arguments Throw {A} e.

Definition bind {A B : Type} (m : Result A) (k : A -> Result B) : Result B :=
  match m with
  | Ok a => k a
  | Throw e => Throw e
  end.

Notation "x <- m ;; k" := (bind m (fun x => k))
  (at level 61, m at next level, right associativity).

(** [try { body } catch { return handler; }]. *)
Definition try_catch {A : Type} (body : Result A) (handler : A) : A :=
  match body with
  | Ok a => a
  | Throw _ => handler
  end.

(** ** Buffers *)

Module Node.

(** A [Buffer] is a sequence of bytes. *)
Definition Buffer := list N.

(** UTF-8 encoding of one code point. *)
Definition utf8_of_code_point (cp : N) : Buffer :=
  if cp <? 128 then [cp]
  else if cp <? 2048 then [192 + cp / 64; 128 + cp mod 64]
  else if cp <? 65536 then
    [224 + cp / 4096; 128 + (cp / 64) mod 64; 128 + cp mod 64]
  else
    [240 + cp / 262144; 128 + (cp / 4096) mod 64;
     128 + (cp / 64) mod 64; 128 + cp mod 64].

(** U+FFFD, which replaces a surrogate that has no partner. *)
Definition replacement : Buffer := [239; 191; 189].

(** The bytes of [Buffer.from(s)] (encoding "utf8", the default): a
    surrogate pair is one code point of four bytes, a lone surrogate is
    replaced by U+FFFD. *)
Fixpoint utf8_encode (s : jsstring) : Buffer :=
  match s with
  | [] => []
  | c :: rest =>
      if isHighSurrogate c then
        match rest with
        | d :: rest' =>
            if isLowSurrogate d then
              utf8_of_code_point (65536 + (c - 55296) * 1024 + (d - 56320))
                ++ utf8_encode rest'
            else replacement ++ utf8_encode rest
        | [] => replacement
        end
      else if isLowSurrogate c then replacement ++ utf8_encode rest
      else utf8_of_code_point c ++ utf8_encode rest
  end.

(** [Buffer.from(s)] never throws on a string. *)
Definition Buffer_from (s : jsstring) : Result Buffer := Ok (utf8_encode s).

(** The accumulator of a constant-time comparison: the OR of the XOR of
    every pair of bytes; no pair is skipped. *)
Definition xor_fold (a b : Buffer) : N :=
  fold_left (fun acc xy => N.lor acc (N.lxor (fst xy) (snd xy))) (combine a b) 0.

(** [crypto.timingSafeEqual(a, b)]: throws a RangeError when the byte
    lengths differ, and otherwise says whether every byte agrees. *)
Definition timingSafeEqual (a b : Buffer) : Result bool :=
  if Nat.eqb (length a) (length b) then Ok (xor_fold a b =? 0)
  else Throw RangeError.

(** [s.toLowerCase()]: the code points of the string, lower-cased by the
    Unicode Default Case Conversion algorithm, as a string again. *)
Definition toLowerCase (s : jsstring) : jsstring :=
  CodePointsToString (toLowercase false (StringToCodePoints s)).

End Node.

(** ** The runtime and the configuration the middleware runs against *)

(** The built-ins the module calls.  [toLowerCase] is
    [String.prototype.toLowerCase]; [Buffer_from] and [timingSafeEqual]
    may throw, so that the [try]/[catch] of [compareTokens] has something
    to catch;
    [Date_toISOString n] is the text of the [n]-th
    [new Date().toISOString()] of a run. *)
Class Runtime : Type := {
  toLowerCase : jsstring -> jsstring;
  Buffer_from : jsstring -> Result Node.Buffer;
  timingSafeEqual : Node.Buffer -> Node.Buffer -> Result bool;
  Date_toISOString : nat -> jsstring
}.

(** Node's buffers: [Buffer.from] encodes in UTF-8 and does not throw;
    [crypto.timingSafeEqual] is as documented. *)
Class NodeBuffers (R : Runtime) : Prop := {
  Buffer_from_utf8 : forall s, Buffer_from s = Ok (Node.utf8_encode s);
  timingSafeEqual_node : forall a b, timingSafeEqual a b = Node.timingSafeEqual a b
}.

(** The module constant [EXEMPTED_PATHS] and the two readers imported from
    config/env.js.  The constant is empty in the source ([EXEMPTED_PATHS_src]);
    it is a field here so that the matching rule can be stated for any set. *)
Class Settings : Type := {
  EXEMPTED_PATHS : list jsstring;
  getBearerTokens : list jsstring;
  getLogSecurityEvents : bool
}.

Definition EXEMPTED_PATHS_src : list jsstring := [].

(** ** src/types/middleware.ts *)

Record ParsedAuthHeader : Type := {
  scheme : jsstring;
  token : jsstring
}.

(** The union of string literals of [BearerAuthResult.error]. *)
Inductive AuthError : Type :=
| MissingAuthorization
| InvalidScheme
| InvalidToken
| MalformedHeader.

Definition AuthError_text (e : AuthError) : jsstring :=
  match e with
  | MissingAuthorization => lit "Missing authorization"
  | InvalidScheme => lit "Invalid scheme"
  | InvalidToken => lit "Invalid token"
  | MalformedHeader => lit "Malformed header"
  end.

(** Optional fields are [None] when the object literal leaves them out. *)
Record BearerAuthResult : Type := {
  success : bool;
  exempted : option bool;
  error : option AuthError;
  message : option jsstring
}.

(** ** src/middleware/bearerAuth.ts *)

Section BearerAuth.

Context {R : Runtime} {E : Settings}.

Definition parseAuthorizationHeader (authHeader : jsstring) : option ParsedAuthHeader :=
  let trimmed := trim authHeader in
  let parts := split_ws trimmed in
  if negb (Nat.eqb (length parts) 2) then None
  else
    match nth_error parts 0, nth_error parts 1 with
    | Some scheme, Some token =>
        if falsy scheme || falsy token then None
        else Some {| scheme := toLowerCase scheme; token := trim token |}
    | _, _ => None
    end.

(** The body of the [try] block of [compareTokens]. *)
Definition compareTokens_try (providedToken validToken : jsstring) : Result bool :=
  providedBuffer <- Buffer_from providedToken ;;
  validBuffer <- Buffer_from validToken ;;
  if negb (Nat.eqb (length providedBuffer) (length validBuffer)) then Ok false
  else timingSafeEqual providedBuffer validBuffer.

Definition compareTokens (providedToken validToken : jsstring) : bool :=
  try_catch (compareTokens_try providedToken validToken) false.

(** The [for ... of] loop of [isValidToken], which returns at the first
    match. *)
Fixpoint isValidToken_loop (token : jsstring) (validTokens : list jsstring) : bool :=
  match validTokens with
  | [] => false
  | validToken :: rest =>
      if compareTokens token validToken then true
      else isValidToken_loop token rest
  end.

Definition isValidToken (token : jsstring) : bool :=
  let validTokens := getBearerTokens in
  isValidToken_loop token validTokens.

Definition isExemptedPath (path : jsstring) : bool :=
  existsb
    (fun exemptedPath =>
       str_eqb path exemptedPath || startsWith path (exemptedPath ++ lit "/"))
    EXEMPTED_PATHS.

Definition validateBearerAuth (authHeader : option jsstring) (path : jsstring)
  : BearerAuthResult :=
  if isExemptedPath path then
    {| success := true; exempted := Some true; error := None; message := None |}
  else
    match authHeader with
    | None =>
        {| success := false; exempted := None;
           error := Some MissingAuthorization;
           message := Some (lit "Authorization header is required. Format: Authorization: Bearer <token>") |}
    | Some authHeader =>
        if falsy authHeader || str_eqb (trim authHeader) (lit "") then
          {| success := false; exempted := None;
             error := Some MissingAuthorization;
             message := Some (lit "Authorization header is required. Format: Authorization: Bearer <token>") |}
        else
          match parseAuthorizationHeader authHeader with
          | None =>
              {| success := false; exempted := None;
                 error := Some MalformedHeader;
                 message := Some (lit "Malformed Authorization header. Format: Authorization: Bearer <token>") |}
          | Some parsed =>
              if negb (str_eqb (scheme parsed) (lit "bearer")) then
                {| success := false; exempted := None;
                   error := Some InvalidScheme;
                   message := Some (lit "Authorization header must use Bearer scheme. Format: Authorization: Bearer <token>") |}
              else if falsy (token parsed) || str_eqb (token parsed) (lit "") then
                {| success := false; exempted := None;
                   error := Some MalformedHeader;
                   message := Some (lit "Bearer token cannot be empty. Format: Authorization: Bearer <token>") |}
              else if negb (isValidToken (token parsed)) then
                {| success := false; exempted := None;
                   error := Some InvalidToken;
                   message := Some (lit "Invalid Bearer token. Please check your authentication credentials.") |}
              else
                {| success := true; exempted := None; error := None; message := None |}
          end
    end.

(** *** The Express objects the middleware touches *)

(** The values the middleware puts in object literals. *)
Inductive JsValue : Type :=
| VUndefined
| VBool (b : bool)
| VString (s : jsstring).

(** An object literal: its properties in the order they are written. *)
Definition JsObject := list (jsstring * JsValue).

Definition of_string_opt (v : option jsstring) : JsValue :=
  match v with
  | Some s => VString s
  | None => VUndefined
  end.

Definition of_error_opt (v : option AuthError) : JsValue :=
  match v with
  | Some e => VString (AuthError_text e)
  | None => VUndefined
  end.

(** [req]: [req.get(name)], [req.path], [req.ip] and
    [req.connection.remoteAddress]. *)
Record Request : Type := {
  req_get : jsstring -> option jsstring;
  req_path : jsstring;
  req_ip : option jsstring;
  req_remoteAddress : option jsstring
}.

(** What a call of the middleware can change: the number of [Date]
    objects created so far, the calls of [console.warn], the status set
    by [res.status], the object passed to [res.json], and the number of
    calls of [next]. *)
Record World : Type := {
  dates : nat;
  console : list (jsstring * JsObject);
  statusCode : option N;
  body : option JsObject;
  nextCalls : nat
}.

Definition new_Date_toISOString (w : World) : jsstring * World :=
  (Date_toISOString (dates w),
   {| dates := S (dates w); console := console w;
      statusCode := statusCode w; body := body w; nextCalls := nextCalls w |}).

Definition console_warn (text : jsstring) (obj : JsObject) (w : World) : World :=
  {| dates := dates w; console := console w ++ [(text, obj)];
     statusCode := statusCode w; body := body w; nextCalls := nextCalls w |}.

Definition res_status (code : N) (w : World) : World :=
  {| dates := dates w; console := console w;
     statusCode := Some code; body := body w; nextCalls := nextCalls w |}.

Definition res_json (obj : JsObject) (w : World) : World :=
  {| dates := dates w; console := console w;
     statusCode := statusCode w; body := Some obj; nextCalls := nextCalls w |}.

Definition next (w : World) : World :=
  {| dates := dates w; console := console w;
     statusCode := statusCode w; body := body w;
     nextCalls := S (nextCalls w) |}.

Definition logAuthenticationFailure (event : jsstring) (details : JsObject)
  (w : World) : World :=
  if getLogSecurityEvents then
    let (timestamp, w1) := new_Date_toISOString w in
    console_warn (lit "[SECURITY] " ++ event)
      ((lit "timestamp", VString timestamp) :: details) w1
  else w.

(** [a || b || "unknown"] on strings that may be undefined. *)
Definition getClientIP (req : Request) : jsstring :=
  match req_ip req with
  | Some ((_ :: _) as ip) => ip
  | _ =>
      match req_remoteAddress req with
      | Some ((_ :: _) as remoteAddress) => remoteAddress
      | _ => lit "unknown"
      end
  end.

Definition bearerAuth (req : Request) (w : World) : World :=
  let authHeader := req_get req (lit "Authorization") in
  let result := validateBearerAuth authHeader (req_path req) in
  if negb (success result) then
    let w1 :=
      logAuthenticationFailure (lit "Authentication failed")
        [(lit "error", of_error_opt (error result));
         (lit "path", VString (req_path req));
         (lit "clientIp", VString (getClientIP req));
         (lit "userAgent", of_string_opt (req_get req (lit "User-Agent")))] w in
    let w2 := res_status 401 w1 in
    let (timestamp, w3) := new_Date_toISOString w2 in
    res_json
      [(lit "success", VBool false);
       (lit "error", of_error_opt (error result));
       (lit "message", of_string_opt (message result));
       (lit "timestamp", VString timestamp)] w3
  else next w.

End BearerAuth.

(** ** A concrete runtime and deployment *)

(** The clock of the examples: the [n]-th reading of a run is made [n]
    milliseconds after midnight, so that successive readings give
    different texts. *)
Definition clock (n : nat) : jsstring :=
  let ms := N.of_nat n in
  lit "2026-01-01T00:00:00."
  ++ [48 + ms / 100 mod 10; 48 + ms / 10 mod 10; 48 + ms mod 10]
  ++ lit "Z".

Definition nodeRuntime : Runtime :=
  {| toLowerCase := Node.toLowerCase;
     Buffer_from := Node.Buffer_from;
     timingSafeEqual := Node.timingSafeEqual;
     Date_toISOString := clock |}.

(** The source's deployment: no exempted path, tokens from the
    environment. *)
Definition deployment (validTokens : list jsstring) (logging : bool) : Settings :=
  {| EXEMPTED_PATHS := EXEMPTED_PATHS_src;
     getBearerTokens := validTokens;
     getLogSecurityEvents := logging |}.

(** The deployment the doc comments of the source describe, with the
    health check exempted. *)
Definition healthExempted (validTokens : list jsstring) : Settings :=
  {| EXEMPTED_PATHS := [lit "/api/health"];
     getBearerTokens := validTokens;
     getLogSecurityEvents := false |}.

Definition request (authorization : option jsstring) (path : jsstring) : Request :=
  {| req_get := fun name =>
       if str_eqb name (lit "Authorization") then authorization else None;
     req_path := path;
     req_ip := Some (lit "127.0.0.1");
     req_remoteAddress := None |}.

Definition idle : World :=
  {| dates := 0; console := []; statusCode := None; body := None; nextCalls := 0 |}.

(** A runtime whose [Buffer.from] always throws and whose
    [timingSafeEqual], were it reached, would throw too. *)
Definition faultyRuntime : Runtime :=
  {| toLowerCase := Node.toLowerCase;
     Buffer_from := fun _ => Throw TypeError;
     timingSafeEqual := fun _ _ => Throw OtherError;
     Date_toISOString := clock |}.

(** A runtime that builds buffers but whose comparison primitive throws. *)
Definition faultyCompare : Runtime :=
  {| toLowerCase := Node.toLowerCase;
     Buffer_from := Node.Buffer_from;
     timingSafeEqual := fun _ _ => Throw OtherError;
     Date_toISOString := clock |}.

(** ** Outcomes of the decision *)

(** [result] is the failure with code [e]. *)
Definition failure (result : BearerAuthResult) (e : AuthError) : Prop :=
  success result = false /\ error result = Some e.

Definition plain_success : BearerAuthResult :=
  {| success := true; exempted := None; error := None; message := None |}.

Definition exempted_success : BearerAuthResult :=
  {| success := true; exempted := Some true; error := None; message := None |}.

(** The terminal states of the decision function, as the specification
    lists them. *)
Inductive Decision : Type :=
| ExemptedSuccess
| Success
| Failure (e : AuthError).

(** The state a result record stands for. *)
Definition outcome (result : BearerAuthResult) : option Decision :=
  match success result, exempted result, error result with
  | true, Some true, None => Some ExemptedSuccess
  | true, None, None => Some Success
  | false, None, Some e => Some (Failure e)
  | _, _, _ => None
  end.

(** The transition logic in the words of the specification: seven steps,
    the first that applies decides. *)
Definition transition {R : Runtime} {E : Settings}
  (authHeader : option jsstring) (path : jsstring) : Decision :=
  if isExemptedPath path then ExemptedSuccess
  else
    match authHeader with
    | None => Failure MissingAuthorization
    | Some h =>
        if falsy (trim h) then Failure MissingAuthorization
        else
          match tokens h with
          | [first; second] =>
              if negb (str_eqb (toLowerCase first) (lit "bearer")) then
                Failure InvalidScheme
              else if falsy second then Failure MalformedHeader
              else if negb (isValidToken second) then Failure InvalidToken
              else Success
          | _ => Failure MalformedHeader
          end
    end.

(** The message that goes with each error code in the responses of
    validateBearerAuth. *)
Definition failure_message (e : AuthError) : jsstring :=
  match e with
  | MissingAuthorization =>
      lit "Authorization header is required. Format: Authorization: Bearer <token>"
  | MalformedHeader =>
      lit "Malformed Authorization header. Format: Authorization: Bearer <token>"
  | InvalidScheme =>
      lit "Authorization header must use Bearer scheme. Format: Authorization: Bearer <token>"
  | InvalidToken =>
      lit "Invalid Bearer token. Please check your authentication credentials."
  end.

(** ** Errors of the service layer (handleServiceError) *)

Module Errors.

(** The members of [ErrorCode] (constants/errorCodes) that the sources
    name. *)
Inductive ErrorCode : Type :=
| USER_NOT_FOUND
| USER_ALREADY_EXISTS
| EMAIL_ALREADY_IN_USE
| INVALID_CREDENTIALS
| RESET_CODE_NOT_FOUND
| INVALID_RESET_CODE
| RESET_CODE_EXPIRED
| ORDER_NOT_FOUND
| INTERNAL_SERVER_ERROR.

(** A value caught by a [catch] clause or passed as [error: unknown]:
    an instance of [Error], with its message, or anything else. *)
Inductive Caught : Type :=
| ErrorInstance (message : jsstring)
| OtherValue (v : JsValue).

(** What a function of the service layer throws: a new
    [AppError(message, statusCode, code)], the code being optional, or a
    caught value thrown again. *)
Inductive Thrown : Type :=
| AppError (message : jsstring) (statusCode : N) (code : option ErrorCode)
| Rethrown (error : Caught).

Record ErrorMapping : Type := {
  mapping_message : jsstring;
  mapping_code : ErrorCode;
  mapping_status : N
}.

Definition errorMappings : list ErrorMapping :=
  [ {| mapping_message := lit "User not found";
       mapping_code := USER_NOT_FOUND; mapping_status := 404 |};
    {| mapping_message := lit "User with this email already exists";
       mapping_code := USER_ALREADY_EXISTS; mapping_status := 409 |};
    {| mapping_message := lit "Email already in use";
       mapping_code := EMAIL_ALREADY_IN_USE; mapping_status := 409 |};
    {| mapping_message := lit "Invalid credentials";
       mapping_code := INVALID_CREDENTIALS; mapping_status := 401 |};
    {| mapping_message := lit "No reset code found for this email";
       mapping_code := RESET_CODE_NOT_FOUND; mapping_status := 404 |};
    {| mapping_message := lit "Invalid reset code";
       mapping_code := INVALID_RESET_CODE; mapping_status := 400 |};
    {| mapping_message := lit "Reset code has expired";
       mapping_code := RESET_CODE_EXPIRED; mapping_status := 400 |} ].

(** [handleServiceError(error): never]: the value it throws. *)
Definition handleServiceError (error : Caught) : Thrown :=
  match error with
  | ErrorInstance message =>
      let mapping := find (fun m => str_eqb (mapping_message m) message) errorMappings in
      match mapping with
      | Some mapping => AppError message (mapping_status mapping) (Some (mapping_code mapping))
      | None => Rethrown error
      end
  | OtherValue _ => Rethrown error
  end.

End Errors.
Import Errors.

(** ** src/routes/user.ts *)

Module UserRoutes.

(** The fields of an update that passed [UpdateUserSchema]. *)
Record Updates : Type := {
  email : option jsstring;
  password : option jsstring
}.

(** [UpdateUserSchema.safeParse(body)]: the parsed data, or the messages
    of the issues found, in order. *)
Inductive SafeParse : Type :=
| Valid (data : Updates)
| Invalid (errors : list jsstring).

Section Handlers.

(** The user record, the state behind userService, and request bodies are
    those of modules that are not under src. *)
Variables User Store Body : Type.

(** A call of a userService function returns or throws, and leaves a
    state behind. *)
Inductive Call (A : Type) : Type :=
| Returns (a : A) (s : Store)
| Throws (e : Caught) (s : Store).
Arguments Returns {A} a s.
Arguments Throws {A} e s.

Record UserService : Type := {
  getUserById : jsstring -> Store -> Call (option User);
  deleteUser : jsstring -> Store -> Call unit;
  updateUser : jsstring -> Updates -> Store -> Call User
}.

Variable userService : UserService.
Variable safeParse : Body -> SafeParse.

(** The [ApiResponse] objects the handlers send. *)
Record ApiResponse : Type := {
  api_success : bool;
  api_data : option User;
  api_message : option jsstring
}.

(** How a handler ends: with [res.status(code).json(response)], or by
    throwing. *)
Inductive Outcome : Type :=
| Responded (status : N) (response : ApiResponse)
| Threw (error : Thrown).

(** [!userId] for [req.params.userId]. *)
Definition missing (userId : option jsstring) : bool :=
  match userId with
  | None => true
  | Some id => falsy id
  end.

Definition param (userId : option jsstring) : jsstring :=
  match userId with
  | None => []
  | Some id => id
  end.

(** GET /:userId *)
Definition getUser (userId : option jsstring) (s : Store) : Outcome * Store :=
  if missing userId then (Threw (AppError (lit "User ID is required") 400 None), s)
  else
    match getUserById userService (param userId) s with
    | Throws e s' => (Threw (Rethrown e), s')
    | Returns None s' => (Threw (AppError (lit "User not found") 404 None), s')
    | Returns (Some user) s' =>
        (Responded 200
           {| api_success := true; api_data := Some user; api_message := None |}, s')
    end.

(** DELETE /:userId *)
Definition deleteUserHandler (userId : option jsstring) (s : Store) : Outcome * Store :=
  if missing userId then (Threw (AppError (lit "User ID is required") 400 None), s)
  else
    match deleteUser userService (param userId) s with
    | Returns _ s' =>
        (Responded 200
           {| api_success := true; api_data := None;
              api_message := Some (lit "User deleted successfully") |}, s')
    | Throws error s' =>
        match error with
        | ErrorInstance message =>
            if str_eqb message (lit "User not found") then
              (Threw (AppError message 404 None), s')
            else (Threw (Rethrown error), s')
        | OtherValue _ => (Threw (Rethrown error), s')
        end
    end.

(** [validationResult.error.errors[0]?.message || "Validation failed"]. *)
Definition errorMessage (errors : list jsstring) : jsstring :=
  match errors with
  | (_ :: _) as message :: _ => message
  | _ => lit "Validation failed"
  end.

(** The object built field by field from the defined fields. *)
Definition filteredUpdates (updates : Updates) : Updates :=
  {| email := email updates; password := password updates |}.

(** [Object.keys(filteredUpdates).length === 0]. *)
Definition noKeys (u : Updates) : bool :=
  match email u, password u with
  | None, None => true
  | _, _ => false
  end.

(** PUT /:userId *)
Definition updateUserHandler (userId : option jsstring) (body : Body) (s : Store)
  : Outcome * Store :=
  if missing userId then (Threw (AppError (lit "User ID is required") 400 None), s)
  else
    match safeParse body with
    | Invalid errors => (Threw (AppError (errorMessage errors) 400 None), s)
    | Valid updates =>
        let filtered := filteredUpdates updates in
        if noKeys filtered then
          (Threw (AppError (lit "At least one field must be provided for update") 400 None), s)
        else
          match updateUser userService (param userId) filtered s with
          | Returns updatedUser s' =>
              (Responded 200
                 {| api_success := true; api_data := Some updatedUser;
                    api_message := Some (lit "User updated successfully") |}, s')
          | Throws error s' =>
              match error with
              | ErrorInstance message =>
                  if str_eqb message (lit "User not found") then
                    (Threw (AppError message 404 None), s')
                  else if str_eqb message (lit "Email already in use") then
                    (Threw (AppError message 409 None), s')
                  else (Threw (Rethrown error), s')
              | OtherValue _ => (Threw (Rethrown error), s')
              end
          end
    end.

End Handlers.

End UserRoutes.

(** ** The e-mail service (EmailService, with retry) *)

Module Email.

Definition dq : jsstring := [34].
Definition nl : jsstring := [10].

(** An integer in a template literal. *)
Definition show_number (z : Z) : jsstring :=
  lit (NilEmpty.string_of_int (Z.to_int z)).

(** A string that may be undefined in a template literal. *)
Definition show (v : option jsstring) : jsstring :=
  match v with
  | Some s => s
  | None => lit "undefined"
  end.

(** The settings read from [env] (config/env). *)
Record Env : Type := {
  SMTP_HOST : option jsstring;
  SMTP_PORT : option Z;
  SMTP_MAIL : option jsstring;
  SMTP_APP_PASS : option jsstring;
  NODE_ENV : option jsstring;
  APP_DOMAIN : option jsstring
}.

(** [!v] for a string and for a number that may be undefined. *)
Definition unset (v : option jsstring) : bool :=
  match v with
  | Some s => falsy s
  | None => true
  end.

Definition unset_number (v : option Z) : bool :=
  match v with
  | Some z => (z =? 0)%Z
  | None => true
  end.

Definition equals (v : option jsstring) (s : jsstring) : bool :=
  match v with
  | Some x => str_eqb x s
  | None => false
  end.

(** The object passed to [nodemailer.createTransport]. *)
Record TransportOptions : Type := {
  host : jsstring;
  port : Z;
  secure : bool;
  auth_user : jsstring;
  auth_pass : jsstring;
  tls_rejectUnauthorized : bool;
  tls_minVersion : jsstring;
  tls_ciphers : jsstring;
  connectionTimeout : Z;
  greetingTimeout : Z;
  socketTimeout : Z;
  debug : bool;
  logger : bool
}.

Record MailOptions : Type := {
  mail_from : jsstring;
  mail_to : jsstring;
  mail_subject : jsstring;
  mail_text : jsstring;
  mail_html : jsstring
}.

Inductive Level : Type := Warn | Info | Error.

Inductive Meta : Type :=
| MError (e : Caught)
| MBool (b : bool)
| MString (s : jsstring)
| MNumber (z : Z)
| MNull.

Record LogEntry : Type := {
  level : Level;
  text : jsstring;
  meta : list (jsstring * Meta)
}.

(** What the service does to the world: the mails handed to [sendMail],
    the entries written through [logger] and [console.log], the delays
    awaited between attempts and the delays of the timers set. *)
Record Effects : Type := {
  sent : list MailOptions;
  logs : list LogEntry;
  console : list jsstring;
  sleeps : list Z;
  timers : list Z
}.

Definition logger_log (l : Level) (t : jsstring) (m : list (jsstring * Meta))
  (w : Effects) : Effects :=
  {| sent := sent w; logs := logs w ++ [{| level := l; text := t; meta := m |}];
     console := console w; sleeps := sleeps w; timers := timers w |}.

Definition console_log (t : jsstring) (w : Effects) : Effects :=
  {| sent := sent w; logs := logs w; console := console w ++ [t];
     sleeps := sleeps w; timers := timers w |}.

Definition hand_over (m : MailOptions) (w : Effects) : Effects :=
  {| sent := sent w ++ [m]; logs := logs w; console := console w;
     sleeps := sleeps w; timers := timers w |}.

Definition sleep (ms : Z) (w : Effects) : Effects :=
  {| sent := sent w; logs := logs w; console := console w;
     sleeps := sleeps w ++ [ms]; timers := timers w |}.

Definition setTimeout (ms : Z) (w : Effects) : Effects :=
  {| sent := sent w; logs := logs w; console := console w;
     sleeps := sleeps w; timers := timers w ++ [ms] |}.

(** How an async method ends: its promise resolves, or rejects with a
    thrown value, which is [null] when [throw lastError] finds no error
    recorded. *)
Inductive Completion : Type :=
| Resolved
| Rejected (error : Caught)
| RejectedNull.

(** The [mailOptions] of sendVerificationEmail. *)
Definition verificationMail (env : Env) (email code : jsstring) : MailOptions :=
  {| mail_from :=
       dq ++ lit "Price Tracker" ++ dq ++ lit " <" ++ show (SMTP_MAIL env) ++ lit ">";
     mail_to := email;
     mail_subject := lit "Email Verification Code";
     mail_text :=
       lit "Your verification code is: " ++ code ++ nl ++ nl
       ++ lit "This code will expire in 15 minutes." ++ nl ++ nl
       ++ lit "If you did not request this code, please ignore this email.";
     mail_html :=
       nl ++ lit "        <div style=" ++ dq
       ++ lit "font-family: Arial, sans-serif; max-width: 600px; margin: 0 auto;" ++ dq
       ++ lit ">" ++ nl ++ lit "          <h2 style=" ++ dq ++ lit "color: #333;" ++ dq
       ++ lit ">Email Verification</h2>" ++ nl
       ++ lit "          <p>Your verification code is:</p>" ++ nl
       ++ lit "          <h1 style=" ++ dq
       ++ lit "color: #4CAF50; font-size: 32px; letter-spacing: 5px;" ++ dq ++ lit ">"
       ++ code ++ lit "</h1>" ++ nl
       ++ lit "          <p>This code will expire in 15 minutes.</p>" ++ nl
       ++ lit "          <p style=" ++ dq ++ lit "color: #666; font-size: 12px;" ++ dq
       ++ lit ">If you did not request this code, please ignore this email.</p>" ++ nl
       ++ lit "        </div>" ++ nl ++ lit "      " |}.

(** The [mailOptions] of sendPasswordResetEmail. *)
Definition passwordResetMail (env : Env) (email code : jsstring) : MailOptions :=
  {| mail_from :=
       dq ++ lit "Price Tracker" ++ dq ++ lit " <" ++ show (SMTP_MAIL env) ++ lit ">";
     mail_to := email;
     mail_subject := lit "Password Reset Code";
     mail_text :=
       lit "Your password reset code is: " ++ code ++ nl ++ nl
       ++ lit "This code will expire in 15 minutes." ++ nl ++ nl
       ++ lit "If you did not request this code, please ignore this email and your password will remain unchanged.";
     mail_html :=
       nl ++ lit "        <div style=" ++ dq
       ++ lit "font-family: Arial, sans-serif; max-width: 600px; margin: 0 auto;" ++ dq
       ++ lit ">" ++ nl ++ lit "          <h2 style=" ++ dq ++ lit "color: #333;" ++ dq
       ++ lit ">Password Reset</h2>" ++ nl
       ++ lit "          <p>Your password reset code is:</p>" ++ nl
       ++ lit "          <h1 style=" ++ dq
       ++ lit "color: #FF5722; font-size: 32px; letter-spacing: 5px;" ++ dq ++ lit ">"
       ++ code ++ lit "</h1>" ++ nl
       ++ lit "          <p>This code will expire in 15 minutes.</p>" ++ nl
       ++ lit "          <p style=" ++ dq ++ lit "color: #666; font-size: 12px;" ++ dq
       ++ lit ">If you did not request this code, please ignore this email and your password will remain unchanged.</p>"
       ++ nl ++ lit "        </div>" ++ nl ++ lit "      " |}.

(** The [mailOptions] of sendConfirmationEmail. *)
Definition confirmationMail (env : Env) (email confirmationLink : jsstring) : MailOptions :=
  {| mail_from :=
       dq ++ lit "Price Tracker" ++ dq ++ lit " <" ++ show (SMTP_MAIL env) ++ lit ">";
     mail_to := email;
     mail_subject := lit "Confirm Your Email Address";
     mail_text :=
       lit "Please confirm your email address by clicking the link below:" ++ nl ++ nl
       ++ confirmationLink ++ nl ++ nl ++ lit "This link can only be used once." ++ nl
       ++ nl ++ lit "If you did not create an account, please ignore this email.";
     mail_html :=
       nl ++ lit "        <div style=" ++ dq
       ++ lit "font-family: Arial, sans-serif; max-width: 600px; margin: 0 auto;" ++ dq
       ++ lit ">" ++ nl ++ lit "          <h2 style=" ++ dq ++ lit "color: #333;" ++ dq
       ++ lit ">Confirm Your Email Address</h2>" ++ nl
       ++ lit "          <p>Thank you for registering! Please confirm your email address by clicking the button below:</p>"
       ++ nl ++ lit "          <div style=" ++ dq
       ++ lit "text-align: center; margin: 30px 0;" ++ dq ++ lit ">" ++ nl
       ++ lit "            <a href=" ++ dq ++ confirmationLink ++ dq ++ lit " style="
       ++ dq
       ++ lit "background-color: #4CAF50; color: white; padding: 12px 30px; text-decoration: none; border-radius: 5px; display: inline-block; font-weight: bold;"
       ++ dq ++ lit ">Confirm Email</a>" ++ nl ++ lit "          </div>" ++ nl
       ++ lit "          <p style=" ++ dq ++ lit "color: #666; font-size: 14px;" ++ dq
       ++ lit ">Or copy and paste this link into your browser:</p>" ++ nl
       ++ lit "          <p style=" ++ dq
       ++ lit "color: #4CAF50; word-break: break-all;" ++ dq ++ lit ">"
       ++ confirmationLink ++ lit "</p>" ++ nl ++ lit "          <p style=" ++ dq
       ++ lit "color: #666; font-size: 12px; margin-top: 30px;" ++ dq
       ++ lit ">This link can only be used once. If you did not create an account, please ignore this email.</p>"
       ++ nl ++ lit "        </div>" ++ nl ++ lit "      " |}.

Section Service.

(** nodemailer: a transporter is made from options, or the making throws;
    the [n]-th call of [sendMail] of a run resolves ([None]) or rejects;
    so does [verify]. *)
Variable Transporter : Type.
Variable createTransport : TransportOptions -> Caught + Transporter.
Variable sendMail : Transporter -> nat -> MailOptions -> option Caught.
Variable verify : Transporter -> option Caught.

Variable env : Env.

(** [initializeTransporter]: the value left in [this.transporter]. *)
Definition initializeTransporter (w : Effects) : option Transporter * Effects :=
  if unset (SMTP_HOST env) || unset_number (SMTP_PORT env)
     || unset (SMTP_MAIL env) || unset (SMTP_APP_PASS env) then
    (None,
     logger_log Warn
       (lit "SMTP configuration is incomplete. Email sending will be disabled. "
        ++ lit "Please configure SMTP_HOST, SMTP_PORT, SMTP_MAIL, and SMTP_APP_PASS environment variables.")
       [] w)
  else
    match SMTP_HOST env, SMTP_PORT env, SMTP_MAIL env, SMTP_APP_PASS env with
    | Some smtp_host, Some smtp_port, Some smtp_mail, Some smtp_pass =>
        let isSecure := (smtp_port =? 465)%Z in
        match createTransport
                {| host := smtp_host; port := smtp_port; secure := isSecure;
                   auth_user := smtp_mail; auth_pass := smtp_pass;
                   tls_rejectUnauthorized := false;
                   tls_minVersion := lit "TLSv1.2";
                   tls_ciphers := lit "SSLv3";
                   connectionTimeout := 60000;
                   greetingTimeout := 30000;
                   socketTimeout := 60000;
                   debug := equals (NODE_ENV env) (lit "development");
                   logger := equals (NODE_ENV env) (lit "development") |} with
        | inr transporter =>
            (Some transporter,
             setTimeout 5000
               (logger_log Info (lit "Email transporter initialized successfully")
                  [(lit "host", MString smtp_host); (lit "port", MNumber smtp_port);
                   (lit "secure", MBool isSecure)] w))
        | inl error =>
            (None,
             logger_log Error (lit "Failed to initialize email transporter")
               [(lit "error", MError error)] w)
        end
    | _, _, _, _ => (None, w)
    end.

(** [getInstance]: the static [instance] before the call, the instance
    returned, which is also the static [instance] after the call. *)
Definition getInstance (instance : option (option Transporter)) (w : Effects)
  : option Transporter * Effects :=
  match instance with
  | Some service => (service, w)
  | None => initializeTransporter w
  end.

Definition verifyConnection (transporter : option Transporter) (w : Effects) : Effects :=
  match transporter with
  | None => w
  | Some t =>
      match verify t with
      | None => logger_log Info (lit "SMTP connection verified successfully") [] w
      | Some error =>
          let logLevel := if equals (NODE_ENV env) (lit "production") then Warn else Error in
          logger_log Info
            (lit "SMTP verification failed, but email sending will still be attempted with retry logic.")
            []
            (logger_log logLevel (lit "SMTP connection verification failed")
               [(lit "error", MError error)] w)
      end
  end.

(** The [for] loop of sendMailWithRetry, entered with [remaining]
    iterations to go, the first of them numbered [attempt]. *)
Fixpoint attempts (t : Transporter) (mailOptions : MailOptions)
  (maxRetries retryDelay : Z) (remaining : nat) (attempt : Z)
  (lastError : option Caught) (w : Effects) : Completion * Effects :=
  match remaining with
  | O =>
      (match lastError with
       | Some error => Rejected error
       | None => RejectedNull
       end, w)
  | S remaining' =>
      match sendMail t (length (sent w)) mailOptions with
      | None => (Resolved, hand_over mailOptions w)
      | Some error =>
          let w1 :=
            logger_log Warn
              (lit "Email send attempt " ++ show_number attempt ++ lit "/"
               ++ show_number maxRetries ++ lit " failed")
              [(lit "error", MError error);
               (lit "willRetry", MBool (attempt <? maxRetries)%Z)]
              (hand_over mailOptions w) in
          let w2 :=
            if (attempt <? maxRetries)%Z then sleep (retryDelay * attempt)%Z w1
            else w1 in
          attempts t mailOptions maxRetries retryDelay remaining' (attempt + 1)%Z
            (Some error) w2
      end
  end.

(** [attempt] runs from 1 while [attempt <= maxRetries]: that is
    [maxRetries] iterations, none when [maxRetries] is below 1. *)
Definition sendMailWithRetry (transporter : option Transporter)
  (mailOptions : MailOptions) (maxRetries retryDelay : Z) (w : Effects)
  : Completion * Effects :=
  match transporter with
  | None => (Rejected (ErrorInstance (lit "Email transporter not initialized")), w)
  | Some t =>
      attempts t mailOptions maxRetries retryDelay (Z.to_nat maxRetries) 1%Z None w
  end.

(** The value caught by the [catch] of a send method. *)
Definition caught (c : Completion) : Meta :=
  match c with
  | Rejected error => MError error
  | _ => MNull
  end.

Definition sendVerificationEmail (transporter : option Transporter)
  (email code : jsstring) (w : Effects) : Completion * Effects :=
  match transporter with
  | None =>
      (Resolved,
       console_log (lit "Verification code for " ++ email ++ lit ": " ++ code)
         (logger_log Warn
            (lit "Email sending is disabled. Verification code for " ++ email
             ++ lit ": " ++ code) [] w))
  | Some _ =>
      let mailOptions := verificationMail env email code in
      match sendMailWithRetry transporter mailOptions 3 2000 w with
      | (Resolved, w1) =>
          (Resolved, logger_log Info (lit "Verification email sent to " ++ email) [] w1)
      | (failure, w1) =>
          (Resolved,
           console_log (lit "Verification code for " ++ email ++ lit ": " ++ code)
             (logger_log Error (lit "Failed to send verification email to " ++ email)
                [(lit "error", caught failure)] w1))
      end
  end.

Definition sendPasswordResetEmail (transporter : option Transporter)
  (email code : jsstring) (w : Effects) : Completion * Effects :=
  match transporter with
  | None =>
      (Resolved,
       console_log (lit "Reset code for " ++ email ++ lit ": " ++ code)
         (logger_log Warn
            (lit "Email sending is disabled. Reset code for " ++ email
             ++ lit ": " ++ code) [] w))
  | Some _ =>
      let mailOptions := passwordResetMail env email code in
      match sendMailWithRetry transporter mailOptions 3 2000 w with
      | (Resolved, w1) =>
          (Resolved, logger_log Info (lit "Password reset email sent to " ++ email) [] w1)
      | (failure, w1) =>
          (Resolved,
           console_log (lit "Reset code for " ++ email ++ lit ": " ++ code)
             (logger_log Error (lit "Failed to send password reset email to " ++ email)
                [(lit "error", caught failure)] w1))
      end
  end.

Definition sendConfirmationEmail (transporter : option Transporter)
  (email token : jsstring) (w : Effects) : Completion * Effects :=
  let confirmationLink :=
    show (APP_DOMAIN env) ++ lit "/register/confirmation?uuid=" ++ token in
  match transporter with
  | None =>
      (Resolved,
       console_log (lit "Confirmation link for " ++ email ++ lit ": " ++ confirmationLink)
         (logger_log Warn
            (lit "Email sending is disabled. Confirmation token for " ++ email
             ++ lit ": " ++ token) [] w))
  | Some _ =>
      let mailOptions := confirmationMail env email confirmationLink in
      match sendMailWithRetry transporter mailOptions 3 2000 w with
      | (Resolved, w1) =>
          (Resolved, logger_log Info (lit "Confirmation email sent to " ++ email) [] w1)
      | (failure, w1) =>
          (Resolved,
           console_log
             (lit "Confirmation link for " ++ email ++ lit ": " ++ confirmationLink)
             (logger_log Error (lit "Failed to send confirmation email to " ++ email)
                [(lit "error", caught failure)] w1))
      end
  end.

End Service.

End Email.

(** ** The order service (getOrders, getOrderById, updateOrder, deleteOrder) *)

Module Orders.

(** The columns of the [orders] table that the service names. *)
Inductive Column : Type :=
| orderId | title | price | link | status | createdAt | updatedAt.

Inductive Direction : Type := asc | desc.

(** The conditions the service builds with [ilike] and [eq]. *)
Inductive Condition : Type :=
| ILike (column : Column) (pattern : jsstring)
| Eq (column : Column) (value : jsstring).

(** A [select] as the builder calls leave it: each clause is absent
    until the call that sets it.  [Num] is the type of JavaScript
    numbers. *)
Record Select (Num : Type) : Type := {
  where_ : option Condition;
  orderBy_ : option (Column * Direction);
  limit_ : option Num;
  offset_ : option Num
}.
Arguments where_ {Num} _.
Arguments orderBy_ {Num} _.
Arguments limit_ {Num} _.
Arguments offset_ {Num} _.

(** [db.select().from(orders)]. *)
Definition from_orders {Num : Type} : Select Num :=
  {| where_ := None; orderBy_ := None; limit_ := None; offset_ := None |}.

Definition q_where {Num : Type} (c : Condition) (q : Select Num) : Select Num :=
  {| where_ := Some c; orderBy_ := orderBy_ q; limit_ := limit_ q; offset_ := offset_ q |}.

Definition q_orderBy {Num : Type} (o : Column * Direction) (q : Select Num) : Select Num :=
  {| where_ := where_ q; orderBy_ := Some o; limit_ := limit_ q; offset_ := offset_ q |}.

Definition q_limit {Num : Type} (n : Num) (q : Select Num) : Select Num :=
  {| where_ := where_ q; orderBy_ := orderBy_ q; limit_ := Some n; offset_ := offset_ q |}.

Definition q_offset {Num : Type} (n : Num) (q : Select Num) : Select Num :=
  {| where_ := where_ q; orderBy_ := orderBy_ q; limit_ := limit_ q; offset_ := Some n |}.

(** [s && ...] for a string that may be undefined. *)
Definition given (v : option jsstring) : bool :=
  match v with
  | Some s => negb (falsy s)
  | None => false
  end.

Definition value (v : option jsstring) : jsstring :=
  match v with
  | Some s => s
  | None => []
  end.

(** The first [switch (filterBy)] of getOrders, on the query of the page:
    the condition it adds, if any. *)
Definition filterCondition (filterBy filterValue : jsstring) : option Condition :=
  if str_eqb filterBy (lit "title") then
    Some (ILike title (lit "%" ++ filterValue ++ lit "%"))
  else if str_eqb filterBy (lit "status") then Some (Eq status filterValue)
  else if str_eqb filterBy (lit "link") then
    Some (ILike link (lit "%" ++ filterValue ++ lit "%"))
  else if str_eqb filterBy (lit "price") then Some (Eq price filterValue)
  else None.

(** The second [switch (filterBy)] of getOrders, on the count query. *)
Definition countFilterCondition (filterBy filterValue : jsstring) : option Condition :=
  if str_eqb filterBy (lit "title") then
    Some (ILike title (lit "%" ++ filterValue ++ lit "%"))
  else if str_eqb filterBy (lit "status") then Some (Eq status filterValue)
  else if str_eqb filterBy (lit "link") then
    Some (ILike link (lit "%" ++ filterValue ++ lit "%"))
  else if str_eqb filterBy (lit "price") then Some (Eq price filterValue)
  else None.

(** The [switch (sortBy)] of getOrders: the column it orders by, if any. *)
Definition sortColumn (sortBy : jsstring) : option Column :=
  if str_eqb sortBy (lit "title") then Some title
  else if str_eqb sortBy (lit "price") then Some price
  else if str_eqb sortBy (lit "status") then Some status
  else if str_eqb sortBy (lit "createdAt") then Some createdAt
  else if str_eqb sortBy (lit "updatedAt") then Some updatedAt
  else None.

Section Service.

(** JavaScript numbers are IEEE 754 doubles; the service uses the number
    of a literal, [-], [*], [/], [Math.ceil], [Number(v)] for the
    [count] of a row, which is [undefined] when there is no row, and the
    truth value of a number in [n || 0]. *)
Variable Num : Type.
Variable literal : Z -> Num.
Variables minus times divide : Num -> Num -> Num.
Variable Math_ceil : Num -> Num.
Variable Count : Type.
Variable Number : option Count -> Num.
Variable truthy : Num -> bool.

(** The rows the database answers a query with; the rows, one [count]
    each, it answers a [count] query with. *)
Variable Order : Type.
Variable rows : Select Num -> list Order.
Variable counts : option Condition -> list Count.

Record Pagination : Type := {
  currentPage : Num;
  totalPages : Num;
  totalItems : Num;
  itemsPerPage : Num
}.

Record PaginatedOrdersResponse : Type := {
  orders : list Order;
  pagination : Pagination
}.

(** The query of the page, before [limit] and [offset].  The defaults of
    the parameters (page 1, "desc") are the caller's here; [sortOrder] is
    the function [orderFn] it selects. *)
Definition pageQuery (sortBy : option jsstring) (sortOrder : Direction)
  (filterBy filterValue : option jsstring) : Select Num :=
  let query := from_orders in
  let query :=
    if given filterBy && given filterValue then
      match filterCondition (value filterBy) (value filterValue) with
      | Some c => q_where c query
      | None => query
      end
    else query in
  if given sortBy then
    let orderFn := sortOrder in
    match sortColumn (value sortBy) with
    | Some column => q_orderBy (column, orderFn) query
    | None => query
    end
  else q_orderBy (createdAt, desc) query.

(** The condition of the count query. *)
Definition countCondition (filterBy filterValue : option jsstring) : option Condition :=
  if given filterBy && given filterValue then
    countFilterCondition (value filterBy) (value filterValue)
  else None.

(** [a || b] on numbers. *)
Definition or_else (a b : Num) : Num := if truthy a then a else b.

Definition getOrders (page : Num) (sortBy : option jsstring) (sortOrder : Direction)
  (filterBy filterValue : option jsstring) : PaginatedOrdersResponse :=
  let itemsPerPage := literal 30 in
  let offset_value := times (minus page (literal 1)) itemsPerPage in
  let query := pageQuery sortBy sortOrder filterBy filterValue in
  let countResult := hd_error (counts (countCondition filterBy filterValue)) in
  let totalItems := or_else (Number countResult) (literal 0) in
  let ordersResult := rows (q_offset offset_value (q_limit itemsPerPage query)) in
  let totalPages := Math_ceil (divide totalItems itemsPerPage) in
  {| orders := ordersResult;
     pagination :=
       {| currentPage := page; totalPages := totalPages;
          totalItems := totalItems; itemsPerPage := itemsPerPage |} |}.

End Service.

End Orders.

(** Whether one of the first [n] calls of [sendMail] made from [w] on is
    accepted. *)
Definition accepted_within {Transporter : Type}
  (sendMail : Transporter -> nat -> Email.MailOptions -> option Caught)
  (n : nat) (t : Transporter) (w : Email.Effects) (m : Email.MailOptions) : bool :=
  existsb
    (fun i =>
       match sendMail t (length (Email.sent w) + i)%nat m with
       | None => true
       | Some _ => false
       end)
    (seq 0 n).

(** Whether a send method gets its mail accepted: there is a transporter
    and one of its three attempts succeeds. *)
Definition delivered {Transporter : Type}
  (sendMail : Transporter -> nat -> Email.MailOptions -> option Caught)
  (transporter : option Transporter) (w : Email.Effects) (m : Email.MailOptions)
  : bool :=
  match transporter with
  | Some t => accepted_within sendMail 3 t w m
  | None => false
  end.

(** A transporter for the examples: it rejects the first [failures] mails
    handed to it and accepts the following ones. *)
Definition flaky (failures : nat) : unit -> nat -> Email.MailOptions -> option Caught :=
  fun _ n _ =>
    if (n <? failures)%nat then Some (ErrorInstance (lit "ECONNREFUSED")) else None.

Definition exampleEnv : Email.Env :=
  {| Email.SMTP_HOST := Some (lit "smtp.example.org");
     Email.SMTP_PORT := Some 465%Z;
     Email.SMTP_MAIL := Some (lit "noreply@example.org");
     Email.SMTP_APP_PASS := Some (lit "app-pass");
     Email.NODE_ENV := Some (lit "production");
     Email.APP_DOMAIN := Some (lit "https://example.org") |}.

Definition quiet : Email.Effects :=
  {| Email.sent := []; Email.logs := []; Email.console := [];
     Email.sleeps := []; Email.timers := [] |}.

(** The delays awaited before the retries after attempts [first] to
    [first + k - 1]: [retryDelay * first], [retryDelay * (first + 1)], ... *)
Definition backoff (retryDelay : Z) (first : Z) (k : nat) : list Z :=
  map (fun i => (retryDelay * (first + Z.of_nat i))%Z) (seq 0 k).

(** The entry that sendMailWithRetry logs when the attempt numbered
    [attempt] fails with [error]. *)
Definition warning (maxRetries attempt : Z) (error : Caught) : Email.LogEntry :=
  {| Email.level := Email.Warn;
     Email.text :=
       lit "Email send attempt " ++ Email.show_number attempt ++ lit "/"
       ++ Email.show_number maxRetries ++ lit " failed";
     Email.meta :=
       [(lit "error", Email.MError error);
        (lit "willRetry", Email.MBool (attempt <? maxRetries)%Z)] |}.

(** The entries logged for [k] attempts in a row, numbered from [first],
    the first of them being the call of [sendMail] numbered [from]: one
    entry for each attempt that fails, with the error of that attempt. *)
Definition warnings {Transporter : Type}
  (sendMail : Transporter -> nat -> Email.MailOptions -> option Caught)
  (t : Transporter) (m : Email.MailOptions) (maxRetries : Z)
  (from : nat) (first : Z) (k : nat) : list Email.LogEntry :=
  flat_map
    (fun i =>
       match sendMail t (from + i)%nat m with
       | Some error => [warning maxRetries (first + Z.of_nat i) error]
       | None => []
       end)
    (seq 0 k).

(** A validator for the examples: the body is the parsed data. *)
Definition jsonBody (updates : UserRoutes.Updates) : UserRoutes.SafeParse :=
  UserRoutes.Valid updates.

(** A userService to run the handlers on: users are their ids, kept in
    a list; a second user cannot take the e-mail address "taken". *)
Definition listService : UserRoutes.UserService jsstring (list jsstring) :=
  {| UserRoutes.getUserById := fun id s =>
       UserRoutes.Returns _ _
         (if existsb (str_eqb id) s then Some id else None) s;
     UserRoutes.deleteUser := fun id s =>
       if existsb (str_eqb id) s then
         UserRoutes.Returns _ _ tt (filter (fun u => negb (str_eqb id u)) s)
       else UserRoutes.Throws _ _ (ErrorInstance (lit "User not found")) s;
     UserRoutes.updateUser := fun id updates s =>
       if negb (existsb (str_eqb id) s) then
         UserRoutes.Throws _ _ (ErrorInstance (lit "User not found")) s
       else
         match UserRoutes.email updates with
         | Some address =>
             if str_eqb address (lit "taken") then
               UserRoutes.Throws _ _ (ErrorInstance (lit "Email already in use")) s
             else UserRoutes.Returns _ _ id s
         | None => UserRoutes.Returns _ _ id s
         end |}.

(** * Properties *)

(** ** The model on the examples of the source and of the specification *)

Example split_empty : split_ws (lit "") = [lit ""].
Proof. reflexivity. Qed.
Example split_leading : split_ws (lit " a") = [lit ""; lit "a"].
Proof. reflexivity. Qed.
Example split_trailing : split_ws (lit "a ") = [lit "a"; lit ""].
Proof. reflexivity. Qed.
Example split_run : split_ws (lit "Bearer    tok en") = [lit "Bearer"; lit "tok"; lit "en"].
Proof. reflexivity. Qed.
Example trim_both : trim (lit "  Bearer x  ") = lit "Bearer x".
Proof. reflexivity. Qed.
Example tokens_run : tokens (lit "  Bearer   x ") = [lit "Bearer"; lit "x"].
Proof. reflexivity. Qed.

Example parse_doc1 :
  parseAuthorizationHeader (R := nodeRuntime) (lit "Bearer token123")
  = Some {| scheme := lit "bearer"; token := lit "token123" |}.
Proof. reflexivity. Qed.
Example parse_doc2 :
  parseAuthorizationHeader (R := nodeRuntime) (lit "bearer  token123")
  = Some {| scheme := lit "bearer"; token := lit "token123" |}.
Proof. reflexivity. Qed.
Example parse_doc3 :
  parseAuthorizationHeader (R := nodeRuntime) (lit "token123") = None.
Proof. reflexivity. Qed.
Example scenario3 :
  error (validateBearerAuth (R := nodeRuntime) (E := deployment [lit "secret1"] true)
           (Some (lit "Bearer ")) (lit "/api/orders"))
  = Some MalformedHeader.
Proof. reflexivity. Qed.
Example scenario5 :
  bearerAuth (R := nodeRuntime) (E := deployment [lit "secret1"; lit "secret2"] true)
    (request (Some (lit "Bearer secret1")) (lit "/api/orders")) idle
  = next idle.
Proof. reflexivity. Qed.

(** Two different strings made of a lone surrogate each have the same
    bytes, those of U+FFFD: such strings are why the comparator is stated
    on bytes, and on strings only when they are well formed.  Neither an
    HTTP header value nor an environment variable holds a lone surrogate. *)
Example lone_surrogates_same_bytes :
  Node.utf8_encode [55296] = Node.utf8_encode [55297]
  /\ compareTokens (R := nodeRuntime) [55296] [55297] = true
  /\ wellFormed [55296] = false.
Proof. repeat split. Qed.

Example utf8_examples :
  Node.utf8_encode [233] = [195; 169]
  /\ Node.utf8_encode [8364] = [226; 130; 172]
  /\ Node.utf8_encode [55357; 56832] = [240; 159; 152; 128].
Proof. repeat split. Qed.

Example getClientIP_examples :
  getClientIP (request None (lit "/")) = lit "127.0.0.1"
  /\ getClientIP {| req_get := fun _ => None; req_path := lit "/";
                    req_ip := Some []; req_remoteAddress := Some (lit "10.0.0.7") |}
     = lit "10.0.0.7"
  /\ getClientIP {| req_get := fun _ => None; req_path := lit "/";
                    req_ip := None; req_remoteAddress := None |}
     = lit "unknown".
Proof. repeat split. Qed.

Example errorMessage_examples :
  UserRoutes.errorMessage [lit "Invalid email"; lit "Too short"] = lit "Invalid email"
  /\ UserRoutes.errorMessage [[]; lit "Too short"] = lit "Validation failed"
  /\ UserRoutes.errorMessage [] = lit "Validation failed".
Proof. repeat split. Qed.

Example show_number_examples :
  Email.show_number 3 = lit "3" /\ Email.show_number 12 = lit "12"
  /\ Email.show_number 0 = lit "0".
Proof. repeat split. Qed.

(** ** Strings: equality, prefixes *)

Lemma str_eqb_eq (a b : jsstring) : str_eqb a b = true <-> a = b.
Proof.
  revert b; induction a as [|x a IH]; intros [|y b]; simpl; split;
    try congruence; try reflexivity.
  - rewrite andb_true_iff, N.eqb_eq, IH. intros [-> ->]; reflexivity.
  - intros H; injection H as -> ->.
    rewrite N.eqb_refl; simpl. apply IH; reflexivity.
Qed.

Lemma str_eqb_refl (a : jsstring) : str_eqb a a = true.
Proof. apply str_eqb_eq; reflexivity. Qed.

Lemma str_eqb_neq (a b : jsstring) : str_eqb a b = false <-> a <> b.
Proof.
  rewrite <- str_eqb_eq. destruct (str_eqb a b); split; congruence.
Qed.

Lemma falsy_true (s : jsstring) : falsy s = true <-> s = [].
Proof. destruct s; simpl; split; congruence. Qed.

Lemma falsy_false (s : jsstring) : falsy s = false <-> s <> [].
Proof. destruct s; simpl; split; congruence. Qed.

Lemma startsWith_prefix (s p : jsstring) :
  startsWith s p = true <-> exists rest, s = p ++ rest.
Proof.
  revert s; induction p as [|y p IH]; intros s; simpl.
  - split; [intros _; exists s; reflexivity | intros _; destruct s; reflexivity].
  - destruct s as [|x s].
    + split; [discriminate | intros [rest H]; discriminate].
    + simpl. rewrite andb_true_iff, N.eqb_eq, IH. split.
      * intros [-> [rest ->]]. exists rest; reflexivity.
      * intros [rest H]. injection H as -> ->. split; [reflexivity | eauto].
Qed.

(** ** White space: trimming and splitting *)

Lemma trimStart_clean (s : jsstring) : startsClean (trimStart s).
Proof.
  induction s as [|c s IH]; simpl; [exact I|].
  destruct (isWhiteSpace c) eqn:Hc; [exact IH | exact Hc].
Qed.

Lemma trimEnd_ends (s : jsstring) : endsWithWS (trimEnd s) = false.
Proof.
  induction s as [|c s IH]; simpl; [reflexivity|].
  destruct (trimEnd s) as [|k kept] eqn:Hk.
  - destruct (isWhiteSpace c) eqn:Hc; simpl; [reflexivity | exact Hc].
  - exact IH.
Qed.

Lemma trimEnd_clean (s : jsstring) : startsClean s -> startsClean (trimEnd s).
Proof.
  destruct s as [|c s]; simpl; [trivial|]. intros Hc.
  destruct (trimEnd s); [rewrite Hc|]; exact Hc.
Qed.

Lemma trimEnd_nil_clean (s : jsstring) : startsClean s -> trimEnd s = [] -> s = [].
Proof.
  destruct s as [|c s]; simpl; [trivial|]. intros Hc.
  destruct (trimEnd s); [rewrite Hc|]; discriminate.
Qed.

Lemma trimStart_wsfree (s : jsstring) : wsfree s -> trimStart s = s.
Proof.
  destruct s as [|c s]; simpl; [trivial|]. intros H.
  inversion H as [|? ? Hc _]; subst. rewrite Hc; reflexivity.
Qed.

Lemma trimEnd_wsfree (s : jsstring) : wsfree s -> trimEnd s = s.
Proof.
  induction s as [|c s IH]; simpl; [trivial|]. intros H.
  inversion H as [|? ? Hc Hs]; subst. rewrite (IH Hs), Hc.
  destruct s; reflexivity.
Qed.

Lemma trim_wsfree (s : jsstring) : wsfree s -> trim s = s.
Proof.
  intros H. unfold trim. rewrite (trimStart_wsfree s H). apply trimEnd_wsfree, H.
Qed.

Lemma trim_shape (s : jsstring) :
  startsClean (trim s) /\ endsWithWS (trim s) = false.
Proof.
  unfold trim; split; [apply trimEnd_clean, trimStart_clean | apply trimEnd_ends].
Qed.

Lemma trimStart_snoc (s : jsstring) (c : N) :
  trimStart (s ++ [c])
  = match trimStart s with
    | [] => if isWhiteSpace c then [] else [c]
    | kept => kept ++ [c]
    end.
Proof.
  induction s as [|d s IH]; simpl; [reflexivity|].
  destruct (isWhiteSpace d); [exact IH | reflexivity].
Qed.

(** [trimEnd] is [trimStart] read from the other end. *)
Lemma trimEnd_mirror (s : jsstring) : trimEnd s = rev (trimStart (rev s)).
Proof.
  induction s as [|c s IH]; [reflexivity|].
  cbn [trimEnd rev]. rewrite trimStart_snoc, IH.
  destruct (trimStart (rev s)) as [|k kept]; cbn [rev].
  - destruct (isWhiteSpace c); reflexivity.
  - rewrite rev_app_distr. cbn [rev app].
    destruct (rev kept ++ [k]) eqn:Hk; [|reflexivity].
    apply app_eq_nil in Hk as [_ Hk]. discriminate.
Qed.

Lemma split_from_cons (inSep : bool) (s : jsstring) :
  exists piece pieces, split_from inSep s = piece :: pieces.
Proof.
  revert inSep; induction s as [|c s IH]; intros inSep; simpl; [eauto|].
  destruct (isWhiteSpace c).
  - destruct inSep; [apply IH | eauto].
  - destruct (IH false) as (p & ps & ->); eauto.
Qed.

(** No piece of a split holds white space. *)
Lemma split_from_wsfree (inSep : bool) (s : jsstring) :
  Forall wsfree (split_from inSep s).
Proof.
  revert inSep; induction s as [|c s IH]; intros inSep; simpl.
  - repeat constructor.
  - destruct (isWhiteSpace c) eqn:Hc.
    + destruct inSep; [apply IH | constructor; [constructor | apply IH]].
    + specialize (IH false). destruct (split_from false s) as [|p ps].
      * repeat constructor; exact Hc.
      * inversion IH; subst. constructor; [constructor|]; assumption.
Qed.

(** The non-empty pieces of a split are the tokens. *)
Lemma split_from_tokens (inSep : bool) (s : jsstring) :
  filter (fun piece => negb (falsy piece)) (split_from inSep s) = tokens s.
Proof.
  revert inSep; induction s as [|c s IH]; intros inSep; [reflexivity|].
  cbn [split_from tokens]. destruct (isWhiteSpace c) eqn:Hc.
  - destruct inSep; [apply IH | cbn [filter falsy negb]; apply IH].
  - specialize (IH false). destruct s as [|d r].
    + reflexivity.
    + revert IH. cbn [split_from tokens]. destruct (isWhiteSpace d) eqn:Hd.
      * cbn [filter falsy negb]. intros ->. reflexivity.
      * destruct (split_from_cons false r) as (p & ps & ->).
        cbn [filter falsy negb]. intros <-. reflexivity.
Qed.

(** A string that neither starts nor ends with white space splits into
    non-empty pieces only. *)
Lemma split_from_nonempty (s : jsstring) :
  forall inSep, s <> [] -> endsWithWS s = false ->
    inSep = true \/ startsClean s ->
    Forall (fun piece => falsy piece = false) (split_from inSep s).
Proof.
  induction s as [|c s IH]; intros inSep Hne Hend Hstart; [congruence|].
  cbn [split_from]. destruct (isWhiteSpace c) eqn:Hc.
  - destruct Hstart as [-> | Hs]; [|simpl in Hs; congruence].
    destruct s as [|d r]; [simpl in Hend; congruence|].
    apply IH; [discriminate | exact Hend | left; reflexivity].
  - destruct s as [|d r]; [repeat constructor|].
    assert (Hend' : endsWithWS (d :: r) = false) by exact Hend.
    destruct (isWhiteSpace d) eqn:Hd.
    + specialize (IH true ltac:(discriminate) Hend' (or_introl eq_refl)).
      revert IH. cbn [split_from]. rewrite Hd. intros IH.
      constructor; [reflexivity | exact IH].
    + specialize (IH false ltac:(discriminate) Hend' (or_intror Hd)).
      destruct (split_from false (d :: r)) as [|p ps]; [repeat constructor|].
      inversion IH; subst. constructor; [reflexivity | assumption].
Qed.

Lemma filter_all {A : Type} (f : A -> bool) (l : list A) :
  Forall (fun x => f x = true) l -> filter f l = l.
Proof.
  induction 1 as [|x l Hx _ IH]; simpl; [reflexivity|].
  rewrite Hx, IH; reflexivity.
Qed.

Lemma tokens_trimStart (s : jsstring) : tokens (trimStart s) = tokens s.
Proof.
  induction s as [|c s IH]; [reflexivity|].
  cbn [trimStart]. destruct (isWhiteSpace c) eqn:Hc; [|reflexivity].
  rewrite IH. cbn [tokens]. rewrite Hc. reflexivity.
Qed.

Lemma trimEnd_nil_tokens (s : jsstring) : trimEnd s = [] -> tokens s = [].
Proof.
  induction s as [|c s IH]; [reflexivity|]. cbn [trimEnd tokens].
  destruct (trimEnd s) eqn:Hk; [|discriminate].
  destruct (isWhiteSpace c); [intros _; apply IH; reflexivity | discriminate].
Qed.

Lemma tokens_cons_ws (c : N) (s : jsstring) :
  isWhiteSpace c = true -> tokens (c :: s) = tokens s.
Proof.
  intros Hc. unfold tokens at 1; fold tokens. rewrite Hc. reflexivity.
Qed.

Lemma tokens_cons_clean (c d : N) (r : jsstring) :
  isWhiteSpace c = false ->
  tokens (c :: d :: r)
  = if isWhiteSpace d then [c] :: tokens (d :: r)
    else match tokens (d :: r) with
         | t :: ts => (c :: t) :: ts
         | [] => [[c]]
         end.
Proof.
  intros Hc. unfold tokens at 1; fold tokens. rewrite Hc. reflexivity.
Qed.

Lemma trimEnd_head (d k : N) (r kept : jsstring) :
  trimEnd (d :: r) = k :: kept -> k = d.
Proof.
  cbn [trimEnd]. destruct (trimEnd r).
  - destruct (isWhiteSpace d); [discriminate | congruence].
  - congruence.
Qed.

Lemma tokens_trimEnd (s : jsstring) : tokens (trimEnd s) = tokens s.
Proof.
  induction s as [|c s IH]; [reflexivity|]. cbn [trimEnd].
  destruct (trimEnd s) as [|k kept] eqn:Hk.
  - pose proof (trimEnd_nil_tokens s Hk) as Ht.
    destruct (isWhiteSpace c) eqn:Hc.
    + cbn [tokens]. rewrite Hc. symmetry; exact Ht.
    + destruct s as [|d r]; [reflexivity|].
      rewrite (tokens_cons_clean c d r Hc), Ht.
      simpl. rewrite Hc. destruct (isWhiteSpace d); reflexivity.
  - destruct s as [|d r]; [discriminate|].
    pose proof (trimEnd_head _ _ _ _ Hk) as ->.
    destruct (isWhiteSpace c) eqn:Hc.
    + rewrite !(tokens_cons_ws c _ Hc). exact IH.
    + rewrite !(tokens_cons_clean c d _ Hc), IH. reflexivity.
Qed.

Lemma tokens_trim (s : jsstring) : tokens (trim s) = tokens s.
Proof. unfold trim. rewrite tokens_trimEnd. apply tokens_trimStart. Qed.

(** What [split] yields on a trimmed string: the tokens, or the single
    empty piece when there is none. *)
Lemma split_trim_tokens (s : jsstring) :
  split_ws (trim s) = match tokens s with [] => [[]] | ts => ts end.
Proof.
  destruct (trim s) as [|c t] eqn:Ht.
  - rewrite <- (tokens_trim s), Ht. reflexivity.
  - destruct (trim_shape s) as [Hstart Hend]. rewrite Ht in Hstart, Hend.
    pose proof (split_from_nonempty (c :: t) false ltac:(discriminate) Hend
                  (or_intror Hstart)) as Hne.
    pose proof (split_from_tokens false (c :: t)) as Hf.
    rewrite filter_all in Hf.
    + unfold split_ws. rewrite Hf, <- Ht, tokens_trim.
      rewrite <- (tokens_trim s), Ht, <- Hf.
      destruct (split_from_cons false (c :: t)) as (p & ps & ->). reflexivity.
    + eapply Forall_impl; [|exact Hne]. intros p Hp; simpl in Hp.
      rewrite Hp; reflexivity.
Qed.

(** Every token is non-empty and free of white space. *)
Lemma tokens_shape (s : jsstring) :
  Forall (fun t => t <> [] /\ wsfree t) (tokens s).
Proof.
  rewrite <- (split_from_tokens false s).
  pose proof (split_from_wsfree false s) as H.
  induction H as [|p ps Hp _ IH]; simpl; [constructor|].
  destruct p; simpl; [exact IH|]. constructor; [|exact IH].
  split; [discriminate | exact Hp].
Qed.

(** ** The header parser *)

Section Parser.

Context {R : Runtime}.

(** The parser in terms of the tokens of the header. *)
Lemma parse_tokens (authHeader : jsstring) :
  parseAuthorizationHeader authHeader
  = match tokens authHeader with
    | [first; second] => Some {| scheme := toLowerCase first; token := second |}
    | _ => None
    end.
Proof.
  unfold parseAuthorizationHeader. rewrite split_trim_tokens.
  pose proof (tokens_shape authHeader) as Hs.
  destruct (tokens authHeader) as [|first [|second [|third more]]];
    try reflexivity.
  inversion Hs as [|? ? [Hf _] Hs']; subst.
  inversion Hs' as [|? ? [Hsnd Hfree] _]; subst.
  cbn [length Nat.eqb negb nth_error].
  apply falsy_false in Hf, Hsnd. rewrite Hf, Hsnd. cbn [orb].
  rewrite (trim_wsfree second Hfree). reflexivity.
Qed.

Lemma parse_some (authHeader : jsstring) (parsed : ParsedAuthHeader) :
  parseAuthorizationHeader authHeader = Some parsed ->
  exists first second,
    tokens authHeader = [first; second] /\ first <> [] /\ second <> []
    /\ wsfree second
    /\ parsed = {| scheme := toLowerCase first; token := second |}.
Proof.
  rewrite parse_tokens. pose proof (tokens_shape authHeader) as Hs.
  destruct (tokens authHeader) as [|first [|second [|third more]]];
    try discriminate.
  inversion Hs as [|? ? [Hf _] Hs']; subst.
  inversion Hs' as [|? ? [Hsnd Hfree] _]; subst.
  intros H; injection H as <-. exists first, second. auto.
Qed.

(** A word, a run of white space, the rest: the word is the first token. *)
Lemma tokens_word_run (word run rest : jsstring) :
  word <> [] -> wsfree word ->
  run <> [] -> Forall (fun c => isWhiteSpace c = true) run ->
  tokens (word ++ run ++ rest) = word :: tokens rest.
Proof.
  intros Hne Hfree Hrun Hws.
  assert (Hskip : tokens (run ++ rest) = tokens rest).
  { clear Hrun. induction Hws as [|c run Hc _ IH]; [reflexivity|].
    cbn [app]. rewrite (tokens_cons_ws c _ Hc). exact IH. }
  destruct run as [|r0 run]; [congruence|].
  inversion Hws as [|? ? Hr0 _]; subst.
  induction word as [|c word IH]; [congruence|].
  inversion Hfree as [|? ? Hc Hfree']; subst.
  destruct word as [|d word].
  - cbn [app]. rewrite (tokens_cons_clean c r0 _ Hc), Hr0.
    change (r0 :: run ++ rest) with ((r0 :: run) ++ rest). rewrite Hskip. reflexivity.
  - cbn [app]. inversion Hfree' as [|? ? Hd _]; subst.
    rewrite (tokens_cons_clean c d _ Hc), Hd.
    change (d :: word ++ r0 :: run ++ rest) with ((d :: word) ++ (r0 :: run) ++ rest).
    rewrite (IH ltac:(discriminate) Hfree'). reflexivity.
Qed.

(** A header made of a scheme word, any run of white space and a token
    parses to the lower-cased word and the very token, whatever the length
    of the run. *)
Lemma parse_word_run_token (word run tok : jsstring) :
  word <> [] -> wsfree word -> tok <> [] -> wsfree tok ->
  run <> [] -> Forall (fun c => isWhiteSpace c = true) run ->
  parseAuthorizationHeader (word ++ run ++ tok)
  = Some {| scheme := toLowerCase word; token := tok |}.
Proof.
  intros Hw Hwf Ht Htf Hr Hrws. rewrite parse_tokens.
  rewrite (tokens_word_run word run tok Hw Hwf Hr Hrws).
  replace (tokens tok) with [tok]; [reflexivity|].
  clear - Ht Htf. induction tok as [|c tok IH]; [congruence|].
  inversion Htf as [|? ? Hc Htf']; subst.
  destruct tok as [|d tok]; [simpl; rewrite Hc; reflexivity|].
  inversion Htf' as [|? ? Hd _]; subst.
  rewrite (tokens_cons_clean c d _ Hc), Hd.
  rewrite <- (IH ltac:(discriminate) Htf'). reflexivity.
Qed.

End Parser.

(** C5: parseAuthorizationHeader trims the header and splits it on runs of
    white space; it succeeds exactly when two pieces result, returning the
    first lower-cased as scheme and the second unchanged as token, and it
    returns null for any other count.  In the words of the specification:
    the result is decided by the white-space separated tokens of the raw
    header, of which a header may have none, one, two or more. *)
Theorem parseAuthorizationHeader_two_tokens {R : Runtime} (authHeader : jsstring) :
  parseAuthorizationHeader authHeader
  = match split_ws (trim authHeader) with
    | [first; second] => Some {| scheme := toLowerCase first; token := second |}
    | _ => None
    end
  /\ parseAuthorizationHeader authHeader
     = match tokens authHeader with
       | [first; second] => Some {| scheme := toLowerCase first; token := second |}
       | _ => None
       end
  /\ (parseAuthorizationHeader authHeader = None
      <-> length (tokens authHeader) <> 2%nat).
Proof.
  split; [|split].
  - rewrite parse_tokens, split_trim_tokens.
    destruct (tokens authHeader) as [|first [|second [|third more]]]; reflexivity.
  - apply parse_tokens.
  - rewrite parse_tokens.
    destruct (tokens authHeader) as [|first [|second [|third more]]]; simpl;
      split; try congruence; try discriminate; intros H; exfalso; apply H; reflexivity.
Qed.

Lemma cons_inj {A : Type} (x y : A) (l l' : list A) :
  x :: l = y :: l' -> x = y /\ l = l'.
Proof. intros H; injection H; auto. Qed.

(** ** Lower-casing *)

Example toLowerCase_ascii : Node.toLowerCase (lit "BEARER") = lit "bearer".
Proof. reflexivity. Qed.

(** Omicron, delta, omicron, sigma, a space, sigma and a full stop, all
    capitals: the sigma that ends a word takes its final form, the one
    that stands alone does not. *)
Example toLowerCase_final_sigma :
  Node.toLowerCase [0x39F; 0x394; 0x39F; 0x3A3; 0x20; 0x3A3; 0x2E]
  = [0x3BF; 0x3B4; 0x3BF; 0x3C2; 0x20; 0x3C3; 0x2E].
Proof. reflexivity. Qed.

(** U+0130 becomes two code units; U+10400, a surrogate pair, becomes the
    pair of U+10428; U+2102, a capital letter without a lower-case form,
    stays. *)
Example toLowerCase_special :
  Node.toLowerCase [0x130; 0xD801; 0xDC00; 0x2102; 0xD801]
  = [0x69; 0x307; 0xD801; 0xDC28; 0x2102; 0xD801].
Proof. reflexivity. Qed.

Lemma rowPoints_In (n : nat) (lo stride : N) (k : nat) :
  (k < n)%nat -> In (lo + stride * N.of_nat k) (Unicode.rowPoints n lo stride).
Proof.
  revert lo k. induction n as [|n IH]; intros lo k Hk; [inversion Hk|].
  destruct k as [|k]; simpl Unicode.rowPoints.
  - left. simpl. rewrite N.mul_0_r, N.add_0_r. reflexivity.
  - right. replace (lo + stride * N.of_nat (S k)) with (lo + stride + stride * N.of_nat k).
    + apply IH. apply Nat.succ_lt_mono. exact Hk.
    + rewrite Nat2N.inj_succ, N.mul_succ_r. lia.
Qed.

Lemma inRow_points (cp lo hi stride : N) :
  Unicode.inRow cp lo hi stride = true -> In cp (Unicode.points lo hi stride).
Proof.
  unfold Unicode.inRow. intros H.
  apply andb_true_iff in H as [H Hm]. apply andb_true_iff in H as [Hlo Hhi].
  apply N.leb_le in Hlo, Hhi. apply N.eqb_eq in Hm.
  pose proof (N.div_mod' (cp - lo) stride) as Hd. rewrite Hm, N.add_0_r in Hd.
  assert (Hk : (cp - lo) / stride <= (hi - lo) / stride)
    by (apply N.Div0.div_le_mono; lia).
  replace cp with (lo + stride * N.of_nat (N.to_nat ((cp - lo) / stride)))
    by (rewrite N2Nat.id; lia).
  apply rowPoints_In. lia.
Qed.

Lemma lookup_mappings (table : list (N * N * N * N)) (cp lower : N) :
  Unicode.lookup table cp = Some lower -> In (cp, lower) (Unicode.mappings table).
Proof.
  induction table as [|[[[lo hi] stride] target] rows IH]; [discriminate|].
  unfold Unicode.mappings. cbn [Unicode.lookup flat_map].
  destruct (Unicode.inRow cp lo hi stride) eqn:Hrow; intros H; apply in_or_app.
  - left. injection H as <-.
    apply (in_map (fun cp => (cp, target + (cp - lo)))), inRow_points, Hrow.
  - right. apply IH, H.
Qed.

(** What the table is checked for, mapping by mapping: the lower-case
    form has no lower-case form of its own, is not U+0130 and stays below
    U+110000; neither side is a surrogate. *)
Lemma mappings_checked :
  forallb (fun '(cp, lower) =>
             match Unicode.lookup Unicode.lowerTable lower with
             | None => true
             | Some _ => false
             end
             && negb (lower =? 0x130) && (lower <? 0x110000)
             && negb (isHighSurrogate lower) && negb (isLowSurrogate lower)
             && negb (isHighSurrogate cp) && negb (isLowSurrogate cp))
          (Unicode.mappings Unicode.lowerTable) = true.
Proof. vm_compute. reflexivity. Qed.

Lemma lookup_checked (cp lower : N) :
  Unicode.lookup Unicode.lowerTable cp = Some lower ->
  Unicode.lookup Unicode.lowerTable lower = None
  /\ lower <> 0x130 /\ lower < 0x110000
  /\ isHighSurrogate lower = false /\ isLowSurrogate lower = false
  /\ isHighSurrogate cp = false /\ isLowSurrogate cp = false.
Proof.
  intros H. apply lookup_mappings in H.
  pose proof mappings_checked as Hall. rewrite forallb_forall in Hall.
  specialize (Hall _ H). cbv beta iota in Hall.
  repeat (apply andb_true_iff in Hall as [Hall ?]).
  repeat match goal with
         | H : negb _ = true |- _ => apply negb_true_iff in H
         end.
  destruct (Unicode.lookup Unicode.lowerTable lower); [discriminate|].
  repeat split; try assumption.
  - apply N.eqb_neq. assumption.
  - apply N.ltb_lt. assumption.
Qed.

Lemma simpleLower_mapped (cp lower : N) :
  Unicode.lookup Unicode.lowerTable cp = Some lower -> Unicode.simpleLower cp = lower.
Proof. unfold Unicode.simpleLower. intros ->. reflexivity. Qed.

Lemma simpleLower_unmapped (cp : N) :
  Unicode.lookup Unicode.lowerTable cp = None -> Unicode.simpleLower cp = cp.
Proof. unfold Unicode.simpleLower. intros ->. reflexivity. Qed.

(** The simple lower-case form of a code point other than U+0130 is in
    lower case. *)
Lemma simpleLower_lower (cp : N) :
  cp <> 0x130 -> hasLowerCase (Unicode.simpleLower cp) = false.
Proof.
  intros Hcp. unfold hasLowerCase.
  destruct (Unicode.lookup Unicode.lowerTable cp) as [lower|] eqn:Hl.
  - rewrite (simpleLower_mapped cp lower Hl).
    apply lookup_checked in Hl as (Hnone & Hne & _).
    rewrite (simpleLower_unmapped lower Hnone), N.eqb_refl.
    apply N.eqb_neq in Hne. rewrite Hne. reflexivity.
  - rewrite !(simpleLower_unmapped cp Hl), N.eqb_refl.
    apply N.eqb_neq in Hcp. rewrite Hcp. reflexivity.
Qed.

Lemma lowerPoint_cases (finalSigma : bool) (cp : N) :
  lowerPoint finalSigma cp = [0x3C2] \/ lowerPoint finalSigma cp = [0x3C3]
  \/ lowerPoint finalSigma cp = [0x69; 0x307]
  \/ (cp <> 0x130 /\ lowerPoint finalSigma cp = [Unicode.simpleLower cp]).
Proof.
  unfold lowerPoint.
  destruct (cp =? 0x3A3); [destruct finalSigma; auto|].
  destruct (cp =? 0x130) eqn:H; [auto|].
  apply N.eqb_neq in H. auto.
Qed.

Lemma lowerPoint_lower (finalSigma : bool) (cp : N) :
  Forall (fun lower => hasLowerCase lower = false) (lowerPoint finalSigma cp).
Proof.
  destruct (lowerPoint_cases finalSigma cp) as [-> | [-> | [-> | [Hcp ->]]]];
    repeat constructor.
  apply simpleLower_lower, Hcp.
Qed.

(** No code point that [toLowercase] yields has a lower-case form. *)
Lemma toLowercase_lower (before : bool) (cps : list N) :
  Forall (fun lower => hasLowerCase lower = false) (toLowercase before cps).
Proof.
  revert before. induction cps as [|cp rest IH]; intros before; [constructor|].
  cbn [toLowercase]. apply Forall_app. split; [apply lowerPoint_lower | apply IH].
Qed.

Lemma lowerPoint_nonempty (finalSigma : bool) (cp : N) : lowerPoint finalSigma cp <> [].
Proof.
  destruct (lowerPoint_cases finalSigma cp) as [-> | [-> | [-> | [_ ->]]]]; discriminate.
Qed.

Lemma utf16_of_code_point_nonempty (cp : N) : utf16_of_code_point cp <> [].
Proof. unfold utf16_of_code_point. destruct (cp <? 65536); discriminate. Qed.

(** Lower-casing yields the empty string from the empty string only. *)
Lemma toLowerCase_nonempty (s : jsstring) : Node.toLowerCase s = [] -> s = [].
Proof.
  destruct s as [|c rest]; [reflexivity|]. unfold Node.toLowerCase.
  assert (H : exists cp cps, StringToCodePoints (c :: rest) = cp :: cps).
  { cbn [StringToCodePoints]. destruct rest as [|d rest']; [eauto|].
    destruct (isHighSurrogate c && isLowSurrogate d); eauto. }
  destruct H as (cp & cps & ->). cbn [toLowercase].
  destruct (lowerPoint (false && negb (followedByCased cps)) cp) as [|x l] eqn:Hl.
  - exfalso. exact (lowerPoint_nonempty _ _ Hl).
  - cbn [app CodePointsToString flat_map].
    destruct (utf16_of_code_point x) as [|u us] eqn:Hu.
    + exfalso. exact (utf16_of_code_point_nonempty _ Hu).
    + discriminate.
Qed.

(** *** From code points to a string and back *)

Lemma StringToCodePoints_cons (c d : N) (rest : jsstring) :
  StringToCodePoints (c :: d :: rest)
  = if isHighSurrogate c && isLowSurrogate d
    then (65536 + (c - 55296) * 1024 + (d - 56320)) :: StringToCodePoints rest
    else c :: StringToCodePoints (d :: rest).
Proof. reflexivity. Qed.

Lemma isHighSurrogate_range (c : N) :
  isHighSurrogate c = true <-> 55296 <= c <= 56319.
Proof.
  unfold isHighSurrogate. rewrite andb_true_iff, !N.leb_le. reflexivity.
Qed.

Lemma isLowSurrogate_range (c : N) :
  isLowSurrogate c = true <-> 56320 <= c <= 57343.
Proof.
  unfold isLowSurrogate. rewrite andb_true_iff, !N.leb_le. reflexivity.
Qed.

Lemma isLowSurrogate_out (c : N) :
  c < 56320 \/ 57343 < c -> isLowSurrogate c = false.
Proof.
  intros H. apply not_true_is_false. rewrite isLowSurrogate_range. lia.
Qed.

Lemma isHighSurrogate_out (c : N) :
  c < 55296 \/ 56319 < c -> isHighSurrogate c = false.
Proof.
  intros H. apply not_true_is_false. rewrite isHighSurrogate_range. lia.
Qed.

(** A code point above the Basic Multilingual Plane is written as a lead
    and a trail surrogate, which read back as the code point. *)
Lemma surrogate_pair (cp : N) :
  65536 <= cp < 0x110000 ->
  let lead := 55296 + (cp - 65536) / 1024 in
  let trail := 56320 + (cp - 65536) mod 1024 in
  isHighSurrogate lead = true /\ isLowSurrogate trail = true
  /\ 65536 + (lead - 55296) * 1024 + (trail - 56320) = cp.
Proof.
  intros Hcp lead trail. subst lead trail.
  rewrite isHighSurrogate_range, isLowSurrogate_range.
  pose proof (N.div_mod' (cp - 65536) 1024) as Hd.
  pose proof (N.mod_upper_bound (cp - 65536) 1024 ltac:(discriminate)) as Hr.
  assert (Hq : (cp - 65536) / 1024 < 1024)
    by (apply N.Div0.div_lt_upper_bound; lia).
  set (q := (cp - 65536) / 1024) in *. set (r := (cp - 65536) mod 1024) in *.
  clearbody q r. lia.
Qed.

Lemma CodePointsToString_nil (cps : list N) : CodePointsToString cps = [] -> cps = [].
Proof.
  destruct cps as [|cp rest]; [reflexivity|].
  cbn [CodePointsToString flat_map]. intros H.
  apply app_eq_nil in H as [H _]. exfalso. exact (utf16_of_code_point_nonempty _ H).
Qed.

(** The first code unit of the string of [paired] code points that do
    not start with a trail surrogate is not a trail surrogate. *)
Lemma CodePointsToString_head (cps : list N) (d : N) (more : jsstring) :
  paired cps -> headNotLow cps -> CodePointsToString cps = d :: more ->
  isLowSurrogate d = false.
Proof.
  destruct cps as [|cp rest]; [discriminate|].
  intros (Hlt & _) Hhead. cbn [CodePointsToString flat_map].
  unfold utf16_of_code_point. destruct (cp <? 65536) eqn:Hb.
  - intros H. apply cons_inj in H as [<- _]. exact Hhead.
  - apply N.ltb_ge in Hb. intros H. apply cons_inj in H as [<- _].
    destruct (surrogate_pair cp (conj Hb Hlt)) as (Hh & _).
    apply isHighSurrogate_range in Hh. apply isLowSurrogate_out. lia.
Qed.

Lemma StringToCodePoints_CodePointsToString (cps : list N) :
  paired cps -> StringToCodePoints (CodePointsToString cps) = cps.
Proof.
  induction cps as [|cp rest IH]; [reflexivity|].
  intros (Hlt & Hhigh & Hrest). specialize (IH Hrest).
  cbn [CodePointsToString flat_map]. fold (CodePointsToString rest).
  unfold utf16_of_code_point. destruct (cp <? 65536) eqn:Hb.
  - cbn [app]. destruct (CodePointsToString rest) as [|d more] eqn:Hr.
    + apply CodePointsToString_nil in Hr. subst rest. reflexivity.
    + rewrite StringToCodePoints_cons.
      replace (isHighSurrogate cp && isLowSurrogate d) with false; [rewrite IH; reflexivity|].
      destruct (isHighSurrogate cp) eqn:Hh; [|reflexivity].
      rewrite (CodePointsToString_head rest d more Hrest (Hhigh eq_refl) Hr). reflexivity.
  - apply N.ltb_ge in Hb. cbn [app]. rewrite StringToCodePoints_cons.
    destruct (surrogate_pair cp (conj Hb Hlt)) as (-> & -> & ->).
    cbn [andb]. rewrite IH. reflexivity.
Qed.

Lemma StringToCodePoints_head (d : N) (rest : jsstring) :
  exists cp cps, StringToCodePoints (d :: rest) = cp :: cps /\ (cp = d \/ 65536 <= cp).
Proof.
  destruct rest as [|e rest]; [exists d, []; auto|].
  rewrite StringToCodePoints_cons.
  destruct (isHighSurrogate d && isLowSurrogate e); eexists; eexists; split;
    try reflexivity; [right; lia | left; reflexivity].
Qed.

Lemma StringToCodePoints_paired (s : jsstring) :
  Forall (fun c => c < 65536) s -> paired (StringToCodePoints s).
Proof.
  assert (H : forall n s, (length s <= n)%nat ->
              Forall (fun c => c < 65536) s -> paired (StringToCodePoints s)).
  { clear s. induction n as [|n IH]; intros s Hn Hs.
    - destruct s; [exact I | inversion Hn].
    - destruct s as [|c [|d rest]]; [exact I | |].
      + inversion Hs; subst. cbn [StringToCodePoints paired headNotLow].
        split; [lia|]. split; [intros _; exact I | exact I].
      + inversion Hs as [|? ? Hc Hs']; subst. inversion Hs' as [|? ? Hd Hs'']; subst.
        cbn [length] in Hn. rewrite StringToCodePoints_cons.
        destruct (isHighSurrogate c && isLowSurrogate d) eqn:Hpair.
        * apply andb_true_iff in Hpair as [Hh Hl].
          apply isHighSurrogate_range in Hh. apply isLowSurrogate_range in Hl.
          cbn [paired]. repeat split.
          -- lia.
          -- intros Hhigh. apply isHighSurrogate_range in Hhigh. lia.
          -- apply IH; [lia | exact Hs''].
        * cbn [paired]. repeat split.
          -- lia.
          -- intros Hh. rewrite Hh in Hpair. cbn [andb] in Hpair.
             destruct (StringToCodePoints_head d rest) as (cp & cps & -> & [-> | Hcp]);
               [exact Hpair | apply isLowSurrogate_out; lia].
          -- apply IH; [cbn [length]; lia | exact Hs']. }
  apply (H (length s)). apply Nat.le_refl.
Qed.

Lemma simpleLower_bound (cp : N) : cp < 0x110000 -> Unicode.simpleLower cp < 0x110000.
Proof.
  intros Hcp. destruct (Unicode.lookup Unicode.lowerTable cp) as [lower|] eqn:Hl.
  - rewrite (simpleLower_mapped cp lower Hl). apply lookup_checked in Hl. tauto.
  - rewrite (simpleLower_unmapped cp Hl). exact Hcp.
Qed.

Lemma simpleLower_high (cp : N) :
  isHighSurrogate (Unicode.simpleLower cp) = true -> Unicode.simpleLower cp = cp.
Proof.
  destruct (Unicode.lookup Unicode.lowerTable cp) as [lower|] eqn:Hl.
  - rewrite (simpleLower_mapped cp lower Hl). apply lookup_checked in Hl.
    intros H. destruct Hl as (_ & _ & _ & Hh & _). congruence.
  - intros _. apply simpleLower_unmapped, Hl.
Qed.

Lemma simpleLower_low (cp : N) :
  isLowSurrogate cp = false -> isLowSurrogate (Unicode.simpleLower cp) = false.
Proof.
  intros Hcp. destruct (Unicode.lookup Unicode.lowerTable cp) as [lower|] eqn:Hl.
  - rewrite (simpleLower_mapped cp lower Hl). apply lookup_checked in Hl. tauto.
  - rewrite (simpleLower_unmapped cp Hl). exact Hcp.
Qed.

Lemma toLowercase_head (before : bool) (cps : list N) :
  headNotLow cps -> headNotLow (toLowercase before cps).
Proof.
  destruct cps as [|cp rest]; [auto|]. cbn [headNotLow toLowercase]. intros Hcp.
  destruct (lowerPoint_cases (before && negb (followedByCased rest)) cp)
    as [-> | [-> | [-> | [_ ->]]]]; try reflexivity.
  cbn [app headNotLow]. apply simpleLower_low, Hcp.
Qed.

Lemma toLowercase_paired (before : bool) (cps : list N) :
  paired cps -> paired (toLowercase before cps).
Proof.
  revert before. induction cps as [|cp rest IH]; intros before; [auto|].
  intros (Hlt & Hhigh & Hrest). cbn [toLowercase].
  specialize (IH (precededByCased before cp) Hrest).
  destruct (lowerPoint_cases (before && negb (followedByCased rest)) cp)
    as [-> | [-> | [-> | [_ ->]]]]; cbn [app paired].
  - split; [reflexivity|]. split; [intros H; vm_compute in H; discriminate H | exact IH].
  - split; [reflexivity|]. split; [intros H; vm_compute in H; discriminate H | exact IH].
  - split; [reflexivity|]. split; [intros H; vm_compute in H; discriminate H|].
    split; [reflexivity|]. split; [intros H; vm_compute in H; discriminate H | exact IH].
  - repeat split; [apply simpleLower_bound, Hlt | | exact IH].
    intros Hh. pose proof (simpleLower_high cp Hh) as Heq. rewrite Heq in Hh.
    apply toLowercase_head, Hhigh, Hh.
Qed.

(** The code points of a lower-cased string are the lower-cased code
    points of the string. *)
Lemma toLowerCase_code_points (s : jsstring) :
  Forall (fun c => c < 65536) s ->
  StringToCodePoints (Node.toLowerCase s) = toLowercase false (StringToCodePoints s).
Proof.
  intros Hs. unfold Node.toLowerCase.
  apply StringToCodePoints_CodePointsToString, toLowercase_paired,
    StringToCodePoints_paired, Hs.
Qed.

(** *** Latin-1 *)

Lemma StringToCodePoints_plain (s : jsstring) :
  Forall (fun c => isHighSurrogate c = false) s -> StringToCodePoints s = s.
Proof.
  induction 1 as [|c rest Hc _ IH]; [reflexivity|].
  destruct rest as [|d rest]; [reflexivity|].
  rewrite StringToCodePoints_cons, Hc, IH. reflexivity.
Qed.

Lemma latin1_checked :
  forallb (fun c => negb (Unicode.isUppercaseLetter (Unicode.simpleLower c)))
          (Unicode.points 0 255 1) = true.
Proof. vm_compute. reflexivity. Qed.

Lemma latin1_lower (before : bool) (s : jsstring) :
  Forall (fun c => c < 256) s ->
  Forall (fun cp => Unicode.isUppercaseLetter cp = false) (toLowercase before s).
Proof.
  intros Hs. revert before. induction Hs as [|c rest Hc _ IH]; intros before; [constructor|].
  cbn [toLowercase]. apply Forall_app. split; [|apply IH].
  unfold lowerPoint.
  replace (c =? 0x3A3) with false by (symmetry; apply N.eqb_neq; lia).
  replace (c =? 0x130) with false by (symmetry; apply N.eqb_neq; lia).
  constructor; [|constructor].
  pose proof latin1_checked as Hall. rewrite forallb_forall in Hall.
  apply negb_true_iff, Hall, inRow_points. unfold Unicode.inRow.
  rewrite N.sub_0_r, N.mod_1_r.
  replace (0 <=? c) with true by (symmetry; apply N.leb_le; lia).
  replace (c <=? 255) with true by (symmetry; apply N.leb_le; lia).
  reflexivity.
Qed.

Lemma tokens_units (P : N -> Prop) (s : jsstring) :
  Forall P s -> Forall (Forall P) (tokens s).
Proof.
  induction 1 as [|c rest Hc Hrest IH]; [constructor|].
  destruct (isWhiteSpace c) eqn:Hw; [rewrite (tokens_cons_ws c rest Hw); exact IH|].
  destruct rest as [|d r].
  - cbn. rewrite Hw. repeat constructor. exact Hc.
  - rewrite (tokens_cons_clean c d r Hw). destruct (isWhiteSpace d).
    + constructor; [repeat constructor; exact Hc | exact IH].
    + destruct (tokens (d :: r)) as [|t ts]; [repeat constructor; exact Hc|].
      inversion IH; subst. constructor; [constructor; assumption | assumption].
Qed.

(** ** The decision function *)

Lemma nodeRuntime_buffers : NodeBuffers nodeRuntime.
Proof. split; reflexivity. Qed.

Section Decision.

Context {R : Runtime} {E : Settings}.

Lemma validate_exempted (authHeader : option jsstring) (path : jsstring) :
  isExemptedPath path = true ->
  validateBearerAuth authHeader path = exempted_success.
Proof. intros H. unfold validateBearerAuth. rewrite H. reflexivity. Qed.

Lemma validate_missing (authHeader : option jsstring) (path : jsstring) :
  isExemptedPath path = false ->
  authHeader = None \/ (exists h, authHeader = Some h /\ trim h = []) ->
  failure (validateBearerAuth authHeader path) MissingAuthorization.
Proof.
  intros Hp H. unfold validateBearerAuth. rewrite Hp.
  destruct H as [-> | (h & -> & Ht)]; [split; reflexivity|].
  rewrite Ht. cbn [lit list_ascii_of_string map str_eqb].
  rewrite orb_true_r. split; reflexivity.
Qed.

(** Past the presence check, the decision is that of the parser, the
    scheme test, the emptiness test and the token validator, in this
    order. *)
Lemma validate_present (h path : jsstring) :
  isExemptedPath path = false -> trim h <> [] ->
  validateBearerAuth (Some h) path
  = match parseAuthorizationHeader h with
    | None =>
        {| success := false; exempted := None; error := Some MalformedHeader;
           message := Some (lit "Malformed Authorization header. Format: Authorization: Bearer <token>") |}
    | Some parsed =>
        if negb (str_eqb (scheme parsed) (lit "bearer")) then
          {| success := false; exempted := None; error := Some InvalidScheme;
             message := Some (lit "Authorization header must use Bearer scheme. Format: Authorization: Bearer <token>") |}
        else if falsy (token parsed) then
          {| success := false; exempted := None; error := Some MalformedHeader;
             message := Some (lit "Bearer token cannot be empty. Format: Authorization: Bearer <token>") |}
        else if negb (isValidToken (token parsed)) then
          {| success := false; exempted := None; error := Some InvalidToken;
             message := Some (lit "Invalid Bearer token. Please check your authentication credentials.") |}
        else plain_success
    end.
Proof.
  intros Hp Ht. unfold validateBearerAuth. rewrite Hp.
  assert (Hh : falsy h = false).
  { apply falsy_false. intros ->. apply Ht. reflexivity. }
  assert (Hs : str_eqb (trim h) (lit "") = false) by (apply str_eqb_neq; exact Ht).
  rewrite Hh, Hs. cbn [orb].
  destruct (parseAuthorizationHeader h) as [parsed|]; [|reflexivity].
  destruct (negb (str_eqb (scheme parsed) (lit "bearer"))); [reflexivity|].
  replace (str_eqb (token parsed) (lit "")) with (falsy (token parsed))
    by (destruct (token parsed); reflexivity).
  rewrite orb_diag. reflexivity.
Qed.

(** The decision function computes the transition logic of the
    specification. *)
Lemma validateBearerAuth_transition (authHeader : option jsstring) (path : jsstring) :
  outcome (validateBearerAuth authHeader path) = Some (transition authHeader path).
Proof.
  unfold transition.
  destruct (isExemptedPath path) eqn:Hp.
  - rewrite (validate_exempted authHeader path Hp). reflexivity.
  - destruct authHeader as [h|].
    + destruct (falsy (trim h)) eqn:Ht.
      * apply falsy_true in Ht.
        destruct (validate_missing (Some h) path Hp) as [Hs He]; [eauto|].
        unfold outcome. rewrite Hs, He.
        unfold validateBearerAuth. rewrite Hp, Ht. cbn [lit list_ascii_of_string map str_eqb].
        rewrite orb_true_r. reflexivity.
      * apply falsy_false in Ht. rewrite (validate_present h path Hp Ht), parse_tokens.
        destruct (tokens h) as [|first [|second [|third more]]]; try reflexivity.
        cbn [scheme token].
        destruct (negb (str_eqb (toLowerCase first) (lit "bearer"))); [reflexivity|].
        destruct (falsy second); [reflexivity|].
        destruct (negb (isValidToken second)); reflexivity.
    + unfold validateBearerAuth. rewrite Hp. reflexivity.
Qed.

End Decision.

(** C1: for a path that is not exempted, validateBearerAuth takes the
    first of these steps that applies: a header that is absent or trims to
    the empty string fails with "Missing authorization"; a header that
    does not have exactly two white-space separated tokens fails with
    "Malformed header"; a first token whose lower-casing is not "bearer"
    fails with "Invalid scheme"; an empty second token fails with
    "Malformed header"; a second token that no configured token matches
    fails with "Invalid token"; anything else succeeds.  The result is the
    state the transition logic of the specification reaches. *)
Theorem validateBearerAuth_first_match {R : Runtime} {E : Settings}
  (authHeader : option jsstring) (path : jsstring) :
  isExemptedPath path = false ->
  let result := validateBearerAuth authHeader path in
  outcome result = Some (transition authHeader path)
  /\ ((authHeader = None \/ exists h, authHeader = Some h /\ trim h = []) ->
      failure result MissingAuthorization)
  /\ (forall h, authHeader = Some h -> trim h <> [] ->
      (length (tokens h) <> 2%nat -> failure result MalformedHeader)
      /\ (forall first second, tokens h = [first; second] ->
          (toLowerCase first <> lit "bearer" -> failure result InvalidScheme)
          /\ (toLowerCase first = lit "bearer" ->
              (second = [] -> failure result MalformedHeader)
              /\ (second <> [] ->
                  (isValidToken second = false -> failure result InvalidToken)
                  /\ (isValidToken second = true -> result = plain_success))))).
Proof.
  intros Hp result. split; [apply validateBearerAuth_transition|].
  split; [apply validate_missing; exact Hp|].
  intros h -> Ht. subst result. rewrite (validate_present h path Hp Ht).
  rewrite parse_tokens. split.
  - intros Hlen.
    destruct (tokens h) as [|first [|second [|third more]]];
      try (split; reflexivity). exfalso; apply Hlen; reflexivity.
  - intros first second ->. cbn [scheme token]. split.
    + intros Hs. apply str_eqb_neq in Hs. rewrite Hs. split; reflexivity.
    + intros Hs. apply str_eqb_eq in Hs. rewrite Hs. cbn [negb]. split.
      * intros ->. split; reflexivity.
      * intros Hne. apply falsy_false in Hne. rewrite Hne. split.
        -- intros ->. split; reflexivity.
        -- intros ->. reflexivity.
Qed.

Lemma validateBearerAuth_first_match_witness :
  let R := nodeRuntime in
  let E := deployment [lit "secret1"; lit "secret2"] true in
  isExemptedPath (lit "/api/orders") = false
  /\ validateBearerAuth (Some (lit "Bearer secret1")) (lit "/api/orders") = plain_success
  /\ failure (validateBearerAuth (Some (lit "Basic abc")) (lit "/api/orders")) InvalidScheme
  /\ failure (validateBearerAuth (Some (lit "Bearer wrongtoken")) (lit "/api/orders"))
       InvalidToken
  /\ failure (validateBearerAuth None (lit "/api/orders")) MissingAuthorization.
Proof.
  intros R E. split; [reflexivity|]. split; [|split; [|split]].
  - destruct (validateBearerAuth_first_match (R := R) (E := E)
                (Some (lit "Bearer secret1")) (lit "/api/orders") eq_refl)
      as (_ & _ & Hpresent).
    apply (Hpresent (lit "Bearer secret1") eq_refl ltac:(discriminate))
      with (first := lit "Bearer") (second := lit "secret1");
      try reflexivity; discriminate.
  - destruct (validateBearerAuth_first_match (R := R) (E := E)
                (Some (lit "Basic abc")) (lit "/api/orders") eq_refl)
      as (_ & _ & Hpresent).
    apply (Hpresent (lit "Basic abc") eq_refl ltac:(discriminate))
      with (first := lit "Basic") (second := lit "abc");
      try reflexivity; discriminate.
  - destruct (validateBearerAuth_first_match (R := R) (E := E)
                (Some (lit "Bearer wrongtoken")) (lit "/api/orders") eq_refl)
      as (_ & _ & Hpresent).
    apply (Hpresent (lit "Bearer wrongtoken") eq_refl ltac:(discriminate))
      with (first := lit "Bearer") (second := lit "wrongtoken");
      try reflexivity; discriminate.
  - destruct (validateBearerAuth_first_match (R := R) (E := E)
                None (lit "/api/orders") eq_refl) as (_ & Hmissing & _).
    apply Hmissing. left; reflexivity.
Defined.

(** C6: when the path is exempted, validateBearerAuth returns the
    exempted success whatever the Authorization header is, absent or
    present, well-formed or not; the header, the runtime and the configured
    tokens play no part in the result. *)
Theorem validateBearerAuth_exempted {R : Runtime} {E : Settings}
  (authHeader : option jsstring) (path : jsstring) :
  isExemptedPath path = true ->
  validateBearerAuth authHeader path
  = {| success := true; exempted := Some true; error := None; message := None |}.
Proof. apply validate_exempted. Qed.

Lemma validateBearerAuth_exempted_witness :
  let R := nodeRuntime in
  let E := healthExempted [lit "secret1"] in
  isExemptedPath (lit "/api/health/detailed") = true
  /\ validateBearerAuth None (lit "/api/health/detailed")
     = {| success := true; exempted := Some true; error := None; message := None |}.
Proof.
  intros R E. split; [reflexivity|].
  apply (validateBearerAuth_exempted (R := R) (E := E) None
           (lit "/api/health/detailed")).
  reflexivity.
Defined.

(** C7: isExemptedPath holds exactly when the path is an exempted entry
    or an exempted entry followed by "/" and anything; hence it fails for
    every path when the set is empty, as it is in the source. *)
Theorem isExemptedPath_exact_or_subpath {E : Settings} (path : jsstring) :
  (isExemptedPath path = true
   <-> exists exemptedPath, In exemptedPath EXEMPTED_PATHS
       /\ (path = exemptedPath
           \/ exists rest, path = exemptedPath ++ lit "/" ++ rest))
  /\ (EXEMPTED_PATHS = [] -> isExemptedPath path = false)
  /\ EXEMPTED_PATHS_src = []
  /\ (forall validTokens logging,
        isExemptedPath (E := deployment validTokens logging) path = false).
Proof.
  split; [|split; [|split]].
  - unfold isExemptedPath. rewrite existsb_exists.
    split; intros (e & Hin & H); exists e; (split; [exact Hin|]).
    + apply orb_true_iff in H as [H | H].
      * left. apply str_eqb_eq, H.
      * right. apply startsWith_prefix in H as [rest ->].
        exists rest. rewrite <- app_assoc. reflexivity.
    + apply orb_true_iff. destruct H as [-> | [rest ->]].
      * left. apply str_eqb_refl.
      * right. apply startsWith_prefix. exists rest.
        rewrite <- app_assoc. reflexivity.
  - intros H. unfold isExemptedPath. rewrite H. reflexivity.
  - reflexivity.
  - intros validTokens logging. reflexivity.
Qed.

(** C10, the part that does not hold: the scheme of a parsed header can
    contain an upper-case letter.  U+2102, the double-struck capital C,
    is an upper-case letter (general category Lu) without a lower-case
    form, and [toLowerCase] leaves it as it is. *)
Lemma parsed_scheme_keeps_capital :
  let authHeader := [0x2102; 0x20; 0x78] in
  parseAuthorizationHeader (R := nodeRuntime) authHeader
  = Some {| scheme := [0x2102]; token := lit "x" |}
  /\ Unicode.isUppercaseLetter 0x2102 = true.
Proof. split; reflexivity. Qed.

(** C10: a result of parseAuthorizationHeader has a non-empty scheme and
    a non-empty token.  No code point of the scheme has a lower-case
    form: lower-casing has replaced every letter that has one.  When the
    header is made of Latin-1 code units, as the value of an HTTP header
    is, no code point of the scheme is an upper-case letter at all.  The
    guard of the "Bearer token cannot be empty" branch of
    validateBearerAuth is false whenever it is evaluated and no header
    gets that message, whatever the runtime; the header "Bearer " has one
    token and is rejected by the parser. *)
Theorem parsed_fields_nonempty :
  (forall authHeader parsed,
     parseAuthorizationHeader (R := nodeRuntime) authHeader = Some parsed ->
     scheme parsed <> [] /\ token parsed <> []
     /\ (Forall (fun c => c < 65536) authHeader ->
         Forall (fun cp => hasLowerCase cp = false)
                (StringToCodePoints (scheme parsed)))
     /\ (Forall (fun c => c < 256) authHeader ->
         Forall (fun cp => Unicode.isUppercaseLetter cp = false)
                (StringToCodePoints (scheme parsed)))
     /\ (falsy (token parsed) || str_eqb (token parsed) (lit "")) = false)
  /\ (forall (R : Runtime) (E : Settings) authHeader path,
        message (validateBearerAuth authHeader path)
        <> Some (lit "Bearer token cannot be empty. Format: Authorization: Bearer <token>"))
  /\ (tokens (lit "Bearer ") = [lit "Bearer"]
      /\ forall R : Runtime, parseAuthorizationHeader (lit "Bearer ") = None).
Proof.
  assert (Htoken : forall (R : Runtime) authHeader parsed,
     parseAuthorizationHeader authHeader = Some parsed ->
     token parsed <> []
     /\ (falsy (token parsed) || str_eqb (token parsed) (lit "")) = false).
  { intros R authHeader parsed H.
    apply parse_some in H as (first & second & _ & _ & Hs & _ & ->).
    cbn [token]. split; [exact Hs|].
    destruct second; [congruence | reflexivity]. }
  split; [|split].
  - intros authHeader parsed H.
    destruct (Htoken nodeRuntime authHeader parsed H) as [Ht Hguard].
    apply parse_some in H as (first & second & Htokens & Hf & _ & _ & ->).
    cbn [scheme token] in *. change (toLowerCase first) with (Node.toLowerCase first).
    assert (Hfirst : forall P : N -> Prop, Forall P authHeader -> Forall P first).
    { intros P HP. apply (tokens_units P) in HP. rewrite Htokens in HP.
      inversion HP; assumption. }
    repeat split.
    + intros H0. apply Hf, toLowerCase_nonempty, H0.
    + exact Ht.
    + intros Hunits. rewrite toLowerCase_code_points by (apply Hfirst, Hunits).
      apply toLowercase_lower.
    + intros Hlatin.
      assert (H16 : Forall (fun c => c < 65536) first).
      { apply Hfirst. revert Hlatin. apply Forall_impl. intros c Hc. lia. }
      rewrite (toLowerCase_code_points first H16).
      rewrite StringToCodePoints_plain.
      * apply latin1_lower, Hfirst, Hlatin.
      * apply Hfirst. revert Hlatin. apply Forall_impl. intros c Hc.
        apply isHighSurrogate_out. lia.
    + exact Hguard.
  - intros R E authHeader path.
    assert (Hfirst : forall m : option jsstring,
              match m with Some (c :: _) => c | _ => 0 end <> 66 ->
              m <> Some (lit "Bearer token cannot be empty. Format: Authorization: Bearer <token>")).
    { intros m Hm ->. apply Hm. reflexivity. }
    unfold validateBearerAuth.
    destruct (isExemptedPath path); [discriminate|].
    destruct authHeader as [h|]; [|apply Hfirst; discriminate].
    destruct (falsy h || str_eqb (trim h) (lit "")); [apply Hfirst; discriminate|].
    destruct (parseAuthorizationHeader h) as [parsed|] eqn:Hp;
      [|apply Hfirst; discriminate].
    destruct (negb (str_eqb (scheme parsed) (lit "bearer")));
      [apply Hfirst; discriminate|].
    destruct (Htoken R h parsed Hp) as (_ & ->).
    destruct (negb (isValidToken (token parsed)));
      [apply Hfirst; discriminate | discriminate].
  - split; [reflexivity|]. intros R. rewrite parse_tokens. reflexivity.
Qed.

Lemma parsed_fields_nonempty_witness :
  parseAuthorizationHeader (R := nodeRuntime) (lit "BEARER  Tok")
  = Some {| scheme := lit "bearer"; token := lit "Tok" |}
  /\ lit "bearer" <> [] /\ lit "Tok" <> []
  /\ Forall (fun cp => Unicode.isUppercaseLetter cp = false)
            (StringToCodePoints (lit "bearer")).
Proof.
  split; [reflexivity|].
  destruct parsed_fields_nonempty as [H _].
  destruct (H (lit "BEARER  Tok") {| scheme := lit "bearer"; token := lit "Tok" |} eq_refl)
    as (Hs & Ht & _ & Hl & _).
  split; [exact Hs|]. split; [exact Ht|].
  apply Hl. repeat constructor.
Defined.

(** ** UTF-8: distinct well-formed strings have distinct bytes *)

Ltac Zify.zify_post_hook ::= Z.to_euclidean_division_equations.

Ltac split_cons :=
  repeat match goal with
         | H : _ :: _ = _ :: _ |- _ =>
             apply cons_inj in H; destruct H
         end.

Ltac cancel_lead :=
  repeat match goal with
         | H : ?k + _ = ?k + _ |- _ => apply N.add_cancel_l in H
         end.

Lemma radix64_2 (cp : N) : cp = 64 * (cp / 64) + cp mod 64.
Proof. apply N.div_mod'. Qed.

Lemma radix64_3 (cp : N) :
  cp = 4096 * (cp / 4096) + 64 * ((cp / 64) mod 64) + cp mod 64.
Proof.
  pose proof (N.div_mod' cp 64) as H0.
  pose proof (N.div_mod' (cp / 64) 64) as H1.
  rewrite N.Div0.div_div in H1. change (64 * 64) with 4096 in H1.
  rewrite H0 at 1. rewrite H1 at 1. rewrite N.mul_add_distr_l, N.mul_assoc.
  reflexivity.
Qed.

Lemma radix64_4 (cp : N) :
  cp = 262144 * (cp / 262144) + 4096 * ((cp / 4096) mod 64)
       + 64 * ((cp / 64) mod 64) + cp mod 64.
Proof.
  pose proof (radix64_3 cp) as H0.
  pose proof (N.div_mod' (cp / 4096) 64) as H1.
  rewrite N.Div0.div_div in H1. change (4096 * 64) with 262144 in H1.
  rewrite H0 at 1. rewrite H1 at 1. rewrite N.mul_add_distr_l, N.mul_assoc.
  reflexivity.
Qed.

(** The encoding of a code point is never a proper prefix of another's,
    and determines the code point. *)
Lemma utf8_of_code_point_prefix_free (cp1 cp2 : N) (r1 r2 : Node.Buffer) :
  cp1 < 1114112 -> cp2 < 1114112 ->
  Node.utf8_of_code_point cp1 ++ r1 = Node.utf8_of_code_point cp2 ++ r2 ->
  cp1 = cp2 /\ r1 = r2.
Proof.
  intros H1 H2. unfold Node.utf8_of_code_point.
  destruct (N.ltb_spec cp1 128);
    [|destruct (N.ltb_spec cp1 2048); [|destruct (N.ltb_spec cp1 65536)]];
    (destruct (N.ltb_spec cp2 128);
       [|destruct (N.ltb_spec cp2 2048); [|destruct (N.ltb_spec cp2 65536)]]);
    cbn [app]; intros Heq; split_cons;
    try (exfalso; lia); cancel_lead; (split; [|assumption]).
  - assumption.
  - pose proof (radix64_2 cp1); pose proof (radix64_2 cp2); congruence.
  - pose proof (radix64_3 cp1); pose proof (radix64_3 cp2); congruence.
  - pose proof (radix64_4 cp1); pose proof (radix64_4 cp2); congruence.
Qed.

Lemma utf8_of_code_point_cons (cp : N) :
  exists byte bytes, Node.utf8_of_code_point cp = byte :: bytes.
Proof.
  unfold Node.utf8_of_code_point.
  destruct (cp <? 128); [eauto|]. destruct (cp <? 2048); [eauto|].
  destruct (cp <? 65536); eauto.
Qed.

(** A non-empty well-formed string starts with the code units of a code
    point, which its encoding starts with the bytes of. *)
Lemma wellFormed_uncons (s : jsstring) :
  wellFormed s = true -> s <> [] ->
  exists cp rest,
    cp < 1114112 /\ s = utf16_of_code_point cp ++ rest
    /\ wellFormed rest = true
    /\ Node.utf8_encode s = Node.utf8_of_code_point cp ++ Node.utf8_encode rest
    /\ (length rest < length s)%nat.
Proof.
  destruct s as [|c rest]; [congruence|]. intros Hwf _. revert Hwf.
  cbn [wellFormed Node.utf8_encode].
  destruct (isHighSurrogate c) eqn:Hh.
  - destruct rest as [|d rest']; [discriminate|].
    intros Hwf. apply andb_true_iff in Hwf as [Hl Hwf]. rewrite Hl.
    unfold isHighSurrogate in Hh. unfold isLowSurrogate in Hl.
    apply andb_true_iff in Hh as [Hh1 Hh2]. apply andb_true_iff in Hl as [Hl1 Hl2].
    apply N.leb_le in Hh1, Hh2, Hl1, Hl2.
    exists (65536 + (c - 55296) * 1024 + (d - 56320)), rest'.
    split; [lia|]. split; [|split; [exact Hwf | split; [reflexivity | simpl; lia]]].
    unfold utf16_of_code_point.
    replace (65536 + (c - 55296) * 1024 + (d - 56320) <? 65536) with false
      by (symmetry; apply N.ltb_ge; lia).
    cbn [app]. f_equal; [lia | f_equal; lia].
  - intros Hwf. apply andb_true_iff in Hwf as [Hwf Hrest].
    apply andb_true_iff in Hwf as [Hc Hl]. apply negb_true_iff in Hl. rewrite Hl.
    exists c, rest. apply N.ltb_lt in Hc as Hc'.
    split; [lia|]. unfold utf16_of_code_point. rewrite Hc.
    repeat split; [exact Hrest | simpl; lia].
Qed.

Lemma utf8_encode_injective (n : nat) :
  forall a b, (length a <= n)%nat ->
    wellFormed a = true -> wellFormed b = true ->
    Node.utf8_encode a = Node.utf8_encode b -> a = b.
Proof.
  induction n as [|n IH]; intros a b Hlen Ha Hb Heq.
  - destruct a; [|simpl in Hlen; lia].
    destruct b as [|y b]; [reflexivity|].
    destruct (wellFormed_uncons (y :: b) Hb ltac:(discriminate))
      as (cp & rest & _ & _ & _ & He & _).
    rewrite He in Heq. destruct (utf8_of_code_point_cons cp) as (x & xs & Hx).
    rewrite Hx in Heq. discriminate.
  - destruct a as [|x a].
    + destruct b as [|y b]; [reflexivity|].
      destruct (wellFormed_uncons (y :: b) Hb ltac:(discriminate))
        as (cp & rest & _ & _ & _ & He & _).
      rewrite He in Heq. destruct (utf8_of_code_point_cons cp) as (z & zs & Hz).
      rewrite Hz in Heq. discriminate.
    + destruct (wellFormed_uncons (x :: a) Ha ltac:(discriminate))
        as (cp1 & rest1 & Hcp1 & Hs1 & Hwf1 & He1 & Hl1).
      destruct b as [|y b].
      * rewrite He1 in Heq. destruct (utf8_of_code_point_cons cp1) as (z & zs & Hz).
        rewrite Hz in Heq. discriminate.
      * destruct (wellFormed_uncons (y :: b) Hb ltac:(discriminate))
          as (cp2 & rest2 & Hcp2 & Hs2 & Hwf2 & He2 & _).
        rewrite He1, He2 in Heq.
        destruct (utf8_of_code_point_prefix_free _ _ _ _ Hcp1 Hcp2 Heq) as [-> Hrest].
        rewrite Hs1, Hs2. f_equal. apply IH; try assumption.
        simpl in Hlen, Hl1. lia.
Qed.

Lemma utf8_encode_eq_iff (a b : jsstring) :
  wellFormed a = true -> wellFormed b = true ->
  (Node.utf8_encode a = Node.utf8_encode b <-> a = b).
Proof.
  intros Ha Hb. split; [|intros ->; reflexivity].
  apply (utf8_encode_injective (length a)); auto.
Qed.

(** ** The comparator and the validator *)

Lemma xor_fold_acc (a b : Node.Buffer) (acc : N) :
  length a = length b ->
  (fold_left (fun acc xy => N.lor acc (N.lxor (fst xy) (snd xy))) (combine a b) acc = 0
   <-> acc = 0 /\ a = b).
Proof.
  revert b acc; induction a as [|x a IH]; intros [|y b] acc Hlen;
    try discriminate; simpl.
  - tauto.
  - injection Hlen as Hlen. rewrite (IH b _ Hlen), N.lor_eq_0_iff, N.lxor_eq_0_iff.
    split.
    + intros [[-> ->] ->]. auto.
    + intros [-> H]. injection H as -> ->. auto.
Qed.

Lemma timingSafeEqual_eq (a b : Node.Buffer) :
  length a = length b ->
  exists r, Node.timingSafeEqual a b = Ok r /\ (r = true <-> a = b).
Proof.
  intros Hlen. unfold Node.timingSafeEqual. rewrite Hlen, Nat.eqb_refl.
  eexists; split; [reflexivity|].
  rewrite N.eqb_eq. unfold Node.xor_fold. rewrite (xor_fold_acc a b 0 Hlen). tauto.
Qed.

Section Comparator.

Context {R : Runtime}.

Lemma compareTokens_node (B : NodeBuffers R) (a b : jsstring) :
  compareTokens a b = true <-> Node.utf8_encode a = Node.utf8_encode b.
Proof.
  unfold compareTokens, compareTokens_try.
  rewrite !Buffer_from_utf8. cbn [bind].
  destruct (Nat.eqb (length (Node.utf8_encode a)) (length (Node.utf8_encode b))) eqn:Hlen.
  - apply Nat.eqb_eq in Hlen. cbn [negb]. rewrite timingSafeEqual_node.
    destruct (timingSafeEqual_eq _ _ Hlen) as (r & -> & Hr). exact Hr.
  - apply Nat.eqb_neq in Hlen. cbn [negb try_catch]. split; [discriminate|].
    intros H. rewrite H in Hlen. congruence.
Qed.

Lemma isValidToken_loop_exists (candidate : jsstring) (validTokens : list jsstring) :
  isValidToken_loop candidate validTokens = true
  <-> exists validToken,
        In validToken validTokens /\ compareTokens candidate validToken = true.
Proof.
  induction validTokens as [|v vs IH]; simpl.
  - split; [discriminate | intros (? & [] & _)].
  - destruct (compareTokens candidate v) eqn:Hv.
    + split; [intros _; exists v; auto | reflexivity].
    + rewrite IH. split; intros (v' & Hin & Hc); exists v'.
      * auto.
      * destruct Hin as [<- | Hin]; [congruence | auto].
Qed.

End Comparator.

(** C2: compareTokens answers true exactly when the two strings have the
    same bytes, the bytes being those of the buffers it builds from them;
    when the two byte lengths differ it answers false.  For well-formed
    strings, having the same bytes is being the same string. *)
Theorem compareTokens_byte_identical {R : Runtime} (B : NodeBuffers R)
  (a b : jsstring) :
  (compareTokens a b = true <-> Node.utf8_encode a = Node.utf8_encode b)
  /\ (length (Node.utf8_encode a) <> length (Node.utf8_encode b) ->
      compareTokens a b = false)
  /\ (wellFormed a = true -> wellFormed b = true ->
      (compareTokens a b = true <-> a = b)).
Proof.
  split; [apply compareTokens_node, B|]. split.
  - intros Hlen. destruct (compareTokens a b) eqn:H; [|reflexivity].
    apply (compareTokens_node B) in H. rewrite H in Hlen. congruence.
  - intros Ha Hb. rewrite (compareTokens_node B).
    apply utf8_encode_eq_iff; assumption.
Qed.

Lemma compareTokens_byte_identical_witness :
  compareTokens (R := nodeRuntime) (lit "token123") (lit "token123") = true
  /\ compareTokens (R := nodeRuntime) (lit "token123") (lit "token4567") = false
  /\ compareTokens (R := nodeRuntime) (lit "token123") (lit "token456") = false.
Proof.
  split; [|split].
  - destruct (compareTokens_byte_identical (R := nodeRuntime) nodeRuntime_buffers
                (lit "token123") (lit "token123")) as (Hbytes & _ & _).
    apply Hbytes. reflexivity.
  - destruct (compareTokens_byte_identical (R := nodeRuntime) nodeRuntime_buffers
                (lit "token123") (lit "token4567")) as (_ & Hlen & _).
    apply Hlen. simpl. discriminate.
  - destruct (compareTokens_byte_identical (R := nodeRuntime) nodeRuntime_buffers
                (lit "token123") (lit "token456")) as (_ & _ & Hwf).
    apply not_true_is_false. intros Hc.
    apply (Hwf eq_refl eq_refl) in Hc. discriminate Hc.
Defined.

(** C4: isValidToken answers true exactly when the candidate has the
    same bytes as some entry of the configured token set, which for
    well-formed strings is being an entry of the set; with an empty set it
    answers false for every candidate. *)
Theorem isValidToken_any_entry {R : Runtime} {E : Settings} (B : NodeBuffers R)
  (candidate : jsstring) :
  (isValidToken candidate = true
   <-> exists validToken, In validToken getBearerTokens
       /\ Node.utf8_encode candidate = Node.utf8_encode validToken)
  /\ (getBearerTokens = [] -> isValidToken candidate = false)
  /\ (wellFormed candidate = true ->
      Forall (fun validToken => wellFormed validToken = true) getBearerTokens ->
      (isValidToken candidate = true <-> In candidate getBearerTokens)).
Proof.
  unfold isValidToken. split; [|split].
  - rewrite isValidToken_loop_exists.
    split; intros (v & Hin & H); exists v; (split; [exact Hin|]);
      apply (compareTokens_node B); exact H.
  - intros ->. reflexivity.
  - intros Hc Hall. rewrite isValidToken_loop_exists. split.
    + intros (v & Hin & H). apply (compareTokens_node B) in H.
      rewrite Forall_forall in Hall.
      apply (utf8_encode_eq_iff _ _ Hc (Hall v Hin)) in H. subst v. exact Hin.
    + intros Hin. exists candidate. split; [exact Hin|].
      apply (compareTokens_node B). reflexivity.
Qed.

Lemma isValidToken_any_entry_witness :
  let R := nodeRuntime in
  let E := deployment [lit "t1"; lit "t2"] false in
  isValidToken (lit "t2") = true /\ isValidToken (lit "t3") = false
  /\ isValidToken (E := deployment [] false) (lit "t1") = false.
Proof.
  intros R E. split; [|split].
  - destruct (isValidToken_any_entry (R := R) (E := E) nodeRuntime_buffers (lit "t2"))
      as (Hbytes & _ & _).
    apply Hbytes. exists (lit "t2"). split; [right; left; reflexivity | reflexivity].
  - destruct (isValidToken_any_entry (R := R) (E := E) nodeRuntime_buffers (lit "t3"))
      as (_ & _ & Hwf).
    apply not_true_is_false. intros Hv.
    assert (Hall : Forall (fun v => wellFormed v = true) (@getBearerTokens E))
      by (repeat constructor).
    apply (Hwf eq_refl Hall) in Hv.
    destruct Hv as [Hv | [Hv | []]]; discriminate Hv.
  - destruct (isValidToken_any_entry (R := R) (E := deployment [] false)
                nodeRuntime_buffers (lit "t1")) as (_ & Hempty & _).
    apply Hempty. reflexivity.
Defined.

(** ** The middleware *)

Section Middleware.

Context {R : Runtime} {E : Settings}.

Lemma validate_failure_fields (authHeader : option jsstring) (path : jsstring) :
  success (validateBearerAuth authHeader path) = false ->
  exists e m,
    error (validateBearerAuth authHeader path) = Some e
    /\ message (validateBearerAuth authHeader path) = Some m.
Proof.
  unfold validateBearerAuth.
  destruct (isExemptedPath path); [discriminate|].
  destruct authHeader as [h|]; [|cbn; eauto].
  destruct (falsy h || str_eqb (trim h) (lit "")); [cbn; eauto|].
  destruct (parseAuthorizationHeader h) as [parsed|]; [|cbn; eauto].
  destruct (negb (str_eqb (scheme parsed) (lit "bearer"))); [cbn; eauto|].
  destruct (falsy (token parsed) || str_eqb (token parsed) (lit "")); [cbn; eauto|].
  destruct (negb (isValidToken (token parsed))); [cbn; eauto | discriminate].
Qed.

Lemma logAuthenticationFailure_keeps (event : jsstring) (details : JsObject) (w : World) :
  let w' := logAuthenticationFailure event details w in
  statusCode w' = statusCode w /\ body w' = body w /\ nextCalls w' = nextCalls w
  /\ dates w' = (dates w + if getLogSecurityEvents then 1 else 0)%nat.
Proof.
  unfold logAuthenticationFailure. destruct getLogSecurityEvents; cbn.
  - repeat split. rewrite Nat.add_1_r. reflexivity.
  - repeat split. rewrite Nat.add_0_r. reflexivity.
Qed.

Lemma bearerAuth_success (req : Request) (w : World) :
  success (validateBearerAuth (req_get req (lit "Authorization")) (req_path req)) = true ->
  bearerAuth req w = next w.
Proof. intros H. unfold bearerAuth. rewrite H. reflexivity. Qed.

Lemma bearerAuth_failure (req : Request) (w : World) (e : AuthError) (m : jsstring) :
  let result := validateBearerAuth (req_get req (lit "Authorization")) (req_path req) in
  success result = false -> error result = Some e -> message result = Some m ->
  statusCode (bearerAuth req w) = Some 401
  /\ body (bearerAuth req w)
     = Some [(lit "success", VBool false);
             (lit "error", VString (AuthError_text e));
             (lit "message", VString m);
             (lit "timestamp",
              VString (Date_toISOString
                         (dates w + if getLogSecurityEvents then 1 else 0)%nat))]
  /\ nextCalls (bearerAuth req w) = nextCalls w
  /\ dates (bearerAuth req w)
     = S (dates w + if getLogSecurityEvents then 1 else 0)%nat.
Proof.
  intros result Hs He Hm. unfold bearerAuth. fold result. rewrite Hs, He, Hm.
  cbn [negb of_error_opt of_string_opt].
  match goal with
  | |- context [logAuthenticationFailure ?ev ?d w] =>
      pose proof (logAuthenticationFailure_keeps ev d w) as (_ & _ & Hn & Hd);
      set (w1 := logAuthenticationFailure ev d w) in *
  end.
  cbn. rewrite Hd, Hn. repeat split.
Qed.

End Middleware.

(** C8: whatever exception the buffer construction or the equality
    primitive raises, compareTokens answers false: it neither answers true
    nor lets the exception out.  Hence a call of the middleware ends in a
    call of next or in a 401, also on a runtime whose primitives throw. *)
Theorem compareTokens_fault_is_mismatch {R : Runtime}
  (providedToken validToken : jsstring) :
  (forall e, compareTokens_try providedToken validToken = Throw e ->
             compareTokens providedToken validToken = false)
  /\ (forall e, Buffer_from providedToken = Throw e ->
                compareTokens providedToken validToken = false)
  /\ (forall e providedBuffer,
        Buffer_from providedToken = Ok providedBuffer ->
        Buffer_from validToken = Throw e ->
        compareTokens providedToken validToken = false)
  /\ (forall e providedBuffer validBuffer,
        Buffer_from providedToken = Ok providedBuffer ->
        Buffer_from validToken = Ok validBuffer ->
        timingSafeEqual providedBuffer validBuffer = Throw e ->
        compareTokens providedToken validToken = false)
  /\ (forall (E : Settings) req w,
        bearerAuth req w = next w \/ statusCode (bearerAuth req w) = Some 401).
Proof.
  unfold compareTokens, compareTokens_try. repeat split.
  - intros e ->. reflexivity.
  - intros e ->. reflexivity.
  - intros e x -> ->. reflexivity.
  - intros e x y -> -> Ht. cbn [bind].
    destruct (negb (Nat.eqb (length x) (length y))); [reflexivity|].
    rewrite Ht. reflexivity.
  - intros E req w.
    destruct (success (validateBearerAuth (req_get req (lit "Authorization")) (req_path req)))
      eqn:Hs.
    + left. apply bearerAuth_success, Hs.
    + right. destruct (validate_failure_fields _ _ Hs) as (e & m & He & Hm).
      apply (bearerAuth_failure req w e m Hs He Hm).
Qed.

Lemma compareTokens_fault_is_mismatch_witness :
  compareTokens (R := faultyRuntime) (lit "secret1") (lit "secret1") = false
  /\ compareTokens (R := faultyCompare) (lit "secret1") (lit "secret1") = false.
Proof.
  split.
  - apply (compareTokens_fault_is_mismatch (R := faultyRuntime)
             (lit "secret1") (lit "secret1")) with (e := TypeError).
    reflexivity.
  - destruct (compareTokens_fault_is_mismatch (R := faultyCompare)
                (lit "secret1") (lit "secret1")) as (_ & _ & _ & H & _).
    apply (H OtherError (Node.utf8_encode (lit "secret1"))
             (Node.utf8_encode (lit "secret1"))); reflexivity.
Defined.

(** C3: when the decision is a failure the middleware sets status 401 and
    sends the object with success false, the failure's error code (one of
    the four texts), its message and a timestamp, and does not call next.
    The timestamp is the text of the clock reading the middleware makes
    for the response: the reading after the one of the security log when
    logging is on, and the next reading of the run when it is off; no
    other reading is made.  When the decision is a success, exempted or
    not, the middleware calls next once, sets no status, sends no body,
    logs nothing and does not read the clock. *)
Theorem bearerAuth_401_or_next {R : Runtime} {E : Settings}
  (req : Request) (w : World) :
  let result := validateBearerAuth (req_get req (lit "Authorization")) (req_path req) in
  let w' := bearerAuth req w in
  (success result = false ->
   exists e m,
     error result = Some e /\ message result = Some m
     /\ statusCode w' = Some 401
     /\ body w'
        = Some [(lit "success", VBool false);
                (lit "error", VString (AuthError_text e));
                (lit "message", VString m);
                (lit "timestamp",
                 VString (Date_toISOString
                            (dates w + if getLogSecurityEvents then 1 else 0)%nat))]
     /\ dates w' = S (dates w + if getLogSecurityEvents then 1 else 0)%nat
     /\ In (AuthError_text e)
          [lit "Missing authorization"; lit "Invalid scheme";
           lit "Invalid token"; lit "Malformed header"]
     /\ nextCalls w' = nextCalls w)
  /\ (success result = true ->
      nextCalls w' = S (nextCalls w)
      /\ statusCode w' = statusCode w /\ body w' = body w
      /\ console w' = console w /\ dates w' = dates w)
  /\ (result = plain_success \/ result = exempted_success -> w' = next w).
Proof.
  intros result w'. split; [|split].
  - intros Hs. destruct (validate_failure_fields _ _ Hs) as (e & m & He & Hm).
    destruct (bearerAuth_failure req w e m Hs He Hm) as (H1 & H2 & H3 & H4).
    exists e, m. repeat split; try assumption.
    destruct e; simpl; auto.
  - intros Hs. subst w'. rewrite (bearerAuth_success req w Hs). repeat split.
  - intros H. apply bearerAuth_success. fold result.
    destruct H as [-> | ->]; reflexivity.
Qed.

Lemma bearerAuth_401_or_next_witness :
  let R := nodeRuntime in
  let E := deployment [lit "secret1"] true in
  let rejected := bearerAuth (request (Some (lit "Bearer wrongtoken")) (lit "/api/orders")) idle in
  let accepted := bearerAuth (request (Some (lit "Bearer secret1")) (lit "/api/orders")) idle in
  statusCode rejected = Some 401
  /\ body rejected
     = Some [(lit "success", VBool false);
             (lit "error", VString (lit "Invalid token"));
             (lit "message",
              VString (lit "Invalid Bearer token. Please check your authentication credentials."));
             (lit "timestamp", VString (lit "2026-01-01T00:00:00.001Z"))]
  /\ dates rejected = 2%nat
  /\ nextCalls rejected = 0%nat
  /\ nextCalls accepted = 1%nat.
Proof.
  intros R E rejected accepted.
  destruct (bearerAuth_401_or_next (R := R) (E := E)
              (request (Some (lit "Bearer wrongtoken")) (lit "/api/orders")) idle)
    as [Hfail _].
  destruct (Hfail eq_refl) as (e & m & He & Hm & Hst & Hbody & Hd & _ & Hn).
  destruct (bearerAuth_401_or_next (R := R) (E := E)
              (request (Some (lit "Bearer secret1")) (lit "/api/orders")) idle)
    as (_ & Hok & _).
  destruct (Hok eq_refl) as (Hn' & _).
  injection He as <-. injection Hm as <-.
  exact (conj Hst (conj Hbody (conj Hd (conj Hn Hn')))).
Defined.

(** * Further properties of the middleware *)

(** ** The client address *)

(** X1: getClientIP never answers the empty string: it is req.ip when
    that is a non-empty string, else the connection's remote address when
    that is one, else "unknown". *)
Theorem getClientIP_never_empty (req : Request) :
  getClientIP req <> []
  /\ (forall ip, req_ip req = Some ip -> ip <> [] -> getClientIP req = ip)
  /\ (forall remoteAddress,
        req_ip req = None \/ req_ip req = Some [] ->
        req_remoteAddress req = Some remoteAddress -> remoteAddress <> [] ->
        getClientIP req = remoteAddress)
  /\ (req_ip req = None \/ req_ip req = Some [] ->
      req_remoteAddress req = None \/ req_remoteAddress req = Some [] ->
      getClientIP req = lit "unknown").
Proof.
  unfold getClientIP. split; [|split; [|split]].
  - destruct (req_ip req) as [[|c ip]|];
      destruct (req_remoteAddress req) as [[|d ra]|];
      intros H; vm_compute in H; discriminate H.
  - intros ip -> Hne. destruct ip; [congruence | reflexivity].
  - intros ra Hip -> Hne.
    destruct Hip as [-> | ->]; (destruct ra; [congruence | reflexivity]).
  - intros [-> | ->] [-> | ->]; reflexivity.
Qed.

(** ** What depends on the header *)

Section Header.

Context {R : Runtime} {E : Settings}.

Lemma trim_nil_tokens (h : jsstring) : trim h = [] <-> tokens h = [].
Proof.
  split.
  - intros H. rewrite <- tokens_trim, H. reflexivity.
  - intros H. pose proof (split_trim_tokens h) as Hs. rewrite H in Hs.
    destruct (trim h) as [|c t] eqn:Ht; [reflexivity|].
    destruct (trim_shape h) as [Hstart Hend]. rewrite Ht in Hstart, Hend.
    pose proof (split_from_nonempty (c :: t) false ltac:(discriminate) Hend
                  (or_intror Hstart)) as Hne.
    unfold split_ws in Hs. rewrite Hs in Hne.
    inversion Hne as [|? ? Hfalsy _]. discriminate Hfalsy.
Qed.

Lemma validate_blank (h path : jsstring) :
  tokens h = [] -> validateBearerAuth (Some h) path = validateBearerAuth None path.
Proof.
  intros Ht. apply trim_nil_tokens in Ht. unfold validateBearerAuth.
  destruct (isExemptedPath path); [reflexivity|].
  rewrite Ht. cbn [lit list_ascii_of_string map str_eqb]. rewrite orb_true_r.
  reflexivity.
Qed.

(** The decision on a present header, from its tokens alone. *)
Lemma validate_by_tokens (h path : jsstring) :
  isExemptedPath path = false -> tokens h <> [] ->
  validateBearerAuth (Some h) path
  = match tokens h with
    | [first; second] =>
        if negb (str_eqb (toLowerCase first) (lit "bearer")) then
          {| success := false; exempted := None; error := Some InvalidScheme;
             message := Some (failure_message InvalidScheme) |}
        else if negb (isValidToken second) then
          {| success := false; exempted := None; error := Some InvalidToken;
             message := Some (failure_message InvalidToken) |}
        else plain_success
    | _ =>
        {| success := false; exempted := None; error := Some MalformedHeader;
           message := Some (failure_message MalformedHeader) |}
    end.
Proof.
  intros Hp Ht.
  assert (Htrim : trim h <> []) by (intros H; apply Ht, trim_nil_tokens, H).
  rewrite (validate_present h path Hp Htrim), parse_tokens.
  pose proof (tokens_shape h) as Hs.
  destruct (tokens h) as [|first [|second [|third more]]]; try reflexivity.
  cbn [scheme token].
  inversion Hs as [|? ? _ Hs']; subst. inversion Hs' as [|? ? [Hne _] _]; subst.
  apply falsy_false in Hne. rewrite Hne. reflexivity.
Qed.

End Header.

(** X2: a present header counts only through its white-space separated
    tokens: two headers with the same tokens get the same result, whatever
    white space surrounds or separates them, and a header without tokens
    gets the result of an absent header. *)
Theorem validateBearerAuth_tokens_only {R : Runtime} {E : Settings}
  (h1 h2 path : jsstring) :
  (tokens h1 = tokens h2 ->
   validateBearerAuth (Some h1) path = validateBearerAuth (Some h2) path)
  /\ (tokens h1 = [] ->
      validateBearerAuth (Some h1) path = validateBearerAuth None path).
Proof.
  split; [|apply validate_blank].
  intros Heq. destruct (isExemptedPath path) eqn:Hp.
  - rewrite !validate_exempted by exact Hp. reflexivity.
  - destruct (tokens h1) as [|t ts] eqn:H1.
    + rewrite (validate_blank h1 path H1), (validate_blank h2 path (eq_sym Heq)).
      reflexivity.
    + rewrite (validate_by_tokens h1 path Hp), (validate_by_tokens h2 path Hp).
      * rewrite H1, <- Heq. reflexivity.
      * rewrite <- Heq. discriminate.
      * rewrite H1. discriminate.
Qed.

Lemma validateBearerAuth_tokens_only_witness :
  let R := nodeRuntime in
  let E := deployment [lit "secret1"] false in
  validateBearerAuth (Some (lit "  Bearer     secret1 ")) (lit "/api/orders")
  = validateBearerAuth (Some (lit "Bearer secret1")) (lit "/api/orders").
Proof.
  intros R E.
  apply (validateBearerAuth_tokens_only (R := R) (E := E)
           (lit "  Bearer     secret1 ") (lit "Bearer secret1") (lit "/api/orders")).
  reflexivity.
Defined.

(** X3: of a two-token header only the lower-cased first token and the
    second token count: the scheme is matched without regard to the case of
    its letters. *)
Theorem validateBearerAuth_scheme_case {R : Runtime} {E : Settings}
  (h1 h2 first1 first2 second path : jsstring) :
  tokens h1 = [first1; second] -> tokens h2 = [first2; second] ->
  toLowerCase first1 = toLowerCase first2 ->
  validateBearerAuth (Some h1) path = validateBearerAuth (Some h2) path.
Proof.
  intros H1 H2 Hlow. destruct (isExemptedPath path) eqn:Hp.
  - rewrite !validate_exempted by exact Hp. reflexivity.
  - rewrite (validate_by_tokens h1 path Hp), (validate_by_tokens h2 path Hp).
    + rewrite H1, H2, Hlow. reflexivity.
    + rewrite H2. discriminate.
    + rewrite H1. discriminate.
Qed.

Lemma validateBearerAuth_scheme_case_witness :
  let R := nodeRuntime in
  let E := deployment [lit "secret1"] false in
  validateBearerAuth (Some (lit "BEARER secret1")) (lit "/api/orders")
  = validateBearerAuth (Some (lit "bearer secret1")) (lit "/api/orders").
Proof.
  intros R E.
  apply (validateBearerAuth_scheme_case (R := R) (E := E)
           (lit "BEARER secret1") (lit "bearer secret1")
           (lit "BEARER") (lit "bearer") (lit "secret1") (lit "/api/orders"));
    reflexivity.
Defined.

(** ** When a request passes *)

Section Passing.

Context {R : Runtime} {E : Settings}.

Lemma isValidToken_nil (candidate : jsstring) :
  getBearerTokens = [] -> isValidToken candidate = false.
Proof. intros H. unfold isValidToken. rewrite H. reflexivity. Qed.

Lemma validate_success_tokens (authHeader : option jsstring) (path : jsstring) :
  isExemptedPath path = false ->
  (success (validateBearerAuth authHeader path) = true
   <-> exists h first second,
         authHeader = Some h /\ tokens h = [first; second]
         /\ toLowerCase first = lit "bearer" /\ isValidToken second = true).
Proof.
  intros Hp. split.
  - destruct authHeader as [h|];
      [|unfold validateBearerAuth; rewrite Hp; discriminate].
    destruct (tokens h) as [|t ts] eqn:Ht.
    + rewrite (validate_blank h path Ht). unfold validateBearerAuth.
      rewrite Hp. discriminate.
    + rewrite (validate_by_tokens h path Hp) by (rewrite Ht; discriminate).
      rewrite Ht. destruct ts as [|second [|third more]]; try discriminate.
      destruct (str_eqb (toLowerCase t) (lit "bearer")) eqn:Hs; [|discriminate].
      destruct (isValidToken second) eqn:Hv; [|discriminate].
      intros _. exists h, t, second. apply str_eqb_eq in Hs. auto.
  - intros (h & first & second & -> & Ht & Hs & Hv).
    rewrite (validate_by_tokens h path Hp) by (rewrite Ht; discriminate).
    rewrite Ht. apply str_eqb_eq in Hs. rewrite Hs, Hv. reflexivity.
Qed.

End Passing.

(** X4: on a path that is not exempted a request passes exactly when its
    header has two tokens, the first lower-cases to "bearer", and the
    second, which is non-empty and free of white space, has the bytes of a
    configured token. *)
Theorem validateBearerAuth_success_iff {R : Runtime} {E : Settings}
  (B : NodeBuffers R) (authHeader : option jsstring) (path : jsstring) :
  isExemptedPath path = false ->
  (success (validateBearerAuth authHeader path) = true
   <-> exists h first second validToken,
         authHeader = Some h /\ tokens h = [first; second]
         /\ toLowerCase first = lit "bearer"
         /\ second <> [] /\ wsfree second
         /\ In validToken getBearerTokens
         /\ Node.utf8_encode second = Node.utf8_encode validToken).
Proof.
  intros Hp. rewrite (validate_success_tokens authHeader path Hp). split.
  - intros (h & first & second & -> & Ht & Hs & Hv).
    unfold isValidToken in Hv. apply isValidToken_loop_exists in Hv as (v & Hin & Hc).
    apply (compareTokens_node B) in Hc.
    pose proof (tokens_shape h) as Hshape. rewrite Ht in Hshape.
    inversion Hshape as [|? ? _ Hs']; subst. inversion Hs' as [|? ? [Hne Hfree] _]; subst.
    exists h, first, second, v. auto 10.
  - intros (h & first & second & v & -> & Ht & Hs & _ & _ & Hin & Hb).
    exists h, first, second. repeat split; try assumption.
    unfold isValidToken. apply isValidToken_loop_exists. exists v.
    split; [exact Hin | apply (compareTokens_node B), Hb].
Qed.

Lemma validateBearerAuth_success_iff_witness :
  let R := nodeRuntime in
  let E := deployment [lit "secret1"; lit "secret2"] false in
  success (validateBearerAuth (Some (lit "bearer  secret2")) (lit "/api/orders")) = true.
Proof.
  intros R E.
  apply (validateBearerAuth_success_iff (R := R) (E := E) nodeRuntime_buffers
           (Some (lit "bearer  secret2")) (lit "/api/orders") eq_refl).
  exists (lit "bearer  secret2"), (lit "bearer"), (lit "secret2"), (lit "secret2").
  repeat split; try discriminate.
  - repeat constructor.
  - right; left; reflexivity.
Defined.

(** X5: with no configured token, every request for a path that is not
    exempted is answered 401 and next is not called, whatever the header
    and whatever the runtime's primitives do. *)
Theorem bearerAuth_no_tokens_rejects {R : Runtime} {E : Settings}
  (req : Request) (w : World) :
  getBearerTokens = [] -> isExemptedPath (req_path req) = false ->
  statusCode (bearerAuth req w) = Some 401
  /\ nextCalls (bearerAuth req w) = nextCalls w.
Proof.
  intros Hnone Hp.
  assert (Hs : success (validateBearerAuth (req_get req (lit "Authorization"))
                          (req_path req)) = false).
  { apply not_true_is_false. intros Hs.
    apply (validate_success_tokens _ _ Hp) in Hs as (h & f & s & _ & _ & _ & Hv).
    rewrite (isValidToken_nil s Hnone) in Hv. discriminate. }
  destruct (validate_failure_fields _ _ Hs) as (e & m & He & Hm).
  destruct (bearerAuth_failure req w e m Hs He Hm) as (H1 & _ & H3 & _). auto.
Qed.

Lemma bearerAuth_no_tokens_rejects_witness :
  let R := nodeRuntime in
  let E := deployment [] false in
  statusCode (bearerAuth (request (Some (lit "Bearer anything")) (lit "/api/orders")) idle)
  = Some 401.
Proof.
  intros R E.
  apply (bearerAuth_no_tokens_rejects (R := R) (E := E)
           (request (Some (lit "Bearer anything")) (lit "/api/orders")) idle);
    reflexivity.
Defined.

(** X6: whether a token is valid depends on the configured tokens as a
    set: their order and repetitions do not matter, and adding tokens to
    the configuration never makes a valid token invalid.  This holds on
    every runtime. *)
Theorem isValidToken_set_of_tokens {R : Runtime} (E1 E2 : Settings)
  (candidate : jsstring) :
  ((forall v, In v (@getBearerTokens E1) -> In v (@getBearerTokens E2)) ->
   isValidToken (E := E1) candidate = true ->
   isValidToken (E := E2) candidate = true)
  /\ ((forall v, In v (@getBearerTokens E1) <-> In v (@getBearerTokens E2)) ->
      isValidToken (E := E1) candidate = isValidToken (E := E2) candidate).
Proof.
  assert (Hmono : forall l1 l2 : list jsstring,
            (forall v, In v l1 -> In v l2) ->
            isValidToken_loop candidate l1 = true ->
            isValidToken_loop candidate l2 = true).
  { intros l1 l2 Hincl H. apply isValidToken_loop_exists in H as (v & Hin & Hc).
    apply isValidToken_loop_exists. exists v. auto. }
  unfold isValidToken. split; [apply Hmono|].
  intros Heq.
  destruct (isValidToken_loop candidate (@getBearerTokens E1)) eqn:H1.
  - symmetry. apply (Hmono _ _ (fun v => proj1 (Heq v)) H1).
  - symmetry. apply not_true_is_false. intros H2.
    rewrite (Hmono _ _ (fun v => proj2 (Heq v)) H2) in H1. discriminate.
Qed.

Lemma isValidToken_set_of_tokens_witness :
  isValidToken (R := nodeRuntime) (E := deployment [lit "old"; lit "new"] false) (lit "old")
  = isValidToken (R := nodeRuntime) (E := deployment [lit "new"; lit "old"; lit "new"] false)
      (lit "old").
Proof.
  apply (isValidToken_set_of_tokens (R := nodeRuntime)
           (deployment [lit "old"; lit "new"] false)
           (deployment [lit "new"; lit "old"; lit "new"] false) (lit "old")).
  intros v; simpl; tauto.
Defined.

(** ** What is logged *)

(** X7: the middleware logs only failures, and only when security logging
    is on: it then appends to the console one record, "[SECURITY]
    Authentication failed", with a timestamp, the error code, the path, the
    client address and the User-Agent, and nothing of the Authorization
    header.  On success, or with logging off, the console is left as it
    was. *)
Theorem bearerAuth_logs_failures_only {R : Runtime} {E : Settings}
  (req : Request) (w : World) :
  let result := validateBearerAuth (req_get req (lit "Authorization")) (req_path req) in
  (success result = true -> console (bearerAuth req w) = console w)
  /\ (getLogSecurityEvents = false -> console (bearerAuth req w) = console w)
  /\ (success result = false -> getLogSecurityEvents = true ->
      console (bearerAuth req w)
      = console w
        ++ [(lit "[SECURITY] Authentication failed",
             [(lit "timestamp", VString (Date_toISOString (dates w)));
              (lit "error", of_error_opt (error result));
              (lit "path", VString (req_path req));
              (lit "clientIp", VString (getClientIP req));
              (lit "userAgent", of_string_opt (req_get req (lit "User-Agent")))])]).
Proof.
  intros result. unfold bearerAuth. fold result. split; [|split].
  - intros ->. reflexivity.
  - intros Hlog. destruct (success result); [reflexivity|].
    unfold logAuthenticationFailure. rewrite Hlog. reflexivity.
  - intros -> Hlog. unfold logAuthenticationFailure. rewrite Hlog. reflexivity.
Qed.

(** ** Exempted paths *)

Section Exemption.

Context {E : Settings}.

Lemma isExemptedPath_entry (path : jsstring) :
  isExemptedPath path = true
  <-> exists exemptedPath, In exemptedPath EXEMPTED_PATHS
      /\ (path = exemptedPath \/ exists rest, path = exemptedPath ++ lit "/" ++ rest).
Proof.
  unfold isExemptedPath. rewrite existsb_exists.
  split; intros (e & Hin & H); exists e; (split; [exact Hin|]).
  - apply orb_true_iff in H as [H | H].
    + left. apply str_eqb_eq, H.
    + right. apply startsWith_prefix in H as [rest ->].
      exists rest. rewrite <- app_assoc. reflexivity.
  - apply orb_true_iff. destruct H as [-> | [rest ->]].
    + left. apply str_eqb_refl.
    + right. apply startsWith_prefix. exists rest.
      rewrite <- app_assoc. reflexivity.
Qed.

End Exemption.

(** X8: exemption goes down the path tree: every subpath of an exempted
    path is exempted, to any depth. *)
Theorem isExemptedPath_subpaths {E : Settings} (path rest : jsstring) :
  isExemptedPath path = true ->
  isExemptedPath (path ++ lit "/" ++ rest) = true.
Proof.
  intros H. apply isExemptedPath_entry in H as (e & Hin & H).
  apply isExemptedPath_entry. exists e. split; [exact Hin|]. right.
  destruct H as [-> | [r ->]].
  - exists rest. reflexivity.
  - exists (r ++ lit "/" ++ rest). rewrite <- !app_assoc. reflexivity.
Qed.

Lemma isExemptedPath_subpaths_witness :
  isExemptedPath (E := healthExempted []) (lit "/api/health" ++ lit "/" ++ lit "live/deep")
  = true.
Proof.
  apply (isExemptedPath_subpaths (E := healthExempted []) (lit "/api/health")
           (lit "live/deep")).
  reflexivity.
Defined.

(** X9: an exempted entry does not exempt the paths that merely start
    with its text: when only [entry] is exempted, a path that continues
    [entry] with a code unit other than "/" is not exempted. *)
Theorem isExemptedPath_not_bare_prefix {E : Settings}
  (entry : jsstring) (c : N) (rest : jsstring) :
  EXEMPTED_PATHS = [entry] -> c <> 47 ->
  isExemptedPath (entry ++ c :: rest) = false.
Proof.
  intros Hset Hc. apply not_true_is_false. intros H.
  apply isExemptedPath_entry in H as (e & Hin & H).
  rewrite Hset in Hin. destruct Hin as [<- | []].
  destruct H as [H | [r H]].
  - rewrite <- (app_nil_r entry) in H at 2. apply app_inv_head in H. discriminate.
  - apply app_inv_head in H. injection H as H _. apply Hc. exact H.
Qed.

Lemma isExemptedPath_not_bare_prefix_witness :
  isExemptedPath (E := healthExempted []) (lit "/api/health" ++ 99 :: lit "heck") = false.
Proof.
  apply (isExemptedPath_not_bare_prefix (E := healthExempted []) (lit "/api/health")
           99 (lit "heck")).
  - reflexivity.
  - discriminate.
Defined.

(** ** Messages *)

(** X10: the message of a failure is fixed by its error code: one of four
    texts, the same for every header, path, runtime and list of configured
    tokens. *)
Theorem validateBearerAuth_message_by_code {R : Runtime} {E : Settings}
  (authHeader : option jsstring) (path : jsstring) :
  success (validateBearerAuth authHeader path) = false ->
  exists e,
    error (validateBearerAuth authHeader path) = Some e
    /\ message (validateBearerAuth authHeader path) = Some (failure_message e).
Proof.
  destruct (isExemptedPath path) eqn:Hp.
  - rewrite (validate_exempted authHeader path Hp). discriminate.
  - assert (Hnone : exists e,
              error (validateBearerAuth None path) = Some e
              /\ message (validateBearerAuth None path) = Some (failure_message e)).
    { unfold validateBearerAuth. rewrite Hp. eexists; split; reflexivity. }
    destruct authHeader as [h|]; [|intros _; exact Hnone].
    destruct (tokens h) as [|t ts] eqn:Ht.
    + rewrite (validate_blank h path Ht). intros _; exact Hnone.
    + rewrite (validate_by_tokens h path Hp) by (rewrite Ht; discriminate).
      rewrite Ht. destruct ts as [|second [|third more]];
        try (intros _; eexists; split; reflexivity).
      destruct (negb (str_eqb (toLowerCase t) (lit "bearer")));
        [intros _; eexists; split; reflexivity|].
      destruct (negb (isValidToken second));
        [intros _; eexists; split; reflexivity | discriminate].
Qed.

Lemma validateBearerAuth_message_by_code_witness :
  let R := nodeRuntime in
  let E := deployment [lit "secret1"] false in
  exists e,
    error (validateBearerAuth (Some (lit "Bearer ")) (lit "/api/orders")) = Some e
    /\ message (validateBearerAuth (Some (lit "Bearer ")) (lit "/api/orders"))
       = Some (failure_message e).
Proof.
  intros R E.
  apply (validateBearerAuth_message_by_code (R := R) (E := E)
           (Some (lit "Bearer ")) (lit "/api/orders")).
  reflexivity.
Defined.

(** * The service layer *)

(** ** handleServiceError *)

Lemma handleServiceError_cases (message : jsstring) :
  (exists mapping, In mapping errorMappings
     /\ mapping_message mapping = message
     /\ handleServiceError (ErrorInstance message)
        = AppError message (mapping_status mapping) (Some (mapping_code mapping)))
  \/ (~ In message (map mapping_message errorMappings)
      /\ handleServiceError (ErrorInstance message) = Rethrown (ErrorInstance message)).
Proof.
  unfold handleServiceError.
  destruct (find (fun m => str_eqb (mapping_message m) message) errorMappings)
    as [mapping|] eqn:Hfind.
  - left. apply find_some in Hfind as [Hin Heq]. apply str_eqb_eq in Heq.
    exists mapping. auto.
  - right. split; [|reflexivity]. intros Hin. apply in_map_iff in Hin as (m & Hm & Hin).
    pose proof (find_none _ _ Hfind m Hin) as Hno. cbv beta in Hno.
    rewrite Hm, str_eqb_refl in Hno. discriminate.
Qed.

(** X11: handleServiceError turns an Error whose message is one of the
    seven known ones into an AppError with the same message and the code
    and the status of that message's entry, a client-error status (400,
    401, 404 or 409, never a 5xx); it throws an AppError in no other
    case, and the code tells the message and the status.  Any other
    value, an Error with another message or not an Error at all, is
    thrown again as it is. *)
Theorem handleServiceError_maps_known_errors (error : Caught) :
  (forall message statusCode code,
     handleServiceError error = AppError message statusCode code ->
     error = ErrorInstance message
     /\ In statusCode [400; 401; 404; 409]
     /\ exists mapping, In mapping errorMappings
          /\ mapping_message mapping = message
          /\ mapping_status mapping = statusCode
          /\ code = Some (mapping_code mapping))
  /\ (forall error', handleServiceError error = Rethrown error' -> error' = error)
  /\ (forall message, error = ErrorInstance message ->
        ~ In message (map mapping_message errorMappings) ->
        handleServiceError error = Rethrown error)
  /\ (forall v, error = OtherValue v -> handleServiceError error = Rethrown error)
  /\ (forall m1 m2, In m1 errorMappings -> In m2 errorMappings ->
        mapping_code m1 = mapping_code m2 -> m1 = m2)
  /\ (forall mapping, In mapping errorMappings ->
        error = ErrorInstance (mapping_message mapping) ->
        handleServiceError error
        = AppError (mapping_message mapping) (mapping_status mapping)
                   (Some (mapping_code mapping))).
Proof.
  split; [|split; [|split; [|split; [|split]]]].
  - intros message statusCode code H. destruct error as [m|v]; [|discriminate].
    destruct (handleServiceError_cases m) as [(mapping & Hin & Hm & Heq) | [_ Heq]];
      rewrite Heq in H; [|discriminate].
    injection H as <- <- <-. split; [reflexivity|]. split.
    + simpl in Hin.
      repeat (destruct Hin as [<- | Hin]; [simpl; tauto|]). destruct Hin.
    + exists mapping. auto.
  - intros error' H. destruct error as [m|v].
    + destruct (handleServiceError_cases m) as [(mapping & _ & _ & Heq) | [_ Heq]];
        rewrite Heq in H; [discriminate | congruence].
    + simpl in H. congruence.
  - intros message -> Hnot.
    destruct (handleServiceError_cases message) as [(mapping & Hin & Hm & _) | [_ Heq]];
      [|exact Heq].
    exfalso. apply Hnot. apply in_map_iff. exists mapping. auto.
  - intros v ->. reflexivity.
  - intros m1 m2 H1 H2 Hc. simpl in H1, H2.
    repeat (destruct H1 as [<- | H1]); try contradiction;
      repeat (destruct H2 as [<- | H2]); try contradiction;
      first [reflexivity | discriminate Hc].
  - intros mapping Hin ->. simpl in Hin.
    repeat (destruct Hin as [<- | Hin]; [reflexivity|]). destruct Hin.
Qed.

Lemma handleServiceError_maps_known_errors_witness :
  handleServiceError (ErrorInstance (lit "Reset code has expired"))
  = AppError (lit "Reset code has expired") 400 (Some RESET_CODE_EXPIRED)
  /\ In 400 [400; 401; 404; 409]
  /\ handleServiceError (ErrorInstance (lit "user not found"))
     = Rethrown (ErrorInstance (lit "user not found")).
Proof.
  split; [|split].
  - destruct (handleServiceError_maps_known_errors
                (ErrorInstance (lit "Reset code has expired")))
      as (_ & _ & _ & _ & _ & H).
    apply (H {| mapping_message := lit "Reset code has expired";
                mapping_code := RESET_CODE_EXPIRED; mapping_status := 400 |});
      [|reflexivity].
    do 6 right. left. reflexivity.
  - destruct (handleServiceError_maps_known_errors
                (ErrorInstance (lit "Reset code has expired"))) as [H _].
    destruct (H (lit "Reset code has expired") 400 (Some RESET_CODE_EXPIRED) eq_refl)
      as (_ & Hst & _).
    exact Hst.
  - destruct (handleServiceError_maps_known_errors
                (ErrorInstance (lit "user not found"))) as (_ & _ & H & _).
    apply (H (lit "user not found") eq_refl).
    simpl. intros Hin.
    repeat (destruct Hin as [Hin | Hin]; [discriminate Hin|]). exact Hin.
Defined.

(** ** The user routes *)

Section UserHandlers.

Import UserRoutes.

Variables User Store Body : Type.
Variable userService : UserService User Store.
Variable safeParse : Body -> SafeParse.

Abbreviation getUser := (UserRoutes.getUser User Store userService).
Abbreviation deleteUserHandler := (UserRoutes.deleteUserHandler User Store userService).
Abbreviation updateUserHandler :=
  (UserRoutes.updateUserHandler User Store Body userService safeParse).

(** X12: without a user id (absent or empty) each of the three handlers
    throws AppError("User ID is required", 400) and leaves the state of the
    service untouched, whatever the service is: it is not called. *)
Theorem handlers_require_userId (userId : option jsstring) (body : Body) (s : Store) :
  missing userId = true ->
  getUser userId s = (Threw _ (AppError (lit "User ID is required") 400 None), s)
  /\ deleteUserHandler userId s
     = (Threw _ (AppError (lit "User ID is required") 400 None), s)
  /\ updateUserHandler userId body s
     = (Threw _ (AppError (lit "User ID is required") 400 None), s).
Proof.
  intros H. unfold UserRoutes.getUser, UserRoutes.deleteUserHandler,
    UserRoutes.updateUserHandler.
  rewrite H. repeat split.
Qed.

(** X13: a handler that responds does so with status 200 and success
    true, and an AppError that a handler creates has status 400, 404 or 409
    and no error code; nothing else is sent or created. *)
Theorem handlers_statuses (userId : option jsstring) (body : Body) (s : Store)
  (o : Outcome User) :
  o = fst (getUser userId s) \/ o = fst (deleteUserHandler userId s)
  \/ o = fst (updateUserHandler userId body s) ->
  (forall status response,
     o = Responded _ status response -> status = 200 /\ api_success _ response = true)
  /\ (forall message statusCode code,
        o = Threw _ (AppError message statusCode code) ->
        In statusCode [400; 404; 409] /\ code = None).
Proof.
  intros Ho.
  assert (Hshape :
            (exists r, o = Responded _ 200 r /\ api_success _ r = true)
            \/ (exists m st, o = Threw _ (AppError m st None) /\ In st [400; 404; 409])
            \/ (exists e, o = Threw _ (Rethrown e))).
  { destruct Ho as [-> | [-> | ->]].
    - unfold UserRoutes.getUser. destruct (missing userId); [simpl; eauto 8|].
      destruct (getUserById _ _ userService (param userId) s) as [[u|] s'|e s'];
        simpl; eauto 10.
    - unfold UserRoutes.deleteUserHandler. destruct (missing userId); [simpl; eauto 8|].
      destruct (deleteUser _ _ userService (param userId) s) as [[] s'|[m|v] s'];
        simpl; eauto 10.
      destruct (str_eqb m (lit "User not found")); simpl; eauto 10.
    - unfold UserRoutes.updateUserHandler. destruct (missing userId); [simpl; eauto 8|].
      destruct (safeParse body) as [u|errs]; [|simpl; eauto 8].
      destruct (noKeys (filteredUpdates u)); [simpl; eauto 8|].
      destruct (updateUser _ _ userService (param userId) (filteredUpdates u) s)
        as [u' s'|[m|v] s']; simpl; eauto 10.
      destruct (str_eqb m (lit "User not found")); [simpl; eauto 10|].
      destruct (str_eqb m (lit "Email already in use")); simpl; eauto 10. }
  split.
  - intros status response ->.
    destruct Hshape as [(r & H & Hr) | [(m & st & H & _) | (e & H)]];
      try discriminate. injection H as -> ->. auto.
  - intros message statusCode code ->.
    destruct Hshape as [(r & H & _) | [(m & st & H & Hst) | (e & H)]];
      try discriminate. injection H as -> -> ->. auto.
Qed.

(** X14: the update handler reaches userService.updateUser only with a
    body that passed validation and names at least one of email and
    password; otherwise it throws a 400 AppError, with the message of the
    first validation issue (or "Validation failed" when there is none or it
    is empty), or with "At least one field must be provided for update",
    and the state of the service is untouched. *)
Theorem updateUserHandler_guards (userId : option jsstring) (body : Body) (s : Store) :
  missing userId = false ->
  (forall errors, safeParse body = Invalid errors ->
     updateUserHandler userId body s
     = (Threw _ (AppError (errorMessage errors) 400 None), s)
     /\ errorMessage errors <> []
     /\ (forall first rest, errors = first :: rest -> first <> [] ->
           errorMessage errors = first))
  /\ (forall updates, safeParse body = Valid updates ->
        email updates = None -> password updates = None ->
        updateUserHandler userId body s
        = (Threw _ (AppError (lit "At least one field must be provided for update")
                      400 None), s))
  /\ (forall updates, safeParse body = Valid updates ->
        email updates <> None \/ password updates <> None ->
        snd (updateUserHandler userId body s)
        = match updateUser _ _ userService (param userId) updates s with
          | Returns _ _ _ s' => s'
          | Throws _ _ _ s' => s'
          end).
Proof.
  intros Hid. unfold UserRoutes.updateUserHandler. rewrite Hid. split; [|split].
  - intros errors ->. split; [reflexivity|]. split.
    + destruct errors as [|[|c m] rest]; simpl; discriminate.
    + intros first rest -> Hne. destruct first; [congruence | reflexivity].
  - intros updates -> He Hp. unfold noKeys, filteredUpdates. simpl.
    rewrite He, Hp. reflexivity.
  - intros updates -> Hsome.
    assert (Hk : noKeys (filteredUpdates updates) = false).
    { unfold noKeys, filteredUpdates. simpl.
      destruct (email updates), (password updates); try reflexivity.
      destruct Hsome; congruence. }
    rewrite Hk.
    replace (filteredUpdates updates) with updates by (destruct updates; reflexivity).
    destruct (updateUser _ _ userService (param userId) updates s) as [u s'|[m|v] s'];
      try reflexivity.
    destruct (str_eqb m (lit "User not found")); [reflexivity|].
    destruct (str_eqb m (lit "Email already in use")); reflexivity.
Qed.

(** X15: how the handlers translate what the service throws.  An Error
    "User not found" becomes AppError 404 with that message, in the delete
    and in the update handler; an Error "Email already in use" becomes
    AppError 409 in the update handler only; every other thrown value,
    Error or not, is thrown again as it is. *)
Theorem handlers_translate_service_errors (userId : option jsstring) (body : Body)
  (s s' : Store) (error : Caught) :
  missing userId = false ->
  (deleteUser _ _ userService (param userId) s = Throws _ _ error s' ->
   fst (deleteUserHandler userId s)
   = if match error with
        | ErrorInstance message => str_eqb message (lit "User not found")
        | OtherValue _ => false
        end
     then Threw _ (AppError (lit "User not found") 404 None)
     else Threw _ (Rethrown error))
  /\ (forall updates, safeParse body = Valid updates ->
        email updates <> None \/ password updates <> None ->
        updateUser _ _ userService (param userId) updates s = Throws _ _ error s' ->
        fst (updateUserHandler userId body s)
        = match error with
          | ErrorInstance message =>
              if str_eqb message (lit "User not found") then
                Threw _ (AppError (lit "User not found") 404 None)
              else if str_eqb message (lit "Email already in use") then
                Threw _ (AppError (lit "Email already in use") 409 None)
              else Threw _ (Rethrown error)
          | OtherValue _ => Threw _ (Rethrown error)
          end).
Proof.
  intros Hid. split.
  - intros Hd. unfold UserRoutes.deleteUserHandler. rewrite Hid, Hd.
    destruct error as [m|v]; [|reflexivity].
    destruct (str_eqb m (lit "User not found")) eqn:Hm; [|reflexivity].
    apply str_eqb_eq in Hm. subst m. reflexivity.
  - intros updates Hv Hsome Hu. unfold UserRoutes.updateUserHandler.
    rewrite Hid, Hv.
    assert (Hk : noKeys (filteredUpdates updates) = false).
    { unfold noKeys, filteredUpdates. simpl.
      destruct (email updates), (password updates); try reflexivity.
      destruct Hsome; congruence. }
    rewrite Hk.
    replace (filteredUpdates updates) with updates by (destruct updates; reflexivity).
    rewrite Hu. destruct error as [m|v]; [|reflexivity].
    destruct (str_eqb m (lit "User not found")) eqn:Hm.
    + apply str_eqb_eq in Hm. subst m. reflexivity.
    + destruct (str_eqb m (lit "Email already in use")) eqn:Hm'; [|reflexivity].
      apply str_eqb_eq in Hm'. subst m. reflexivity.
Qed.

End UserHandlers.

Lemma handlers_require_userId_witness :
  UserRoutes.deleteUserHandler _ _ listService (Some []) [lit "u1"]
  = (UserRoutes.Threw _ (AppError (lit "User ID is required") 400 None), [lit "u1"]).
Proof.
  destruct (handlers_require_userId _ _ _ listService jsonBody (Some [])
              {| UserRoutes.email := None; UserRoutes.password := None |}
              [lit "u1"] eq_refl) as (_ & H & _).
  exact H.
Defined.

Lemma handlers_statuses_witness :
  fst (UserRoutes.getUser _ _ listService (Some (lit "u1")) [lit "u1"])
  = UserRoutes.Responded _ 200
      {| UserRoutes.api_success := true; UserRoutes.api_data := Some (lit "u1");
         UserRoutes.api_message := None |}
  /\ In 404 [400; 404; 409].
Proof.
  split; [reflexivity|].
  destruct (handlers_statuses _ _ _ listService jsonBody (Some (lit "u2"))
              {| UserRoutes.email := None; UserRoutes.password := None |}
              [lit "u1"] _ (or_intror (or_introl eq_refl))) as [_ Ht].
  destruct (Ht (lit "User not found") 404 None eq_refl) as [Hin _].
  exact Hin.
Defined.

Lemma updateUserHandler_guards_witness :
  UserRoutes.updateUserHandler _ _ _ listService jsonBody (Some (lit "u1"))
    {| UserRoutes.email := None; UserRoutes.password := None |} [lit "u1"]
  = (UserRoutes.Threw _
       (AppError (lit "At least one field must be provided for update") 400 None),
     [lit "u1"]).
Proof.
  destruct (updateUserHandler_guards _ _ _ listService jsonBody (Some (lit "u1"))
              {| UserRoutes.email := None; UserRoutes.password := None |}
              [lit "u1"] eq_refl) as (_ & H & _).
  apply (H {| UserRoutes.email := None; UserRoutes.password := None |});
    reflexivity.
Defined.

Lemma handlers_translate_service_errors_witness :
  fst (UserRoutes.updateUserHandler _ _ _ listService jsonBody (Some (lit "u1"))
         {| UserRoutes.email := Some (lit "taken"); UserRoutes.password := None |}
         [lit "u1"])
  = UserRoutes.Threw _ (AppError (lit "Email already in use") 409 None).
Proof.
  destruct (handlers_translate_service_errors _ _ _ listService jsonBody
              (Some (lit "u1"))
              {| UserRoutes.email := Some (lit "taken"); UserRoutes.password := None |}
              [lit "u1"] [lit "u1"] (ErrorInstance (lit "Email already in use")) eq_refl)
    as [_ H].
  apply (H {| UserRoutes.email := Some (lit "taken"); UserRoutes.password := None |}).
  - reflexivity.
  - left; discriminate.
  - reflexivity.
Defined.

(** * The e-mail service *)

Section Retry.

Import Email.

Variable Transporter : Type.
Variable sendMail : Transporter -> nat -> MailOptions -> option Caught.

Abbreviation attempts := (Email.attempts Transporter sendMail).
Abbreviation sendMailWithRetry := (Email.sendMailWithRetry Transporter sendMail).

Variables (t : Transporter) (mailOptions : MailOptions) (maxRetries retryDelay : Z).

Lemma backoff_cons (first : Z) (k : nat) :
  backoff retryDelay first (S k)
  = (retryDelay * first)%Z :: backoff retryDelay (first + 1) k.
Proof.
  unfold backoff. cbn [seq map]. rewrite Z.add_0_r. f_equal.
  rewrite <- seq_shift, map_map. apply map_ext. intros i. f_equal. lia.
Qed.

Lemma warnings_cons (from : nat) (first : Z) (k : nat) :
  warnings sendMail t mailOptions maxRetries from first (S k)
  = match sendMail t from mailOptions with
    | Some error => [warning maxRetries first error]
    | None => []
    end
    ++ warnings sendMail t mailOptions maxRetries (S from) (first + 1) k.
Proof.
  unfold warnings. cbn [seq flat_map]. rewrite Nat.add_0_r, Z.add_0_r. f_equal.
  rewrite <- seq_shift, !flat_map_concat_map, map_map. f_equal.
  apply map_ext. intros i. rewrite Nat.add_succ_r.
  replace (first + Z.of_nat (S i))%Z with (first + 1 + Z.of_nat i)%Z by lia.
  reflexivity.
Qed.

Lemma warnings_length (from : nat) (first : Z) (k : nat) :
  (forall i, (i < k)%nat -> sendMail t (from + i) mailOptions <> None) ->
  length (warnings sendMail t mailOptions maxRetries from first k) = k.
Proof.
  revert from first. induction k as [|k IH]; intros from first Hfail; [reflexivity|].
  rewrite warnings_cons, length_app, IH.
  - pose proof (Hfail 0%nat ltac:(lia)) as H0. rewrite Nat.add_0_r in H0.
    destruct (sendMail t from mailOptions); [reflexivity | congruence].
  - intros i Hi. rewrite Nat.add_succ_comm. apply Hfail. lia.
Qed.

(** The loop when the attempt numbered [attempt + k] is the first to
    succeed. *)
Lemma attempts_first_success (k : nat) :
  forall remaining attempt lastError w,
    (k < remaining)%nat ->
    (attempt + Z.of_nat remaining = maxRetries + 1)%Z ->
    (forall i, (i < k)%nat ->
               sendMail t (length (sent w) + i) mailOptions <> None) ->
    sendMail t (length (sent w) + k) mailOptions = None ->
    exists w',
      attempts t mailOptions maxRetries retryDelay remaining attempt lastError w
      = (Resolved, w')
      /\ sent w' = sent w ++ repeat mailOptions (S k)
      /\ sleeps w' = sleeps w ++ backoff retryDelay attempt k
      /\ console w' = console w /\ timers w' = timers w
      /\ logs w'
         = logs w ++ warnings sendMail t mailOptions maxRetries (length (sent w)) attempt k.
Proof.
  induction k as [|k IH]; intros remaining attempt lastError w Hlt Hrem Hfail Hok.
  - destruct remaining as [|remaining]; [lia|]. cbn [Email.attempts].
    rewrite Nat.add_0_r in Hok. rewrite Hok. eexists. split; [reflexivity|].
    cbn. rewrite !app_nil_r. auto.
  - destruct remaining as [|remaining]; [lia|]. cbn [Email.attempts].
    pose proof (Hfail 0%nat ltac:(lia)) as H0. rewrite Nat.add_0_r in H0.
    rewrite warnings_cons.
    destruct (sendMail t (length (sent w)) mailOptions) as [error|]; [|congruence].
    replace (attempt <? maxRetries)%Z with true by (symmetry; apply Z.ltb_lt; lia).
    match goal with
    | |- context [Email.attempts _ _ _ _ _ _ remaining _ _ ?w2] =>
        destruct (IH remaining (attempt + 1)%Z (Some error) w2) as (w' & Heq & Hs & Hz & Hc & Ht & Hl)
    end.
    + lia.
    + lia.
    + intros i Hi. cbn [sent sleep logger_log hand_over]. rewrite length_app. cbn [length].
      replace (length (sent w) + 1 + i)%nat with (length (sent w) + S i)%nat by lia.
      apply Hfail. lia.
    + cbn [sent sleep logger_log hand_over]. rewrite length_app. cbn [length].
      replace (length (sent w) + 1 + k)%nat with (length (sent w) + S k)%nat by lia.
      exact Hok.
    + exists w'. split; [exact Heq|].
      cbn [sent sleeps console timers logs sleep logger_log hand_over] in Hs, Hz, Hc, Ht, Hl.
      rewrite length_app, Nat.add_1_r in Hl.
      rewrite Hs, Hz, Hc, Ht, Hl, backoff_cons, <- !app_assoc.
      cbn [repeat app length]. repeat split. unfold warning.
      replace (attempt <? maxRetries)%Z with true by (symmetry; apply Z.ltb_lt; lia).
      reflexivity.
Qed.

(** The loop when every attempt fails. *)
Lemma attempts_all_fail :
  forall remaining attempt lastError w,
    (attempt + Z.of_nat remaining = maxRetries + 1)%Z ->
    (forall i, (i < remaining)%nat ->
               sendMail t (length (sent w) + i) mailOptions <> None) ->
    exists w',
      attempts t mailOptions maxRetries retryDelay remaining attempt lastError w
      = (match remaining with
         | O => match lastError with
                | Some error => Rejected error
                | None => RejectedNull
                end
         | S last =>
             match sendMail t (length (sent w) + last) mailOptions with
             | Some error => Rejected error
             | None => Resolved
             end
         end, w')
      /\ sent w' = sent w ++ repeat mailOptions remaining
      /\ sleeps w' = sleeps w ++ backoff retryDelay attempt (remaining - 1)
      /\ console w' = console w /\ timers w' = timers w
      /\ logs w'
         = logs w
           ++ warnings sendMail t mailOptions maxRetries (length (sent w)) attempt
                remaining.
Proof.
  induction remaining as [|remaining IH]; intros attempt lastError w Hrem Hfail.
  - exists w. cbn. rewrite !app_nil_r. repeat split.
  - cbn [Email.attempts].
    pose proof (Hfail 0%nat ltac:(lia)) as H0. rewrite Nat.add_0_r in H0.
    rewrite warnings_cons. unfold warning at 1.
    destruct (sendMail t (length (sent w)) mailOptions) as [error|] eqn:Hsend;
      [|congruence].
    match goal with
    | |- context [Email.attempts _ _ _ _ _ _ remaining _ _ ?w2] =>
        destruct (IH (attempt + 1)%Z (Some error) w2) as (w' & Heq & Hs & Hz & Hc & Ht & Hl)
    end.
    + lia.
    + intros i Hi.
      assert (Hsent : forall (b : bool) (ms : Z) (w0 : Effects),
                sent (if b then sleep ms w0 else w0) = sent w0)
        by (intros [] ? ?; reflexivity).
      rewrite Hsent. cbn [sent logger_log hand_over]. rewrite length_app. cbn [length].
      replace (length (sent w) + 1 + i)%nat with (length (sent w) + S i)%nat by lia.
      apply Hfail. lia.
    + exists w'. rewrite Heq. clear Heq IH.
      destruct remaining as [|last].
      * replace (attempt <? maxRetries)%Z with false in *
          by (symmetry; apply Z.ltb_ge; lia).
        cbn [sent sleeps console timers logs sleep logger_log hand_over] in *.
        rewrite length_app, Nat.add_1_r in Hl.
        rewrite Nat.add_0_r, Hsend, Hs, Hz, Hc, Ht, Hl, <- !app_assoc.
        cbn. rewrite !app_nil_r. repeat split.
      * replace (attempt <? maxRetries)%Z with true in *
          by (symmetry; apply Z.ltb_lt; lia).
        cbn [sent sleeps console timers logs sleep logger_log hand_over] in *.
        rewrite length_app in *. cbn [length] in *.
        replace (length (sent w) + 1 + last)%nat
          with (length (sent w) + S last)%nat by lia.
        rewrite Hs, Hz, Hc, Ht, Hl, <- !app_assoc.
        replace (S (S last) - 1)%nat with (S last) by lia.
        replace (S last - 1)%nat with last by lia.
        rewrite (backoff_cons attempt last), Nat.add_1_r.
        cbn [repeat app length]. repeat split.
Qed.

End Retry.

Section SendMail.

Import Email.

Variable Transporter : Type.
Variable sendMail : Transporter -> nat -> MailOptions -> option Caught.

Abbreviation sendMailWithRetry := (Email.sendMailWithRetry Transporter sendMail).

(** X16: sendMailWithRetry stops at the first attempt that succeeds: when
    the attempts before number [k + 1] fail and that one succeeds, with
    [k] below maxRetries, it resolves after handing the same mail over
    [k + 1] times and awaiting retryDelay, 2 * retryDelay, ...,
    [k] * retryDelay in between; nothing is printed on the console and
    no timer is set.  What
    it logs is one entry for each failed attempt, in order and nothing
    else: of level warn, with the text "Email send attempt i/maxRetries
    failed", the error of attempt i and willRetry, which is true. *)
Theorem sendMailWithRetry_first_success (t : Transporter) (mailOptions : MailOptions)
  (maxRetries retryDelay : Z) (w : Effects) (k : nat) :
  (Z.of_nat k < maxRetries)%Z ->
  (forall i, (i < k)%nat -> sendMail t (length (sent w) + i) mailOptions <> None) ->
  sendMail t (length (sent w) + k) mailOptions = None ->
  exists w',
    sendMailWithRetry (Some t) mailOptions maxRetries retryDelay w = (Resolved, w')
    /\ sent w' = sent w ++ repeat mailOptions (S k)
    /\ sleeps w' = sleeps w ++ backoff retryDelay 1 k
    /\ console w' = console w
    /\ length (logs w') = (length (logs w) + k)%nat
    /\ logs w'
       = logs w ++ warnings sendMail t mailOptions maxRetries (length (sent w)) 1 k
    /\ timers w' = timers w.
Proof.
  intros Hk Hfail Hok. unfold Email.sendMailWithRetry.
  destruct (attempts_first_success Transporter sendMail t mailOptions maxRetries
              retryDelay k (Z.to_nat maxRetries) 1%Z None w)
    as (w' & Heq & Hs & Hz & Hc & Ht & Hl); try assumption; try lia.
  exists w'. repeat split; try assumption.
  rewrite Hl, length_app.
  rewrite (warnings_length Transporter sendMail t mailOptions maxRetries _ _ _ Hfail).
  reflexivity.
Qed.

(** X17: when all of the maxRetries attempts fail, sendMailWithRetry
    rejects with the error of the last attempt, after maxRetries mails
    handed over, as many warnings logged and the delays retryDelay, ...,
    (maxRetries - 1) * retryDelay awaited: no delay follows the last
    attempt.  The entries logged are the warnings of the attempts, in
    order and nothing else: each of level warn, with the text "Email
    send attempt i/maxRetries failed", the error of attempt i and
    willRetry, which is false for the last attempt only.  With maxRetries
    below 1 no attempt is made and what is thrown is null; without a
    transporter it is an Error, "Email transporter not initialized", and
    nothing else happens. *)
Theorem sendMailWithRetry_all_fail (t : Transporter) (mailOptions : MailOptions)
  (maxRetries retryDelay : Z) (w : Effects) :
  ((0 < maxRetries)%Z ->
   (forall i, (i < Z.to_nat maxRetries)%nat ->
              sendMail t (length (sent w) + i) mailOptions <> None) ->
   exists lastError w',
     sendMail t (length (sent w) + (Z.to_nat maxRetries - 1)) mailOptions = Some lastError
     /\ sendMailWithRetry (Some t) mailOptions maxRetries retryDelay w
        = (Rejected lastError, w')
     /\ sent w' = sent w ++ repeat mailOptions (Z.to_nat maxRetries)
     /\ sleeps w' = sleeps w ++ backoff retryDelay 1 (Z.to_nat maxRetries - 1)
     /\ console w' = console w
     /\ length (logs w') = (length (logs w) + Z.to_nat maxRetries)%nat
     /\ logs w'
        = logs w
          ++ warnings sendMail t mailOptions maxRetries (length (sent w)) 1
               (Z.to_nat maxRetries)
     /\ timers w' = timers w)
  /\ ((maxRetries <= 0)%Z ->
      sendMailWithRetry (Some t) mailOptions maxRetries retryDelay w = (RejectedNull, w))
  /\ sendMailWithRetry None mailOptions maxRetries retryDelay w
     = (Rejected (ErrorInstance (lit "Email transporter not initialized")), w).
Proof.
  split; [|split].
  - intros Hpos Hfail. unfold Email.sendMailWithRetry.
    destruct (attempts_all_fail Transporter sendMail t mailOptions maxRetries
                retryDelay (Z.to_nat maxRetries) 1%Z None w)
      as (w' & Heq & Hs & Hz & Hc & Ht & Hl); try assumption; try lia.
    assert (Hlen : length (logs w') = (length (logs w) + Z.to_nat maxRetries)%nat).
    { rewrite Hl, length_app.
      rewrite (warnings_length Transporter sendMail t mailOptions maxRetries _ _ _ Hfail).
      reflexivity. }
    destruct (Z.to_nat maxRetries) as [|last] eqn:Hn; [lia|].
    replace (S last - 1)%nat with last in * by lia.
    pose proof (Hfail last ltac:(lia)) as Hlast.
    destruct (sendMail t (length (sent w) + last) mailOptions) as [lastError|] eqn:Hsend;
      [|congruence].
    exists lastError, w'. auto 10.
  - intros Hle. unfold Email.sendMailWithRetry.
    replace (Z.to_nat maxRetries) with 0%nat by lia. reflexivity.
  - reflexivity.
Qed.

End SendMail.

Lemma sendMailWithRetry_first_success_witness :
  exists w',
    Email.sendMailWithRetry unit (flaky 2) (Some tt)
      (Email.verificationMail exampleEnv (lit "a@b.c") (lit "123456")) 3 2000 quiet
    = (Email.Resolved, w')
    /\ length (Email.sent w') = 3%nat /\ Email.sleeps w' = [2000; 4000]%Z
    /\ Email.logs w'
       = [ {| Email.level := Email.Warn;
              Email.text := lit "Email send attempt 1/3 failed";
              Email.meta :=
                [(lit "error", Email.MError (ErrorInstance (lit "ECONNREFUSED")));
                 (lit "willRetry", Email.MBool true)] |};
           {| Email.level := Email.Warn;
              Email.text := lit "Email send attempt 2/3 failed";
              Email.meta :=
                [(lit "error", Email.MError (ErrorInstance (lit "ECONNREFUSED")));
                 (lit "willRetry", Email.MBool true)] |} ].
Proof.
  destruct (sendMailWithRetry_first_success unit (flaky 2) tt
              (Email.verificationMail exampleEnv (lit "a@b.c") (lit "123456"))
              3 2000 quiet 2)
    as (w' & Heq & Hs & Hz & _ & _ & Hl & _).
  - reflexivity.
  - intros i Hi. destruct i as [|[|i]]; [discriminate | discriminate | lia].
  - reflexivity.
  - exists w'. split; [exact Heq|]. rewrite Hs, Hz, Hl. repeat split.
Defined.

Lemma sendMailWithRetry_all_fail_witness :
  exists w',
    Email.sendMailWithRetry unit (flaky 5) (Some tt)
      (Email.verificationMail exampleEnv (lit "a@b.c") (lit "123456")) 3 2000 quiet
    = (Email.Rejected (ErrorInstance (lit "ECONNREFUSED")), w')
    /\ Email.sleeps w' = [2000; 4000]%Z
    /\ map Email.text (Email.logs w')
       = [lit "Email send attempt 1/3 failed"; lit "Email send attempt 2/3 failed";
          lit "Email send attempt 3/3 failed"]
    /\ map Email.level (Email.logs w') = [Email.Warn; Email.Warn; Email.Warn]
    /\ map Email.meta (Email.logs w')
       = map (fun willRetry =>
                [(lit "error", Email.MError (ErrorInstance (lit "ECONNREFUSED")));
                 (lit "willRetry", Email.MBool willRetry)])
             [true; true; false].
Proof.
  destruct (sendMailWithRetry_all_fail unit (flaky 5) tt
              (Email.verificationMail exampleEnv (lit "a@b.c") (lit "123456"))
              3 2000 quiet) as [H _].
  destruct H as (lastError & w' & Hlast & Heq & _ & Hz & _ & _ & Hl & _).
  - reflexivity.
  - intros i Hi. change (Z.to_nat 3) with 3%nat in Hi.
    destruct i as [|[|[|i]]]; [discriminate | discriminate | discriminate | lia].
  - exists w'. injection Hlast as <-. split; [exact Heq|]. split; [exact Hz|].
    rewrite Hl. repeat split.
Defined.

Section SendMethods.

Import Email.

Variable Transporter : Type.
Variable createTransport : TransportOptions -> Caught + Transporter.
Variable sendMail : Transporter -> nat -> MailOptions -> option Caught.
Variable env : Env.

Abbreviation sendMailWithRetry := (Email.sendMailWithRetry Transporter sendMail).
Abbreviation sendVerificationEmail :=
  (Email.sendVerificationEmail Transporter sendMail env).
Abbreviation sendPasswordResetEmail :=
  (Email.sendPasswordResetEmail Transporter sendMail env).
Abbreviation sendConfirmationEmail :=
  (Email.sendConfirmationEmail Transporter sendMail env).
Abbreviation initializeTransporter :=
  (Email.initializeTransporter Transporter createTransport env).
Abbreviation getInstance := (Email.getInstance Transporter createTransport env).

(** The three attempts of the send methods, summed up. *)
Lemma retry_thrice (t : Transporter) (m : MailOptions) (w : Effects) :
  exists c w' k j,
    sendMailWithRetry (Some t) m 3 2000 w = (c, w')
    /\ (k <= 3)%nat /\ sent w' = sent w ++ repeat m k
    /\ (j <= 2)%nat /\ sleeps w' = sleeps w ++ backoff 2000 1 j
    /\ console w' = console w /\ timers w' = timers w
    /\ (c = Resolved <-> accepted_within sendMail 3 t w m = true)
    /\ (c = Resolved \/ exists error, c = Rejected error).
Proof.
  unfold Email.sendMailWithRetry, accepted_within.
  change (Z.to_nat 3) with 3%nat. cbn [seq existsb].
  destruct (sendMail t (length (sent w) + 0) m) as [e0|] eqn:H0.
  2:{ destruct (attempts_first_success Transporter sendMail t m 3 2000 0 3 1%Z None w)
        as (w' & Heq & Hs & Hz & Hc & Ht & _);
        [lia | lia | intros i Hi; lia | exact H0 |].
      exists Resolved, w', 1%nat, 0%nat. rewrite Heq. repeat split; auto; lia. }
  destruct (sendMail t (length (sent w) + 1) m) as [e1|] eqn:H1.
  2:{ destruct (attempts_first_success Transporter sendMail t m 3 2000 1 3 1%Z None w)
        as (w' & Heq & Hs & Hz & Hc & Ht & _);
        [lia | lia | | exact H1 |].
      - intros i Hi. replace i with 0%nat by lia. congruence.
      - exists Resolved, w', 2%nat, 1%nat. rewrite Heq. repeat split; auto; lia. }
  destruct (sendMail t (length (sent w) + 2) m) as [e2|] eqn:H2.
  2:{ destruct (attempts_first_success Transporter sendMail t m 3 2000 2 3 1%Z None w)
        as (w' & Heq & Hs & Hz & Hc & Ht & _);
        [lia | lia | | exact H2 |].
      - intros i Hi. destruct i as [|[|i]]; [congruence | congruence | lia].
      - exists Resolved, w', 3%nat, 2%nat. rewrite Heq. repeat split; auto; lia. }
  destruct (attempts_all_fail Transporter sendMail t m 3 2000 3 1%Z None w)
    as (w' & Heq & Hs & Hz & Hc & Ht & _); [lia | |].
  - intros i Hi. destruct i as [|[|[|i]]]; [congruence | congruence | congruence | lia].
  - rewrite H2 in Heq. exists (Rejected e2), w', 3%nat, 2%nat. rewrite Heq.
    repeat split; auto; try lia; try discriminate. right. eauto.
Qed.

(** The shape shared by the three send methods. *)
Lemma send_shape (transporter : option Transporter) (m : MailOptions)
  (disabled sent_text failed_text line : jsstring) (w : Effects) :
  let r :=
    match transporter with
    | None => (Resolved, console_log line (logger_log Warn disabled [] w))
    | Some _ =>
        match sendMailWithRetry transporter m 3 2000 w with
        | (Resolved, w1) => (Resolved, logger_log Info sent_text [] w1)
        | (failure, w1) =>
            (Resolved,
             console_log line
               (logger_log Error failed_text [(lit "error", caught failure)] w1))
        end
    end in
  fst r = Resolved
  /\ (exists k, (k <= 3)%nat /\ sent (snd r) = sent w ++ repeat m k)
  /\ (exists j, (j <= 2)%nat /\ sleeps (snd r) = sleeps w ++ backoff 2000 1 j)
  /\ timers (snd r) = timers w
  /\ console (snd r)
     = if delivered sendMail transporter w m then console w else console w ++ [line].
Proof.
  destruct transporter as [t|]; cbn zeta.
  - destruct (retry_thrice t m w)
      as (c & w' & k & j & Heq & Hk & Hs & Hj & Hz & Hc & Ht & Hacc & Hform).
    rewrite Heq. unfold delivered.
    destruct Hform as [-> | [error ->]].
    + rewrite (proj1 Hacc eq_refl).
      cbn [fst snd sent sleeps console timers console_log logger_log].
      rewrite Hs, Hz, Hc, Ht.
      split; [reflexivity|]. split; [exists k; auto|]. split; [exists j; auto|]. auto.
    + destruct (accepted_within sendMail 3 t w m) eqn:Ha;
        [discriminate (proj2 Hacc eq_refl)|].
      cbn [fst snd sent sleeps console timers console_log logger_log].
      rewrite Hs, Hz, Hc, Ht.
      split; [reflexivity|]. split; [exists k; auto|]. split; [exists j; auto|]. auto.
  - cbn [fst snd sent sleeps console timers console_log logger_log delivered].
    split; [reflexivity|].
    split; [exists 0%nat; cbn; rewrite app_nil_r; auto|].
    split; [exists 0%nat; cbn; rewrite app_nil_r; auto|]. auto.
Qed.

(** X18: none of the three send methods ever rejects, whatever the
    transporter does: each resolves after handing its own mail over at
    most three times and awaiting at most the two delays 2000 and 4000
    ms, and sets no timer. *)
Theorem send_methods_never_reject (transporter : option Transporter)
  (email code : jsstring) (w : Effects) :
  (fst (sendVerificationEmail transporter email code w) = Resolved
   /\ (exists k, (k <= 3)%nat
         /\ sent (snd (sendVerificationEmail transporter email code w))
            = sent w ++ repeat (verificationMail env email code) k)
   /\ (exists j, (j <= 2)%nat
         /\ sleeps (snd (sendVerificationEmail transporter email code w))
            = sleeps w ++ backoff 2000 1 j))
  /\ (fst (sendPasswordResetEmail transporter email code w) = Resolved
      /\ (exists k, (k <= 3)%nat
            /\ sent (snd (sendPasswordResetEmail transporter email code w))
               = sent w ++ repeat (passwordResetMail env email code) k)
      /\ (exists j, (j <= 2)%nat
            /\ sleeps (snd (sendPasswordResetEmail transporter email code w))
               = sleeps w ++ backoff 2000 1 j))
  /\ (fst (sendConfirmationEmail transporter email code w) = Resolved
      /\ (exists k, (k <= 3)%nat
            /\ sent (snd (sendConfirmationEmail transporter email code w))
               = sent w
                 ++ repeat
                      (confirmationMail env email
                         (show (APP_DOMAIN env) ++ lit "/register/confirmation?uuid="
                          ++ code)) k)
      /\ (exists j, (j <= 2)%nat
            /\ sleeps (snd (sendConfirmationEmail transporter email code w))
               = sleeps w ++ backoff 2000 1 j)).
Proof.
  split; [|split].
  - destruct (send_shape transporter (verificationMail env email code)
                (lit "Email sending is disabled. Verification code for " ++ email
                 ++ lit ": " ++ code)
                (lit "Verification email sent to " ++ email)
                (lit "Failed to send verification email to " ++ email)
                (lit "Verification code for " ++ email ++ lit ": " ++ code) w)
      as (H1 & H2 & H3 & _). auto.
  - destruct (send_shape transporter (passwordResetMail env email code)
                (lit "Email sending is disabled. Reset code for " ++ email
                 ++ lit ": " ++ code)
                (lit "Password reset email sent to " ++ email)
                (lit "Failed to send password reset email to " ++ email)
                (lit "Reset code for " ++ email ++ lit ": " ++ code) w)
      as (H1 & H2 & H3 & _). auto.
  - destruct (send_shape transporter
                (confirmationMail env email
                   (show (APP_DOMAIN env) ++ lit "/register/confirmation?uuid=" ++ code))
                (lit "Email sending is disabled. Confirmation token for " ++ email
                 ++ lit ": " ++ code)
                (lit "Confirmation email sent to " ++ email)
                (lit "Failed to send confirmation email to " ++ email)
                (lit "Confirmation link for " ++ email ++ lit ": "
                 ++ show (APP_DOMAIN env) ++ lit "/register/confirmation?uuid=" ++ code) w)
      as (H1 & H2 & H3 & _). auto.
Qed.

(** X19: a send method prints its code, or its confirmation link, on the
    console exactly when the mail was not accepted: when there is no
    transporter, or when its three attempts failed.  When an attempt is
    accepted the console is left as it was. *)
Theorem send_methods_console_fallback (transporter : option Transporter)
  (email code : jsstring) (w : Effects) :
  console (snd (sendVerificationEmail transporter email code w))
  = (if delivered sendMail transporter w (verificationMail env email code)
     then console w
     else console w ++ [lit "Verification code for " ++ email ++ lit ": " ++ code])
  /\ console (snd (sendPasswordResetEmail transporter email code w))
     = (if delivered sendMail transporter w (passwordResetMail env email code)
        then console w
        else console w ++ [lit "Reset code for " ++ email ++ lit ": " ++ code])
  /\ console (snd (sendConfirmationEmail transporter email code w))
     = (if delivered sendMail transporter w
             (confirmationMail env email
                (show (APP_DOMAIN env) ++ lit "/register/confirmation?uuid=" ++ code))
        then console w
        else console w
             ++ [lit "Confirmation link for " ++ email ++ lit ": "
                 ++ show (APP_DOMAIN env) ++ lit "/register/confirmation?uuid="
                 ++ code]).
Proof.
  split; [|split].
  - destruct (send_shape transporter (verificationMail env email code)
                (lit "Email sending is disabled. Verification code for " ++ email
                 ++ lit ": " ++ code)
                (lit "Verification email sent to " ++ email)
                (lit "Failed to send verification email to " ++ email)
                (lit "Verification code for " ++ email ++ lit ": " ++ code) w)
      as (_ & _ & _ & _ & H). exact H.
  - destruct (send_shape transporter (passwordResetMail env email code)
                (lit "Email sending is disabled. Reset code for " ++ email
                 ++ lit ": " ++ code)
                (lit "Password reset email sent to " ++ email)
                (lit "Failed to send password reset email to " ++ email)
                (lit "Reset code for " ++ email ++ lit ": " ++ code) w)
      as (_ & _ & _ & _ & H). exact H.
  - destruct (send_shape transporter
                (confirmationMail env email
                   (show (APP_DOMAIN env) ++ lit "/register/confirmation?uuid=" ++ code))
                (lit "Email sending is disabled. Confirmation token for " ++ email
                 ++ lit ": " ++ code)
                (lit "Confirmation email sent to " ++ email)
                (lit "Failed to send confirmation email to " ++ email)
                (lit "Confirmation link for " ++ email ++ lit ": "
                 ++ show (APP_DOMAIN env) ++ lit "/register/confirmation?uuid=" ++ code) w)
      as (_ & _ & _ & _ & H). exact H.
Qed.

End SendMethods.

Section Transport.

Import Email.

Variable Transporter : Type.
Variable createTransport : TransportOptions -> Caught + Transporter.
Variable sendMail : Transporter -> nat -> MailOptions -> option Caught.
Variable env : Env.

Abbreviation initializeTransporter :=
  (Email.initializeTransporter Transporter createTransport env).
Abbreviation getInstance := (Email.getInstance Transporter createTransport env).
Abbreviation sendVerificationEmail :=
  (Email.sendVerificationEmail Transporter sendMail env).

Lemma unset_false (v : option jsstring) :
  unset v = false -> exists s, v = Some s /\ s <> [].
Proof.
  destruct v as [[|c s]|]; try discriminate. intros _. eexists; split; [reflexivity|].
  discriminate.
Qed.

Lemma initialize_incomplete (w : Effects) :
  unset (SMTP_HOST env) || unset_number (SMTP_PORT env)
  || unset (SMTP_MAIL env) || unset (SMTP_APP_PASS env) = true ->
  exists entry,
    initializeTransporter w
    = (None,
       {| sent := sent w; logs := logs w ++ [entry]; console := console w;
          sleeps := sleeps w; timers := timers w |})
    /\ level entry = Warn.
Proof.
  intros H. unfold Email.initializeTransporter. rewrite H.
  eexists. split; reflexivity.
Qed.

(** X20: initializeTransporter leaves a transporter only when the four
    SMTP settings are all set (the host, the address and the password not
    empty, the port not 0); the transporter is then the one nodemailer
    makes for that host, port, address and password, with [secure] true
    exactly for port 465, and one timer of 5000 ms is set for the
    verification.  When a setting is missing, or nodemailer throws, there
    is no transporter and no timer, and one entry is logged. *)
Theorem initializeTransporter_needs_full_config (w : Effects) :
  (forall t w', initializeTransporter w = (Some t, w') ->
     exists h p m pw options,
       SMTP_HOST env = Some h /\ h <> []
       /\ SMTP_PORT env = Some p /\ p <> 0%Z
       /\ SMTP_MAIL env = Some m /\ m <> []
       /\ SMTP_APP_PASS env = Some pw /\ pw <> []
       /\ createTransport options = inr t
       /\ host options = h /\ port options = p
       /\ auth_user options = m /\ auth_pass options = pw
       /\ secure options = (p =? 465)%Z
       /\ timers w' = timers w ++ [5000%Z])
  /\ (forall w', initializeTransporter w = (None, w') ->
        timers w' = timers w /\ sent w' = sent w /\ console w' = console w
        /\ length (logs w') = S (length (logs w))).
Proof.
  unfold Email.initializeTransporter.
  destruct (unset (SMTP_HOST env)) eqn:Hh; [split; [discriminate|];
    intros w' H; injection H as <-; cbn; rewrite length_app; cbn;
    repeat split; lia|].
  destruct (unset_number (SMTP_PORT env)) eqn:Hp; [split; [discriminate|];
    intros w' H; injection H as <-; cbn; rewrite length_app; cbn;
    repeat split; lia|].
  destruct (unset (SMTP_MAIL env)) eqn:Hm; [split; [discriminate|];
    intros w' H; injection H as <-; cbn; rewrite length_app; cbn;
    repeat split; lia|].
  destruct (unset (SMTP_APP_PASS env)) eqn:Hs; [split; [discriminate|];
    intros w' H; injection H as <-; cbn; rewrite length_app; cbn;
    repeat split; lia|].
  cbn [orb].
  apply unset_false in Hh as (h & Hh & Hhne). apply unset_false in Hm as (m & Hm & Hmne).
  apply unset_false in Hs as (pw & Hs & Hpne).
  destruct (SMTP_PORT env) as [p|] eqn:Hport; [|discriminate].
  cbn in Hp. apply Z.eqb_neq in Hp.
  rewrite Hh, Hm, Hs.
  match goal with
  | |- context [createTransport ?o] =>
      set (options := o); destruct (createTransport options) as [error|t] eqn:Hc
  end.
  - split; [discriminate|]. intros w' H. injection H as <-. cbn.
    rewrite length_app. cbn. repeat split. lia.
  - split; [|discriminate]. intros t' w' H. injection H as <- <-.
    exists h, p, m, pw, options. cbn. auto 20.
Qed.

(** X21: with an incomplete SMTP configuration the service works in its
    fallback mode: the instance made by getInstance has no transporter,
    getting the instance again gives the same one and does nothing, and
    sendVerificationEmail hands no mail over, awaits nothing, and prints
    the code on the console. *)
Theorem incomplete_config_falls_back (email code : jsstring) (w : Effects) :
  unset (SMTP_HOST env) || unset_number (SMTP_PORT env)
  || unset (SMTP_MAIL env) || unset (SMTP_APP_PASS env) = true ->
  let (service, w1) := getInstance None w in
  service = None
  /\ getInstance (Some service) w1 = (service, w1)
  /\ fst (sendVerificationEmail service email code w1) = Resolved
  /\ sent (snd (sendVerificationEmail service email code w1)) = sent w
  /\ sleeps (snd (sendVerificationEmail service email code w1)) = sleeps w
  /\ console (snd (sendVerificationEmail service email code w1))
     = console w ++ [lit "Verification code for " ++ email ++ lit ": " ++ code].
Proof.
  intros H. unfold Email.getInstance at 1.
  destruct (initialize_incomplete w H) as (entry & -> & _).
  repeat split.
Qed.

End Transport.

Lemma initializeTransporter_needs_full_config_example :
  fst (Email.initializeTransporter unit (fun _ => inr tt) exampleEnv quiet) = Some tt
  /\ Email.timers (snd (Email.initializeTransporter unit (fun _ => inr tt) exampleEnv quiet))
     = [5000%Z].
Proof. split; reflexivity. Qed.

Lemma incomplete_config_falls_back_witness :
  Email.console
    (snd (Email.sendVerificationEmail unit (flaky 0)
            {| Email.SMTP_HOST := None; Email.SMTP_PORT := Some 587%Z;
               Email.SMTP_MAIL := Some (lit "noreply@example.org");
               Email.SMTP_APP_PASS := Some (lit "app-pass");
               Email.NODE_ENV := None; Email.APP_DOMAIN := None |}
            None (lit "a@b.c") (lit "123456")
            (snd (Email.getInstance unit (fun _ => inr tt)
                    {| Email.SMTP_HOST := None; Email.SMTP_PORT := Some 587%Z;
                       Email.SMTP_MAIL := Some (lit "noreply@example.org");
                       Email.SMTP_APP_PASS := Some (lit "app-pass");
                       Email.NODE_ENV := None; Email.APP_DOMAIN := None |}
                    None quiet))))
  = [lit "Verification code for a@b.c: 123456"].
Proof.
  pose proof (incomplete_config_falls_back unit (fun _ => inr tt) (flaky 0)
                {| Email.SMTP_HOST := None; Email.SMTP_PORT := Some 587%Z;
                   Email.SMTP_MAIL := Some (lit "noreply@example.org");
                   Email.SMTP_APP_PASS := Some (lit "app-pass");
                   Email.NODE_ENV := None; Email.APP_DOMAIN := None |}
                (lit "a@b.c") (lit "123456") quiet eq_refl) as H.
  cbn in H. destruct H as (_ & _ & _ & _ & _ & H). exact H.
Defined.

(** * The order service *)

Section OrderQueries.

Import Orders.

Variable Num : Type.
Variable literal : Z -> Num.
Variables minus times divide : Num -> Num -> Num.
Variable Math_ceil : Num -> Num.
Variable Count : Type.
Variable Number : option Count -> Num.
Variable truthy : Num -> bool.
Variable Order : Type.
Variable rows : Select Num -> list Order.
Variable counts : option Condition -> list Count.

Abbreviation pageQuery := (Orders.pageQuery Num).
Abbreviation getOrders :=
  (Orders.getOrders Num literal minus times divide Math_ceil Count Number truthy
     Order rows counts).

Lemma filter_switches_agree (filterBy filterValue : jsstring) :
  countFilterCondition filterBy filterValue = filterCondition filterBy filterValue.
Proof.
  unfold countFilterCondition, filterCondition.
  destruct (str_eqb filterBy (lit "title")); [reflexivity|].
  destruct (str_eqb filterBy (lit "status")); [reflexivity|].
  destruct (str_eqb filterBy (lit "link")); [reflexivity|].
  destruct (str_eqb filterBy (lit "price")); reflexivity.
Qed.

Lemma pageQuery_where (sortBy : option jsstring) (sortOrder : Direction)
  (filterBy filterValue : option jsstring) :
  where_ (pageQuery sortBy sortOrder filterBy filterValue)
  = countCondition filterBy filterValue.
Proof.
  unfold Orders.pageQuery, countCondition.
  destruct (given filterBy && given filterValue).
  - transitivity (filterCondition (value filterBy) (value filterValue));
      [|symmetry; apply filter_switches_agree].
    destruct (filterCondition (value filterBy) (value filterValue));
      destruct (given sortBy); try reflexivity;
      destruct (sortColumn (value sortBy)); reflexivity.
  - destruct (given sortBy); try reflexivity;
      destruct (sortColumn (value sortBy)); reflexivity.
Qed.

(** The condition of the count query, case by case. *)
Lemma countCondition_cases (filterBy filterValue : option jsstring) :
  (given filterBy = false \/ given filterValue = false ->
   countCondition filterBy filterValue = None)
  /\ (forall name v,
        filterBy = Some name -> filterValue = Some v -> name <> [] -> v <> [] ->
        (name = lit "title" ->
         countCondition filterBy filterValue
         = Some (ILike title (lit "%" ++ v ++ lit "%")))
        /\ (name = lit "status" ->
            countCondition filterBy filterValue = Some (Eq status v))
        /\ (name = lit "link" ->
            countCondition filterBy filterValue
            = Some (ILike link (lit "%" ++ v ++ lit "%")))
        /\ (name = lit "price" ->
            countCondition filterBy filterValue = Some (Eq price v))
        /\ (~ In name [lit "title"; lit "status"; lit "link"; lit "price"] ->
            countCondition filterBy filterValue = None)).
Proof.
  unfold countCondition. split.
  - intros [-> | ->]; [reflexivity | rewrite andb_false_r; reflexivity].
  - intros name v -> -> Hname Hv.
    replace (given (Some name)) with true by (destruct name; [congruence | reflexivity]).
    replace (given (Some v)) with true by (destruct v; [congruence | reflexivity]).
    cbn [andb value]. repeat split.
    + intros ->. reflexivity.
    + intros ->. reflexivity.
    + intros ->. reflexivity.
    + intros ->. reflexivity.
    + intros Hnot. unfold countFilterCondition.
      repeat match goal with
             | |- context [str_eqb name ?l] =>
                 let H := fresh in
                 destruct (str_eqb name l) eqn:H;
                 [apply str_eqb_eq in H; exfalso; apply Hnot; subst name; simpl; tauto|]
             end.
      reflexivity.
Qed.

(** X22: the orders listed and the total counted are selected by one and
    the same condition, for every combination of arguments: the page is
    the answer to a query with that condition, limit 30 and offset
    (page - 1) * 30, and totalItems is the number of the count that the
    count query answers under that condition, or 0 when that number is
    falsy.  The condition is the one that filterBy names when filterBy
    and filterValue are both given and not empty: title and link are
    matched with ILIKE against %filterValue%, status and price are
    compared with filterValue, and any other name gives no condition;
    there is none either when filterBy or filterValue is missing.  The
    order of the page is the one that sortBy and sortOrder select. *)
Theorem getOrders_counts_what_it_lists (page : Num) (sortBy : option jsstring)
  (sortOrder : Direction) (filterBy filterValue : option jsstring) :
  exists condition order,
    orders _ _ (getOrders page sortBy sortOrder filterBy filterValue)
    = rows {| where_ := condition; orderBy_ := order;
              limit_ := Some (literal 30);
              offset_ := Some (times (minus page (literal 1)) (literal 30)) |}
    /\ totalItems _ (pagination _ _ (getOrders page sortBy sortOrder filterBy filterValue))
       = (if truthy (Number (hd_error (counts condition)))
          then Number (hd_error (counts condition)) else literal 0)
    /\ (condition = None
        \/ exists v, filterValue = Some v /\ v <> []
             /\ (condition = Some (ILike title (lit "%" ++ v ++ lit "%"))
                 \/ condition = Some (Eq status v)
                 \/ condition = Some (ILike link (lit "%" ++ v ++ lit "%"))
                 \/ condition = Some (Eq price v)))
    /\ (given filterBy = false \/ given filterValue = false -> condition = None)
    /\ (forall name v,
          filterBy = Some name -> filterValue = Some v -> name <> [] -> v <> [] ->
          (name = lit "title" ->
           condition = Some (ILike title (lit "%" ++ v ++ lit "%")))
          /\ (name = lit "status" -> condition = Some (Eq status v))
          /\ (name = lit "link" ->
              condition = Some (ILike link (lit "%" ++ v ++ lit "%")))
          /\ (name = lit "price" -> condition = Some (Eq price v))
          /\ (~ In name [lit "title"; lit "status"; lit "link"; lit "price"] ->
              condition = None))
    /\ order = orderBy_ (pageQuery sortBy sortOrder filterBy filterValue).
Proof.
  exists (countCondition filterBy filterValue),
    (orderBy_ (pageQuery sortBy sortOrder filterBy filterValue)).
  split; [|split; [|split; [|split; [|split]]]].
  - unfold Orders.getOrders. cbn [orders]. f_equal.
    unfold q_offset, q_limit. cbn [where_ orderBy_ limit_ offset_].
    rewrite pageQuery_where. reflexivity.
  - reflexivity.
  - unfold countCondition. destruct (given filterBy); [|left; reflexivity].
    destruct filterValue as [[|c v]|]; try (left; reflexivity).
    cbn [given falsy negb andb value]. unfold countFilterCondition.
    destruct (str_eqb (value filterBy) (lit "title"));
      [right; eexists; split; [reflexivity|]; split; [discriminate | auto]|].
    destruct (str_eqb (value filterBy) (lit "status"));
      [right; eexists; split; [reflexivity|]; split; [discriminate | auto]|].
    destruct (str_eqb (value filterBy) (lit "link"));
      [right; eexists; split; [reflexivity|]; split; [discriminate | auto]|].
    destruct (str_eqb (value filterBy) (lit "price"));
      [right; eexists; split; [reflexivity|]; split; [discriminate | auto 6]|].
    left; reflexivity.
  - apply countCondition_cases.
  - apply countCondition_cases.
  - reflexivity.
Qed.

(** X23: the default order, newest first, applies only when sortBy is
    absent or empty, and then whatever sortOrder says; a sortBy that is
    given but is none of title, price, status, createdAt and updatedAt
    leaves the query without any ORDER BY, and so does not fall back to
    the default; each of these five names orders the query by the column
    of that name, in the direction of sortOrder. *)
Theorem getOrders_unknown_sort_column (sortBy : option jsstring)
  (sortOrder : Direction) (filterBy filterValue : option jsstring) :
  (given sortBy = false ->
   orderBy_ (pageQuery sortBy sortOrder filterBy filterValue) = Some (createdAt, desc))
  /\ (forall name, sortBy = Some name -> name <> [] ->
        ~ In name [lit "title"; lit "price"; lit "status"; lit "createdAt";
                   lit "updatedAt"] ->
        orderBy_ (pageQuery sortBy sortOrder filterBy filterValue) = None)
  /\ (forall name, sortBy = Some name ->
        In name [lit "title"; lit "price"; lit "status"; lit "createdAt";
                 lit "updatedAt"] ->
        exists column,
          orderBy_ (pageQuery sortBy sortOrder filterBy filterValue)
          = Some (column, sortOrder))
  /\ (sortBy = Some (lit "title") ->
      orderBy_ (pageQuery sortBy sortOrder filterBy filterValue)
      = Some (title, sortOrder))
  /\ (sortBy = Some (lit "price") ->
      orderBy_ (pageQuery sortBy sortOrder filterBy filterValue)
      = Some (price, sortOrder))
  /\ (sortBy = Some (lit "status") ->
      orderBy_ (pageQuery sortBy sortOrder filterBy filterValue)
      = Some (status, sortOrder))
  /\ (sortBy = Some (lit "createdAt") ->
      orderBy_ (pageQuery sortBy sortOrder filterBy filterValue)
      = Some (createdAt, sortOrder))
  /\ (sortBy = Some (lit "updatedAt") ->
      orderBy_ (pageQuery sortBy sortOrder filterBy filterValue)
      = Some (updatedAt, sortOrder)).
Proof.
  assert (Hbase : forall q0 : Select Num,
            orderBy_ q0 = None ->
            orderBy_
              (if given sortBy then
                 match sortColumn (value sortBy) with
                 | Some column => q_orderBy (column, sortOrder) q0
                 | None => q0
                 end
               else q_orderBy (createdAt, desc) q0)
            = if given sortBy then
                match sortColumn (value sortBy) with
                | Some column => Some (column, sortOrder)
                | None => None
                end
              else Some (createdAt, desc)).
  { intros q0 Hq. destruct (given sortBy); [|reflexivity].
    destruct (sortColumn (value sortBy)); [reflexivity | exact Hq]. }
  assert (Horder : orderBy_ (pageQuery sortBy sortOrder filterBy filterValue)
                   = if given sortBy then
                       match sortColumn (value sortBy) with
                       | Some column => Some (column, sortOrder)
                       | None => None
                       end
                     else Some (createdAt, desc)).
  { unfold Orders.pageQuery. apply Hbase.
    destruct (given filterBy && given filterValue); [|reflexivity].
    destruct (filterCondition (value filterBy) (value filterValue)); reflexivity. }
  rewrite Horder. split; [|split; [|split]].
  - intros ->. reflexivity.
  - intros name -> Hne Hnot.
    replace (given (Some name)) with true by (destruct name; [congruence | reflexivity]).
    cbn [value]. unfold sortColumn.
    repeat match goal with
           | |- context [str_eqb name ?l] =>
               let H := fresh in
               destruct (str_eqb name l) eqn:H;
               [apply str_eqb_eq in H; exfalso; apply Hnot; subst name; simpl; tauto|]
           end.
    reflexivity.
  - intros name -> Hin.
    assert (Hg : given (Some name) = true).
    { simpl in Hin. decompose [or] Hin; subst; try reflexivity; contradiction. }
    rewrite Hg. cbn [value].
    simpl in Hin. decompose [or] Hin; subst; try contradiction; eexists; reflexivity.
  - repeat split; intros ->; reflexivity.
Qed.

End OrderQueries.

Lemma getOrders_unknown_sort_column_witness :
  Orders.orderBy_ (Orders.pageQuery Z (Some (lit "created_at")) Orders.asc None None) = None
  /\ Orders.orderBy_ (Orders.pageQuery Z None Orders.asc None None)
     = Some (Orders.createdAt, Orders.desc)
  /\ Orders.orderBy_ (Orders.pageQuery Z (Some (lit "price")) Orders.asc None None)
     = Some (Orders.price, Orders.asc).
Proof.
  destruct (getOrders_unknown_sort_column Z (Some (lit "created_at")) Orders.asc None None)
    as (_ & Hunknown & _).
  destruct (getOrders_unknown_sort_column Z None Orders.asc None None) as (Habsent & _).
  destruct (getOrders_unknown_sort_column Z (Some (lit "price")) Orders.asc None None)
    as (_ & _ & _ & _ & Hprice & _).
  split; [|split].
  - apply (Hunknown (lit "created_at") eq_refl); [discriminate|].
    simpl. intros H. decompose [or] H; try discriminate; contradiction.
  - apply Habsent. reflexivity.
  - apply Hprice. reflexivity.
Defined.
